(** * Multi-type coverage analysis: a shallow embedding of [core.py] and
      [question3.py]

    The scripts drive a desktop GIS engine (arcpy).  The engine's geometry
    primitives are not part of the repository; they are taken as a record of
    functions ([provider]) and the scripts are embedded as state-passing
    programs over an explicit [world]: the named datasets, the [./shape]
    directory, the CSV folder, the standard output and the list of engine
    calls issued so far. *)

From Stdlib Require Import Ascii String QArith Qround.
From stdpp Require Import base option list strings pretty gmap sorting.

Local Open Scope string_scope.
Local Open Scope list_scope.

(** ** Python values shared by the modules *)

(** Exceptions the scripts raise, catch or let through.  [BaseOnly] stands
    for the classes that derive from [BaseException] but not from
    [Exception] ([KeyboardInterrupt], [SystemExit]). *)
Inductive exn : Type :=
  | ExecuteError (msg : string)
  | AssertionError (msg : string)
  | ValueError (msg : string)
  | IndexError
  | StopIteration
  | FileNotFoundError (msg : string)
  | OtherException (msg : string)
  | BaseOnly (msg : string).

(** [isinstance(e, arcpy.ExecuteError)] *)
Definition is_ExecuteError (e : exn) : bool :=
  match e with ExecuteError _ => true | _ => false end.

(** [isinstance(e, Exception)] *)
Definition is_Exception (e : exn) : bool :=
  match e with BaseOnly _ => false | _ => true end.

(** [str(e)] *)
Definition exn_str (e : exn) : string :=
  match e with
  | ExecuteError m | AssertionError m | ValueError m
  | FileNotFoundError m | OtherException m | BaseOnly m => m
  | IndexError => "list index out of range"
  | StopIteration => ""
  end.

(** The outcome of a Python call: a value or a raised exception. *)
Inductive result (A : Type) : Type :=
  | Ok (a : A)
  | Raise (e : exn).
Arguments Ok {A} a.
Arguments Raise {A} e.

Definition result_bind {A B} (f : A → result B) (r : result A) : result B :=
  match r with Ok a => f a | Raise e => Raise e end.

#[global] Instance result_mret : MRet result := λ A, @Ok A.
#[global] Instance result_mbind : MBind result := λ A B, @result_bind A B.

(** ** consts.py *)

Definition FileNames : list string :=
  [ "Badminton_court.csv";
    "Basketball_court.csv";
    "country_parks.csv";
    "fitness_center.csv";
    "other_recreation_sports_facilities.csv";
    "parks_gardens.csv";
    "sports_grounds.csv";
    "swimming_pools.csv" ].

Definition FacilityTypes : list string :=
  [ "Badminton Courts";
    "Basketball Courts";
    "Country Parks";
    "Fitness Rooms";
    "Other Recreation & Sports Facilities";
    "Parks, Zoos And Gardens";
    "Sports Grounds";
    "Swimming Pools" ].

Definition WORKSPACE : string := "./Waterdragen.gdb".

(** ** core.py: pure helpers *)

(** [str.replace(old, new)] for a one-character [old], the only form the
    source uses: every occurrence of the character is replaced. *)
Fixpoint str_replace (old : ascii) (new : string) (s : string) : string :=
  match s with
  | EmptyString => EmptyString
  | String c s' =>
      if decide (c = old) then new +:+ str_replace old new s'
      else String c (str_replace old new s')
  end.

Definition replace_special_chars (name : string) : string :=
  str_replace "," "" (str_replace "&" "and" (str_replace " " "_" name)).

Definition check_na_or_empty (s : string) (default : option string)
  : option string :=
  if bool_decide (s = "") || bool_decide (s = "N.A.") then default
  else Some s.

(** [csv_row[i]] on a Python list, for a literal index [i >= 0]. *)
Definition getitem (csv_row : list string) (i : nat) : result string :=
  match csv_row !! i with
  | Some s => Ok s
  | None => Raise IndexError
  end.

Section Facility.
(** The float type and Python's [float(str)], which raises [ValueError]
    on text that is not a number. *)
Context {F : Type}.
Variable float_of_string : string → option F.

Definition float (s : string) : result F :=
  match float_of_string s with
  | Some x => Ok x
  | None => Raise (ValueError ("could not convert string to float: " +:+ s))
  end.

Record SportFacility : Type := mkSportFacility {
  gmid : string;
  dataset : string;
  fac_name : string;
  addr : option string;
  district : option string;
  northing : F;
  easting : F;
  lat : F;
  lon : F
}.

(** The arguments of [cls(...)] are evaluated left to right. *)
Definition from_csv_row (csv_row : list string) : result SportFacility :=
  c0 ← getitem csv_row 0;
  c1 ← getitem csv_row 1;
  c2 ← getitem csv_row 2;
  c3 ← getitem csv_row 3;
  let a := check_na_or_empty c3 None in
  c4 ← getitem csv_row 4;
  let d := check_na_or_empty c4 None in
  n ← (getitem csv_row 5 ≫= float);
  e ← (getitem csv_row 6 ≫= float);
  la ← (getitem csv_row 7 ≫= float);
  lo ← (getitem csv_row 8 ≫= float);
  Ok (mkSportFacility c0 c1 c2 a d n e la lo).
End Facility.

Arguments SportFacility F : clear implicits.

(** ** Library functions used by question3.py *)

(** [itertools.combinations(pool, r)]: the [r]-length subsequences of
    [pool], by position, in lexicographic order of their positions. *)
Fixpoint combinations {A} (pool : list A) (r : nat) {struct pool}
  : list (list A) :=
  match r with
  | 0 => [[]]
  | S r' =>
      match pool with
      | [] => []
      | x :: pool' =>
          (cons x <$> combinations pool' r') ++ combinations pool' (S r')
      end
  end.

(** The loop of the reference implementation in the Python documentation,
    which steps a list of [r] increasing positions: find the rightmost
    position that is not at its maximum, advance it, and reset the ones to
    its right. *)
Fixpoint find_pivot (n r : nat) (indices : list nat) (i : nat) : option nat :=
  match i with
  | 0 => None
  | S i' =>
      match indices !! i' with
      | Some x =>
          if decide (x = i' + n - r) then find_pivot n r indices i'
          else Some i'
      | None => None
      end
  end.

Definition advance (n r : nat) (indices : list nat) : option (list nat) :=
  i ← find_pivot n r indices r;
  x ← indices !! i;
  Some (take i indices ++ seq (S x) (r - i)).

Definition pick {A} (pool : list A) (indices : list nat) : list A :=
  omap (λ i, pool !! i) indices.

Fixpoint combinations_loop {A} (fuel : nat) (pool : list A) (r : nat)
    (indices : list nat) : list (list A) :=
  match fuel with
  | 0 => []
  | S fuel' =>
      match advance (length pool) r indices with
      | None => []
      | Some indices' =>
          pick pool indices' :: combinations_loop fuel' pool r indices'
      end
  end.

Definition combinations_by_index {A} (fuel : nat) (pool : list A) (r : nat)
  : list (list A) :=
  if decide (length pool < r) then []
  else pick pool (seq 0 r) :: combinations_loop fuel pool r (seq 0 r).

(** The positions the loop visits after [indices]. *)
Fixpoint index_loop (fuel n r : nat) (indices : list nat) : list (list nat) :=
  match fuel with
  | 0 => []
  | S fuel' =>
      match advance n r indices with
      | None => []
      | Some indices' => indices' :: index_loop fuel' n r indices'
      end
  end.

(** [enumerate(xs, start)] *)
Fixpoint enumerate_from {A} (start : nat) (xs : list A) : list (nat * A) :=
  match xs with
  | [] => []
  | x :: xs' => (start, x) :: enumerate_from (S start) xs'
  end.

Definition enumerate {A} (xs : list A) : list (nat * A) := enumerate_from 0 xs.

(** [str(index)] for a non-negative [int] is its decimal numeral. *)
Definition str_of_nat (n : nat) : string := pretty n.

(** ** The geometry engine *)

(** The engine's primitives on feature layers.  [None] is a geometry error,
    which arcpy raises as [ExecuteError].  Distances are the numeric value of
    the linear-unit text ([f"{radius} Meters"]). *)
Record provider : Type := Provider {
  layer : Type;
  gp_buffer : layer → Q → option layer;
  gp_select : layer → string → option layer;
  gp_count : layer → nat;
  gp_intersect : list layer → option layer;
  gp_merge : list layer → option layer;
  gp_clip : layer → layer → option layer;
  gp_dissolve : layer → option layer;
  gp_split : layer → option layer;
  (** the name the engine generates for a tool whose output dataset
      argument is omitted *)
  gp_auto_name : string → string
}.

(** Engine tools as the scripts invoke them, with their dataset names. *)
Inductive gp_call : Type :=
  | Buffer_analysis (inp out : string) (dist : Q)
  | SelectLayerByAttribute (inp where_clause : string)
  | GetCount_management
  | CopyFeatures_management (out : string)
  | Intersect_analysis (inps : list string) (out : string)
  | Merge (inps : list string) (out : string)
  | Clip_analysis (inp clip_features : string) (out : option string)
  | Dissolve_management (inp out : string)
  | Delete_management (name : string)
  | Rename_management (old new : string)
  | MultipartToSinglepart_management (inp out : string).

(** Paths below the scratch directory [./shape]. *)
Definition in_shape_dir (name : string) : bool := String.prefix "./shape/" name.

(** ** The world the scripts run in *)

Section Pipeline.
Context (P : provider).

Record world : Type := World {
  (** feature classes of the geodatabase and shapefiles, by the name or
      path the scripts use for them *)
  datasets : gmap string (layer P);
  (** does the directory [./shape] exist *)
  shape_dir : bool;
  (** does the folder [./csv_data/] exist, and the rows of its files *)
  csv_dir : bool;
  csv_files : gmap string (list (list string));
  (** lines printed so far, oldest first *)
  stdout : list string;
  (** engine tools invoked so far, oldest first *)
  gp_calls : list gp_call;
  (** what [arcpy.GetMessages()] returns *)
  gp_messages : string
}.

Definition set_datasets (f : gmap string (layer P) → gmap string (layer P))
    (w : world) : world :=
  World (f (datasets w)) (shape_dir w) (csv_dir w) (csv_files w)
        (stdout w) (gp_calls w) (gp_messages w).

Definition set_shape_dir (b : bool) (w : world) : world :=
  World (datasets w) b (csv_dir w) (csv_files w)
        (stdout w) (gp_calls w) (gp_messages w).

Definition add_stdout (line : string) (w : world) : world :=
  World (datasets w) (shape_dir w) (csv_dir w) (csv_files w)
        (stdout w ++ [line]) (gp_calls w) (gp_messages w).

Definition add_call (c : gp_call) (w : world) : world :=
  World (datasets w) (shape_dir w) (csv_dir w) (csv_files w)
        (stdout w) (gp_calls w ++ [c]) (gp_messages w).

Definition set_messages (msg : string) (w : world) : world :=
  World (datasets w) (shape_dir w) (csv_dir w) (csv_files w)
        (stdout w) (gp_calls w) msg.

(** A Python computation: it may change the world and either returns a
    value or raises. *)
Definition M (A : Type) : Type := world → result A * world.

Definition ret {A} (a : A) : M A := λ w, (Ok a, w).
Definition raise {A} (e : exn) : M A := λ w, (Raise e, w).
Definition bind {A B} (k : A → M B) (m : M A) : M B :=
  λ w, match m w with
       | (Ok a, w') => k a w'
       | (Raise e, w') => (Raise e, w')
       end.

#[global] Instance M_ret : MRet M := λ A, @ret A.
#[global] Instance M_bind : MBind M := λ A B, @bind A B.

Definition lift {A} (r : result A) : M A := λ w, (r, w).
Definition modify (f : world → world) : M unit := λ w, (Ok tt, f w).
Definition print (line : string) : M unit := modify (add_stdout line).

(** [try: body  except <classes>: handler] *)
Definition try_except {A} (body : M A) (catches : exn → bool)
    (handler : exn → M A) : M A :=
  λ w, match body w with
       | (Ok a, w') => (Ok a, w')
       | (Raise e, w') => if catches e then handler e w' else (Raise e, w')
       end.

(** [for x in xs: body(x)] *)
Fixpoint for_each {A} (xs : list A) (body : A → M unit) : M unit :=
  match xs with
  | [] => ret tt
  | x :: xs' => body x ;; for_each xs' body
  end.

(** *** core.py: the decorator *)

Definition exception_handler {X A} (f_name : string) (f : X → M A)
  : X → M A :=
  λ args w,
    match f args w with
    | (Ok v, w') => (Ok v, w')
    | (Raise e, w') =>
        if is_ExecuteError e then
          (Raise e,
           add_stdout ("Error while running " +:+ f_name +:+ "(): "
                       +:+ gp_messages w') w')
        else if is_Exception e then
          (Raise e,
           add_stdout ("Unexpected error while running " +:+ f_name
                       +:+ ": " +:+ exn_str e) w')
        else (Raise e, w')
    end.

(** *** arcpy tools over the world *)

Definition gp_fail {A} (msg : string) : M A :=
  λ w, (Raise (ExecuteError msg), set_messages msg w).

Definition engine {A} (tool : string) (r : option A) : M A :=
  match r with
  | Some a => ret a
  | None => gp_fail ("ERROR 999999: " +:+ tool +:+ " failed")
  end.

Definition read_dataset (name : string) : M (layer P) :=
  λ w, match datasets w !! name with
       | Some l => (Ok l, w)
       | None => gp_fail ("ERROR 000732: " +:+ name +:+ " does not exist") w
       end.

(** [arcpy.env.overwriteOutput = True]: an existing output is replaced.
    A shapefile below [./shape] needs the directory. *)
Definition write_dataset (name : string) (l : layer P) : M unit :=
  λ w, if in_shape_dir name && negb (shape_dir w)
       then gp_fail ("ERROR 000210: cannot create output " +:+ name) w
       else (Ok tt, set_datasets (insert name l) w).

Fixpoint read_datasets (names : list string) : M (list (layer P)) :=
  match names with
  | [] => ret []
  | n :: names' =>
      l ← read_dataset n; ls ← read_datasets names'; ret (l :: ls)
  end.

Definition call (c : gp_call) : M unit := modify (add_call c).

Definition arcpy_Exists (name : string) : M bool :=
  λ w, (Ok (bool_decide (is_Some (datasets w !! name))), w).

Definition arcpy_Buffer_analysis (inp out : string) (dist : Q) : M unit :=
  call (Buffer_analysis inp out dist) ;;
  l ← read_dataset inp;
  b ← engine "Buffer" (gp_buffer P l dist);
  write_dataset out b.

Definition arcpy_SelectLayerByAttribute (inp where_clause : string)
  : M (layer P) :=
  call (SelectLayerByAttribute inp where_clause) ;;
  l ← read_dataset inp;
  engine "SelectLayerByAttribute" (gp_select P l where_clause).

Definition arcpy_GetCount_management (l : layer P) : M nat :=
  call GetCount_management ;; ret (gp_count P l).

Definition arcpy_CopyFeatures_management (l : layer P) (out : string)
  : M unit :=
  call (CopyFeatures_management out) ;; write_dataset out l.

Definition arcpy_Intersect_analysis (inps : list string) (out : string)
  : M unit :=
  call (Intersect_analysis inps out) ;;
  ls ← read_datasets inps;
  r ← engine "Intersect" (gp_intersect P ls);
  write_dataset out r.

Definition arcpy_Merge (inps : list string) (out : string) : M unit :=
  call (Merge inps out) ;;
  ls ← read_datasets inps;
  r ← engine "Merge" (gp_merge P ls);
  write_dataset out r.

(** With the output argument omitted the engine names the output. *)
Definition arcpy_Clip_analysis (inp clip_features : string)
    (out : option string) : M unit :=
  call (Clip_analysis inp clip_features out) ;;
  l ← read_dataset inp;
  c ← read_dataset clip_features;
  r ← engine "Clip" (gp_clip P l c);
  write_dataset (default (gp_auto_name P inp) out) r.

Definition arcpy_Dissolve_management (inp out : string) : M unit :=
  call (Dissolve_management inp out) ;;
  l ← read_dataset inp;
  r ← engine "Dissolve" (gp_dissolve P l);
  write_dataset out r.

Definition arcpy_MultipartToSinglepart_management (inp out : string)
  : M unit :=
  call (MultipartToSinglepart_management inp out) ;;
  l ← read_dataset inp;
  r ← engine "MultipartToSinglepart" (gp_split P l);
  write_dataset out r.

Definition arcpy_Delete_management (name : string) : M unit :=
  call (Delete_management name) ;;
  _ ← read_dataset name;
  modify (set_datasets (delete name)).

Definition arcpy_Rename_management (old new : string) : M unit :=
  call (Rename_management old new) ;;
  l ← read_dataset old;
  modify (set_datasets (delete old)) ;;
  write_dataset new l.

(** [shutil.rmtree("./shape/")]: removes the directory and all below it;
    raises [FileNotFoundError] when the directory does not exist. *)
Definition shutil_rmtree_shape : M unit :=
  λ w, if shape_dir w
       then (Ok tt,
             set_shape_dir false
               (set_datasets (filter (λ kv, in_shape_dir kv.1 = false)) w))
       else (Raise (FileNotFoundError "./shape/"), w).

(** Module initialisation of question3.py (lines 26-27). *)
Definition module_init : M unit :=
  λ w, if negb (shape_dir w) then (Ok tt, set_shape_dir true w)
       else (Ok tt, w).

(** *** multiprocessing: the worker pool *)

(** A call run in a worker process: datasets on disk and the terminal
    are shared with the parent, the engine's message buffer is the
    worker's own. *)
Definition in_worker {A} (m : M A) : M A :=
  λ w, let '(r, w') := m w in (r, set_messages (gp_messages w) w').

(** Workers run the submitted calls one at a time against the shared
    world, in the order [completion] (positions in the task list); each
    outcome is kept under the position of its task. *)
Fixpoint run_workers {A B} (f : A → M B) (argss : list A)
    (completion : list nat) (finished : gmap nat (result B))
  : world → gmap nat (result B) * world :=
  match completion with
  | [] => λ w, (finished, w)
  | i :: rest =>
      λ w, match argss !! i with
           | Some a =>
               let '(r, w') := in_worker (f a) w in
               run_workers f argss rest (<[i:=r]> finished) w'
           | None => run_workers f argss rest finished w
           end
  end.

(** [res.get()]: the value of the task, or its exception raised again.
    A task missing from [completion] has no outcome to get. *)
Definition async_get {B} (finished : gmap nat (result B)) (i : nat)
  : result B :=
  default (Raise (OtherException "task never completed")) (finished !! i).

(** [[f(x) for x in xs]]: the first exception ends the comprehension. *)
Fixpoint comprehension {A B} (f : A → result B) (xs : list A)
  : result (list B) :=
  match xs with
  | [] => Ok []
  | x :: xs' => y ← f x; ys ← comprehension f xs'; Ok (y :: ys)
  end.

(** [results = [pool.apply_async(f, args) for args in argss]] followed by
    [[res.get() for res in results]]. *)
Definition pool_apply_async {A B} (f : A → M B) (argss : list A)
    (completion : list nat) : M (list B) :=
  λ w, let '(finished, w') := run_workers f argss completion ∅ w in
       (comprehension (async_get finished) (seq 0 (length argss)), w').

(** *** question3.py *)

Definition make_fac_type_layer (feature_class facility_type : string)
  : M unit :=
  let fac_type_name := replace_special_chars facility_type +:+ "_Layer" in
  fac_type_layer ←
    arcpy_SelectLayerByAttribute feature_class
      ("Facility_Type = '" +:+ facility_type +:+ "'");
  count ← arcpy_GetCount_management fac_type_layer;
  print ("Selected " +:+ str_of_nat count
         +:+ " features for Facility_Type = '" +:+ facility_type +:+ "'") ;;
  print ("Created layer " +:+ fac_type_name) ;;
  arcpy_CopyFeatures_management fac_type_layer
    ("./shape/" +:+ fac_type_name +:+ ".shp").

(** The path of a category's layer as [process_combination] builds it. *)
Definition fac_type_path (fac_type : string) : string :=
  "./shape/" +:+ replace_special_chars fac_type +:+ "_Layer.shp".

(** The per-combination output path. *)
Definition out_name_of (index : nat) : string :=
  "./shape/FeatureCombination_" +:+ str_of_nat index +:+ ".shp".

(** The loop over [fac_type_comb] with its accumulator. *)
Fixpoint collect_layers (fac_type_comb : list string)
    (fac_type_layers : list string) : M (list string) :=
  match fac_type_comb with
  | [] => ret fac_type_layers
  | fac_type :: rest =>
      let fac_type_name := fac_type_path fac_type in
      ex ← arcpy_Exists fac_type_name;
      if ex : bool then collect_layers rest (fac_type_layers ++ [fac_type_name])
      else raise (AssertionError fac_type_name)
  end.

Definition process_combination (index : nat) (fac_type_comb : list string)
  : M string :=
  fac_type_layers ← collect_layers fac_type_comb [];
  let out_name := out_name_of index in
  try_except (arcpy_Intersect_analysis fac_type_layers out_name)
    is_Exception
    (λ e, print (exn_str e) ;;
          print ("Warning: " +:+ out_name +:+ " is ignored")) ;;
  ret out_name.

(** The tasks the pool receives: [enumerate(combinations(categories, k))].
    The source fixes [categories = FacilityTypes] and [k = 3]. *)
Definition combination_tasks (categories : list string) (k : nat)
  : list (nat * list string) :=
  enumerate (combinations categories k).

(** Lines 48-51: buffer the facilities, one layer per category. *)
Definition buffer_stage (radius : Q) (facilities_list : string) : M unit :=
  let facilities_buffer := "facilities_buffer" in
  arcpy_Buffer_analysis facilities_list facilities_buffer radius ;;
  for_each FacilityTypes (make_fac_type_layer facilities_buffer).

(** Lines 53-59: one task per combination of 3, results in task order. *)
Definition dispatch (completion : list nat) : M (list string) :=
  pool_apply_async (λ t, process_combination t.1 t.2)
    (combination_tasks FacilityTypes 3) completion.

(** Lines 61-78: merge, clip, clean up, dissolve, split. *)
Definition aggregate (fac_intersect_list : list string) : M unit :=
  let three_type_fac_intersect := "ThreeTypeIntersect" in
  let hk_shape := "./Hong_Kong_18_Districts/HKDistrict18.shp" in
  arcpy_Merge fac_intersect_list three_type_fac_intersect ;;
  arcpy_Clip_analysis three_type_fac_intersect hk_shape None ;;
  shutil_rmtree_shape ;;
  let temp_name := three_type_fac_intersect +:+ "_temp" in
  arcpy_Dissolve_management three_type_fac_intersect temp_name ;;
  arcpy_Delete_management three_type_fac_intersect ;;
  arcpy_Rename_management temp_name three_type_fac_intersect ;;
  arcpy_MultipartToSinglepart_management three_type_fac_intersect temp_name ;;
  arcpy_Delete_management three_type_fac_intersect ;;
  arcpy_Rename_management temp_name three_type_fac_intersect ;;
  print ("Successfully saved to " +:+ three_type_fac_intersect).

Definition three_or_above_facilities_body
    (radius : Q) (facilities_list : string) (completion : list nat)
  : M unit :=
  buffer_stage radius facilities_list ;;
  fac_intersect_list ← dispatch completion;
  aggregate fac_intersect_list.

(** The decorated function; [completion] is the order in which the pool's
    workers finish. *)
Definition three_or_above_facilities
    (radius : Q) (facilities_list : string) (completion : list nat)
  : M unit :=
  exception_handler "three_or_above_facilities"
    (λ _ : unit,
       three_or_above_facilities_body radius facilities_list completion) tt.

Section Main.
Context {F : Type}.
Variable float_of_string : string → option F.

(** [next(csv_reader)] raises [StopIteration] on a file with no line. *)
Definition read_csv (filename : string) : M (list (SportFacility F)) :=
  λ w, match csv_files w !! filename with
       | None => (Raise (FileNotFoundError filename), w)
       | Some [] => (Raise StopIteration, w)
       | Some (_ :: rows) =>
           (comprehension (from_csv_row float_of_string) rows, w)
       end.

Fixpoint read_all_csvs_loop (folder : string) (filenames : list string)
    (table : list (SportFacility F)) : M (list (SportFacility F)) :=
  match filenames with
  | [] => ret table
  | filename :: rest =>
      rows ← read_csv (folder +:+ filename);
      read_all_csvs_loop folder rest (table ++ rows)
  end.

(** [os.path.join(folder, filename)] is [folder + filename] for the
    folder the source passes, which ends in a separator. *)
Definition read_all_csvs (folder : string) : M (list (SportFacility F)) :=
  read_all_csvs_loop folder FileNames [].

Definition main_body (completion : list nat) : M unit :=
  let csv_folder := "./csv_data/" in
  λ w,
    if negb (csv_dir w) then
      (Raise (FileNotFoundError
                ("CSV folder '" +:+ csv_folder +:+ "' not found.")), w)
    else
      (sports_data ← read_all_csvs csv_folder;
       match sports_data with
       | [] => raise (ValueError "No facility data loaded from CSV files.")
       | _ :: _ => three_or_above_facilities 500 "facilities_list" completion
       end) w.

Definition main (completion : list nat) : M unit :=
  exception_handler "main" (λ _ : unit, main_body completion) tt.
End Main.
End Pipeline.

Arguments datasets {P} w.
Arguments shape_dir {P} w.
Arguments csv_dir {P} w.
Arguments csv_files {P} w.
Arguments stdout {P} w.
Arguments gp_calls {P} w.
Arguments gp_messages {P} w.

(** ** A concrete engine: features on a line of cells

    A feature carries its [Facility_Type] attribute and the cells it covers
    (cells are 250 m wide).  Two cells are connected when they are
    neighbours, so a single-part feature is a run of consecutive cells. *)
Module Cells.
Definition feature : Type := string * list nat.
Definition cell_layer : Type := list feature.

(** cells of [0 .. bound] that belong to [cs], in increasing order *)
Definition normalise (cs : list nat) : list nat :=
  filter (λ c, c ∈ cs) (seq 0 (S (foldr max 0 cs))).

Definition covered (l : cell_layer) : list nat :=
  normalise (concat (snd <$> l)).

Definition grow (n : nat) (cs : list nat) : list nat :=
  normalise (concat ((λ c, seq (c - n) (S (2 * n) - (n - c))) <$> cs)).

Definition radius_cells (r : Q) : nat := Z.to_nat (Qfloor (r / 250)).

(** A distance that is not positive buffers nothing. *)
Definition buffer (l : cell_layer) (r : Q) : option cell_layer :=
  Some (if Qle_bool r 0 then []
        else (λ f, (f.1, grow (radius_cells r) f.2)) <$> l).

Definition select (l : cell_layer) (where_clause : string)
  : option cell_layer :=
  Some (filter (λ f, "Facility_Type = '" +:+ f.1 +:+ "'" = where_clause) l).

Definition common (cs ds : list nat) : list nat := filter (λ c, c ∈ ds) cs.

Definition keep_nonempty (l : cell_layer) : cell_layer :=
  filter (λ f, f.2 ≠ []) l.

(** The engine fails on the inputs [faulty] marks, and on no input. *)
Definition intersect (faulty : list cell_layer → bool)
    (ls : list cell_layer) : option cell_layer :=
  if faulty ls then None
  else match ls with
       | [] => None
       | l :: ls' =>
           Some (keep_nonempty
                   [("", foldr (λ l' acc, common acc (covered l'))
                               (covered l) ls')])
       end.

Definition merge (ls : list cell_layer) : option cell_layer :=
  Some (concat ls).

Definition clip (l boundary : cell_layer) : option cell_layer :=
  Some (keep_nonempty
          ((λ f, (f.1, common (normalise f.2) (covered boundary))) <$> l)).

(** No dissolve field: everything becomes one multi-part feature. *)
Definition dissolve (l : cell_layer) : option cell_layer :=
  Some (keep_nonempty [("", covered l)]).

(** Maximal runs of consecutive cells of an increasing list. *)
Fixpoint runs (cs : list nat) : list (list nat) :=
match cs with
| [] => []
| c :: rest =>
    match runs rest with
    | [] => [[c]]
    | [] :: rs => [c] :: rs
    | (d :: r) :: rs =>
        if decide (d = S c) then (c :: d :: r) :: rs
        else [c] :: (d :: r) :: rs
    end
end.

(** Every feature is replaced by its runs, each with the attribute. *)
Definition split_features (l : cell_layer) : cell_layer :=
  concat ((λ f, (λ r, (f.1, r)) <$> runs (normalise f.2)) <$> l).

Definition split (l : cell_layer) : option cell_layer :=
  Some (split_features l).

Definition cell_provider (faulty : list cell_layer → bool) : provider :=
  {| layer := cell_layer;
     gp_buffer := buffer;
     gp_select := select;
     gp_count := length;
     gp_intersect := intersect faulty;
     gp_merge := merge;
     gp_clip := clip;
     gp_dissolve := dissolve;
     gp_split := split;
     gp_auto_name := λ inp, inp +:+ "_Clip" |}.

Definition sound : provider := cell_provider (λ _, false).

(** An engine that cannot intersect when the first layer holds parks: of
    the 56 combinations only the last one starts with that category. *)
Definition parks_first (ls : list cell_layer) : bool :=
  match ls with
  | ((t, _) :: _) :: _ => bool_decide (t = "Parks, Zoos And Gardens")
  | _ => false
  end.

Definition flaky : provider := cell_provider parks_first.




(** Sample data: one or two facilities of each category. *)
Definition facilities : cell_layer :=
  [ ("Badminton Courts", [10]);
    ("Basketball Courts", [11]);
    ("Country Parks", [12]);
    ("Fitness Rooms", [30]);
    ("Other Recreation & Sports Facilities", [31]);
    ("Parks, Zoos And Gardens", [50]);
    ("Sports Grounds", [51]);
    ("Swimming Pools", [52]);
    ("Badminton Courts", [70]) ].

Definition hk_boundary : cell_layer := [("", seq 0 52)].

Definition world0 (faulty : list cell_layer → bool)
  : world (cell_provider faulty) :=
  World (cell_provider faulty)
    (<["facilities_list" := facilities]>
       (<["./Hong_Kong_18_Districts/HKDistrict18.shp" := hk_boundary]> ∅))
    true true ∅ [] [] "".
(** The world once the buffer stage has run. *)
Definition ready (faulty : list cell_layer → bool)
  : world (cell_provider faulty) :=
  (buffer_stage (cell_provider faulty) 500 "facilities_list"
     (world0 faulty)).2.

(** The same data with no swimming pool. *)
Definition world_no_pools (faulty : list cell_layer → bool)
  : world (cell_provider faulty) :=
  World (cell_provider faulty)
    (<["facilities_list" :=
         filter (λ f, f.1 ≠ "Swimming Pools") facilities]>
       (<["./Hong_Kong_18_Districts/HKDistrict18.shp" := hk_boundary]> ∅))
    true true ∅ [] [] "".
End Cells.

Definition is_intersect (c : gp_call) : bool :=
  match c with Intersect_analysis _ _ => true | _ => false end.

(** Does the call intersect the layer at [path]. *)
Definition intersects_layer (path : string) (c : gp_call) : bool :=
  match c with
  | Intersect_analysis inps _ => bool_decide (path ∈ inps)
  | _ => false
  end.

(** ** Notions the statements use *)

(** The binomial coefficient C(n,k), by Pascal's rule. *)
Fixpoint binomial (n k : nat) : nat :=
  match n, k with
  | _, 0 => 1
  | 0, S _ => 0
  | S n', S k' => binomial n' k' + binomial n' (S k')
  end.

(** The position of a category in the input ordering. *)
Fixpoint position (cats : list string) (x : string) : nat :=
  match cats with
  | [] => 0
  | y :: cats' => if decide (x = y) then 0 else S (position cats' x)
  end.

(** Strict lexicographic order on sequences of positions. *)
Fixpoint lex_ltb (a b : list nat) : bool :=
  match a, b with
  | _, [] => false
  | [], _ :: _ => true
  | x :: a', y :: b' => Nat.ltb x y || (Nat.eqb x y && lex_ltb a' b')
  end.

(** The first of [names] with no dataset in the world. *)
Fixpoint first_missing {P} (w : world P) (names : list string)
  : option string :=
  match names with
  | [] => None
  | n :: names' =>
      if bool_decide (is_Some (datasets w !! n)) then first_missing w names'
      else Some n
  end.

(** The datasets behind [names], when all exist. *)
Fixpoint layers_of {P} (w : world P) (names : list string)
  : option (list (layer P)) :=
  match names with
  | [] => Some []
  | n :: names' =>
      match datasets w !! n, layers_of w names' with
      | Some l, Some ls => Some (l :: ls)
      | _, _ => None
      end
  end.

(** What a failed Intersect leaves on the terminal. *)
Definition intersect_warning (index : nat) (msg : string) : list string :=
  [msg; "Warning: " +:+ out_name_of index +:+ " is ignored"].

(** Worlds that differ only in the order of the printed lines and of the
    recorded engine calls. *)
Definition world_equiv {P} (w1 w2 : world P) : Prop :=
  datasets w1 = datasets w2 ∧ shape_dir w1 = shape_dir w2
  ∧ csv_dir w1 = csv_dir w2 ∧ csv_files w1 = csv_files w2
  ∧ gp_messages w1 = gp_messages w2
  ∧ stdout w1 ≡ₚ stdout w2 ∧ gp_calls w1 ≡ₚ gp_calls w2.

(** What the worker of task [t] returns and does, read off the category
    layers and the scratch directory of the world [w0] the pool started in. *)
Definition worker_result {P} (w0 : world P) (t : nat * list string)
  : result string :=
  match first_missing w0 (fac_type_path <$> t.2) with
  | Some name => Raise (AssertionError name)
  | None => Ok (out_name_of t.1)
  end.

Definition worker_step {P} (w0 : world P) (t : nat * list string)
    (w : world P) : world P :=
  match layers_of w0 (fac_type_path <$> t.2) with
  | None => w
  | Some ls =>
      let w1 :=
        add_call P (Intersect_analysis (fac_type_path <$> t.2)
                      (out_name_of t.1)) w in
      match gp_intersect P ls with
      | Some x =>
          if shape_dir w0
          then set_datasets P (insert (out_name_of t.1) x) w1
          else foldl (λ w l, add_stdout P l w) w1
                 (intersect_warning t.1
                    ("ERROR 000210: cannot create output "
                     +:+ out_name_of t.1))
      | None =>
          foldl (λ w l, add_stdout P l w) w1
            (intersect_warning t.1 "ERROR 999999: Intersect failed")
      end
  end.

(** The worlds a worker may meet while the pool runs: the scratch directory
    and the category layers are as in [w0]. *)
Definition layers_agree {P} (w w0 : world P) : Prop :=
  shape_dir w = shape_dir w0
  ∧ ∀ fac_type,
      datasets w !! fac_type_path fac_type
      = datasets w0 !! fac_type_path fac_type.

(** Decimal digits. *)
Definition is_digit (c : ascii) : bool :=
  bool_decide (c ∈ ["0"; "1"; "2"; "3"; "4"; "5"; "6"; "7"; "8"; "9"]%char).

Definition lex_lt (a b : list nat) : Prop := lex_ltb a b = true.

(** The pool's bookkeeping, with the workers replaced by their effect. *)
Definition finished_after (P : provider) (w0 : world P) (tasks : list (nat * list string))
    (completion : list nat) (finished : gmap nat (result string))
  : gmap nat (result string) :=
  foldl (λ fin i, match tasks !! i with
                  | Some t => <[i := worker_result w0 t]> fin
                  | None => fin
                  end) finished completion.

Definition world_after (P : provider) (w0 : world P) (tasks : list (nat * list string))
    (completion : list nat) (w : world P) : world P :=
  foldl (λ w i, match tasks !! i with
                | Some t => worker_step w0 t w
                | None => w
                end) w completion.

(** [m] gives equal results on equivalent worlds, and equivalent worlds. *)
Definition respects {P : provider} {A} (m : M P A) : Prop :=
  ∀ w1 w2, world_equiv w1 w2 →
    (m w1).1 = (m w2).1 ∧ world_equiv (m w1).2 (m w2).2.

(** [m] keeps the calls recorded so far and may add some. *)
Definition extends_calls {P : provider} {A} (m : M P A) : Prop :=
  ∀ w, ∃ rest, gp_calls (m w).2 = gp_calls w ++ rest.


(** The datasets once the merged layer is written, the clip has run and
    the scratch directory is gone. *)
Definition after_cleanup {P : provider} (w : world P) (m c : layer P)
  : gmap string (layer P) :=
  filter (λ kv, in_shape_dir kv.1 = false)
    (<[gp_auto_name P "ThreeTypeIntersect" := c]>
       (<["ThreeTypeIntersect" := m]> (datasets w))).

(** Consecutive entries of [l] are linked by [advance]. *)
Definition chain (n r : nat) (l : list (list nat)) : Prop :=
  ∀ i x y, l !! i = Some x → l !! S i = Some y → advance n r x = Some y.

(** The characters of a string, in order. *)
Definition chars (s : string) : list ascii := list_ascii_of_string s.

(** The characters [replace_special_chars] acts on. *)
Definition special_char (c : ascii) : bool :=
  bool_decide (c ∈ [" "; "&"; ","]%char).

(** What one character of a name turns into. *)
Definition sanitize_char (c : ascii) : string :=
  if decide (c = " "%char) then "_"
  else if decide (c = "&"%char) then "and"
  else if decide (c = ","%char) then ""
  else String c "".

(** Every character replaced by its image under [f]. *)
Fixpoint substitute (f : ascii → string) (s : string) : string :=
  match s with
  | EmptyString => EmptyString
  | String c s' => f c +:+ substitute f s'
  end.

(** A folder path to which [os.path.join] appends a relative file name as
    it is: empty, or ending in the separator. *)
Definition joins_directly (folder : string) : Prop :=
  folder = "" ∨ ∃ s, folder = s +:+ "/".

(** The file at [path] has a header line and data lines that convert to
    the records [t], line by line. *)
Definition file_holds {P F} (float_of_string : string → option F)
    (w : world P) (path : string) (t : list (SportFacility F)) : Prop :=
  ∃ header rows,
    csv_files w !! path = Some (header :: rows)
    ∧ Forall2 (λ row fac, from_csv_row float_of_string row = Ok fac) rows t.

(** A number parser for the samples: unsigned decimal numerals. *)
Definition sample_float (s : string) : option string :=
  if forallb is_digit (chars s) && negb (bool_decide (s = ""))
  then Some s else None.

(** A CSV folder whose first file has two data lines and whose other
    files have the header only. *)
Definition sample_csv_files : gmap string (list (list string)) :=
  <["./csv_data/Badminton_court.csv" :=
      [ ["GMID"; "Dataset"; "Facility Name"; "Address"; "District";
         "Northing"; "Easting"; "Latitude"; "Longitude"];
        ["a1"; "Badminton Courts"; "Hall A"; "1 Road"; "N.A.";
         "818630"; "836500"; "22"; "114"];
        ["a2"; "Badminton Courts"; "Hall B"; ""; "Kowloon City";
         "818940"; "836861"; "22"; "114"; "note"] ]]>
    (list_to_map ((λ f, ("./csv_data/" +:+ f, [["GMID"; "Dataset"]]))
                    <$> FileNames)).

Definition sample_csv_world (P : provider) (datasets : gmap string (layer P))
  : world P :=
  World P datasets true true sample_csv_files [] [] "".

(** The exceptions reading the CSV files can end in. *)
Definition is_read_error (e : exn) : Prop :=
  match e with
  | FileNotFoundError _ | StopIteration | IndexError | ValueError _ => True
  | _ => False
  end.

(** The two lines [make_fac_type_layer] prints for a category whose
    selection holds [count] features. *)
Definition layer_lines (facility_type : string) (count : nat) : list string :=
  [ "Selected " +:+ str_of_nat count
      +:+ " features for Facility_Type = '" +:+ facility_type +:+ "'";
    "Created layer " +:+ replace_special_chars facility_type +:+ "_Layer" ].

(** The three engine calls of [make_fac_type_layer]. *)
Definition layer_calls (feature_class facility_type : string)
  : list gp_call :=
  [ SelectLayerByAttribute feature_class
      ("Facility_Type = '" +:+ facility_type +:+ "'");
    GetCount_management;
    CopyFeatures_management (fac_type_path facility_type) ].

(** A computation that leaves the scratch directory as it is and can only
    fail with an engine error, the engine's messages then being the text of
    that error. *)
Definition engine_step {P : provider} {A} (m : M P A) : Prop :=
  ∀ w, match m w with
       | (Ok _, w') => shape_dir w' = shape_dir w
       | (Raise e, w') => ∃ msg, e = ExecuteError msg ∧ gp_messages w' = msg
       end.

(** What the worker of task [t] writes under its output name, read off the
    world [w0] the pool started in. *)
Definition worker_output {P} (w0 : world P) (t : nat * list string)
  : option (layer P) :=
  ls ← layers_of w0 (fac_type_path <$> t.2);
  x ← gp_intersect P ls;
  if shape_dir w0 then Some x else None.

(** An engine none of whose tools fails (Intersect and Merge on at least
    one input). *)
Definition never_fails (P : provider) : Prop :=
  (∀ l r, is_Some (gp_buffer P l r))
  ∧ (∀ l q, is_Some (gp_select P l q))
  ∧ (∀ ls, ls ≠ [] → is_Some (gp_intersect P ls))
  ∧ (∀ ls, ls ≠ [] → is_Some (gp_merge P ls))
  ∧ (∀ l c, is_Some (gp_clip P l c))
  ∧ (∀ l, is_Some (gp_dissolve P l))
  ∧ (∀ l, is_Some (gp_split P l)).

(** [m], run in [w], ends normally or in an engine error whose text is
    then the engine's message buffer. *)
Definition fails_in_engine {P : provider} {A} (m : M P A) (w : world P)
  : Prop :=
  match m w with
  | (Ok _, _) => True
  | (Raise e, w') => ∃ msg, e = ExecuteError msg ∧ gp_messages w' = msg
  end.

(** ** task2.py: the reports of [FacilityFeature] *)

(** The text attributes of a facility record, the ones
    [count_facility_by_x] is called with ([getattr(fac, attr)]). *)
Inductive text_field : Type := Gmid | Dataset | FacName | Addr | District.

Definition field_name (attr : text_field) : string :=
  match attr with
  | Gmid => "gmid"
  | Dataset => "dataset"
  | FacName => "fac_name"
  | Addr => "addr"
  | District => "district"
  end.

(** [str(v)] for an attribute that is a string or [None]. *)
Definition value_str (v : option string) : string := default "None" v.

(** [collections.Counter]: a dictionary from values to counts, in
    insertion order.  Counting an element adds one to its entry or appends
    a new entry. *)
Fixpoint counter_add {K} `{!EqDecision K} (x : K) (c : list (K * nat))
  : list (K * nat) :=
  match c with
  | [] => [(x, 1)]
  | (y, n) :: c' =>
      if decide (x = y) then (y, S n) :: c' else (y, n) :: counter_add x c'
  end.

(** [list(Counter(xs).items())] *)
Definition Counter {K} `{!EqDecision K} (xs : list K) : list (K * nat) :=
  foldl (λ c x, counter_add x c) [] xs.

(** [counts.sort(key=lambda tup: tup[1], reverse=True)]: a stable sort,
    larger counts first; entries with equal counts keep their order. *)
Fixpoint insert_by_count {K} (x : K * nat) (l : list (K * nat))
  : list (K * nat) :=
  match l with
  | [] => [x]
  | y :: l' =>
      if decide (x.2 < y.2)%nat then y :: insert_by_count x l' else x :: y :: l'
  end.

Definition sort_by_count {K} (l : list (K * nat)) : list (K * nat) :=
  foldr insert_by_count [] l.

(** [arcpy.PointGeometry(arcpy.Point(X, Y, ID), HK1980GRID)] *)
Record PointGeometry (F : Type) : Type := mkPointGeometry {
  point_X : F;
  point_Y : F;
  point_ID : nat
}.
Arguments mkPointGeometry {F} _ _ _.

(** [l[i] = v] on a Python list, for an index [i >= 0]. *)
Definition setitem {A} (l : list A) (i : nat) (v : A) : result (list A) :=
  if decide (i < length l) then Ok (<[i := v]> l) else Raise IndexError.

Section Task2.
Context (P : provider) {F : Type}.

Record FacilityFeature : Type := mkFacilityFeature {
  workspace : string;
  fac_list : list (SportFacility F);
  feature_name : string
}.

Definition getattr (fac : SportFacility F) (attr : text_field)
  : option string :=
  match attr with
  | Gmid => Some (gmid fac)
  | Dataset => Some (dataset fac)
  | FacName => Some (fac_name fac)
  | Addr => addr fac
  | District => district fac
  end.

Definition count_line (entry : option string * nat) : string :=
  value_str entry.1 +:+ ": " +:+ str_of_nat entry.2.

Definition count_facility_by_x (self : FacilityFeature) (attr : text_field)
  : M P unit :=
  print P ("Here are the facilities count by " +:+ field_name attr +:+ ":") ;;
  let counts := Counter ((λ fac, getattr fac attr) <$> fac_list self) in
  let counts := sort_by_count counts in
  for_each P counts (λ entry, print P (count_line entry)) ;;
  print P "".

Definition count_facility_by_district (self : FacilityFeature) : M P unit :=
  count_facility_by_x self District.

Definition count_facility_by_dataset (self : FacilityFeature) : M P unit :=
  count_facility_by_x self Dataset.

(** The loop of [point_to_feature_class] over [enumerate(self.fac_list)],
    which stores each point at its index in the list allocated before. *)
Fixpoint fill_points (items : list (nat * SportFacility F))
    (crs_point_geom : list (option (PointGeometry F)))
  : result (list (option (PointGeometry F))) :=
  match items with
  | [] => Ok crs_point_geom
  | (index, facility) :: rest =>
      let geom := mkPointGeometry (easting facility) (northing facility)
                    index in
      crs_point_geom' ← setitem crs_point_geom index (Some geom);
      fill_points rest crs_point_geom'
  end.

(** Lines 41-48: [[None] * len(self.fac_list)], then the loop. *)
Definition point_geometries (self : FacilityFeature)
  : result (list (option (PointGeometry F))) :=
  fill_points (enumerate (fac_list self))
    (replicate (length (fac_list self)) None).
End Task2.

Arguments FacilityFeature F : clear implicits.
Arguments mkFacilityFeature {F} _ _ _.
Arguments workspace {F} _.
Arguments fac_list {F} _.
Arguments feature_name {F} _.

(** The distinct elements of [xs], each at its first occurrence. *)
Definition first_occurrences {K} `{!EqDecision K} (xs : list K) : list K :=
  reverse (remove_dups (reverse xs)).

(** The count a counter holds for [y], 0 when it has no entry. *)
Definition count_in {K} `{!EqDecision K} (c : list (K * nat)) (y : K) : nat :=
  sum_list (snd <$> filter (λ p, p.1 = y) c).

(** How often [x] occurs in [xs]. *)
Definition occurrences {K} `{!EqDecision K} (x : K) (xs : list K) : nat :=
  length (filter (λ y, y = x) xs).

(** A facility list for the samples. *)
Definition sample_facilities : list (SportFacility string) :=
  [ mkSportFacility "a1" "Badminton Courts" "Hall A" (Some "1 Road")
      (Some "Sha Tin") "818630" "836500" "22" "114";
    mkSportFacility "b1" "Swimming Pools" "Pool A" None
      (Some "Kowloon City") "818940" "836861" "22" "114";
    mkSportFacility "b2" "Swimming Pools" "Pool B" None
      None "818941" "836862" "22" "114";
    mkSportFacility "c1" "Country Parks" "Park A" None
      (Some "Kowloon City") "818950" "836870" "22" "114" ].

(** ** bonus1.py: facilities near a point, by type *)

(** [s.replace(old, new)] for a non-empty [old]: the occurrences of [old]
    are replaced from left to right, without overlap.  [skip] counts the
    characters of an occurrence that are still to be dropped. *)
Fixpoint str_replace_from (old new : string) (skip : nat) (s : string)
  : string :=
  match s with
  | "" => ""
  | String c s' =>
      match skip with
      | S k => str_replace_from old new k s'
      | O =>
          if String.prefix old s
          then new +:+ str_replace_from old new (String.length old - 1) s'
          else String c (str_replace_from old new 0 s')
      end
  end.

Definition str_replace_sub (old new s : string) : string :=
  str_replace_from old new 0 s.

(** A Python [dict] with string keys: the items in insertion order. *)
Definition dict (V : Type) : Type := list (string * V).

(** [d.get(k)]; [k in d] is [is_Some (dict_get k d)]. *)
Fixpoint dict_get {V} (k : string) (d : dict V) : option V :=
  match d with
  | [] => None
  | (k', v) :: d' => if decide (k = k') then Some v else dict_get k d'
  end.

(** [d[k] = v]: an existing key keeps its place, a new one goes last. *)
Fixpoint dict_set {V} (k : string) (v : V) (d : dict V) : dict V :=
  match d with
  | [] => [(k, v)]
  | (k', v') :: d' =>
      if decide (k = k') then (k', v) :: d' else (k', v') :: dict_set k v d'
  end.

(** The class [[a-zA-Z0-9]] of the pattern in [main]. *)
Definition is_alnum (c : ascii) : bool :=
  let n := nat_of_ascii c in
  (((48 <=? n) && (n <=? 57)) || ((65 <=? n) && (n <=? 90))
   || ((97 <=? n) && (n <=? 122)))%nat.

(** [re.sub(r'[^a-zA-Z0-9]+', '_', s)]: every maximal run of characters
    outside the class is replaced by one underscore.  [in_run] tells that
    the character before belongs to a run that has been replaced already. *)
Fixpoint re_sub_runs (in_run : bool) (s : string) : string :=
  match s with
  | "" => ""
  | String c s' =>
      if is_alnum c then String c (re_sub_runs false s')
      else if in_run then re_sub_runs true s'
      else String "_" (re_sub_runs true s')
  end.

Definition fc_name_clean (facility_type : string) : string :=
  re_sub_runs false facility_type.

Definition output_fc_name (facility_type : string) : string :=
  fc_name_clean facility_type +:+ "_Near_PolyU".

Section Bonus1.
(** [geodesic(a, b).kilometers] of geopy, which raises on coordinates it
    does not accept, the comparison [<=] on floats and [str.title]. *)
Context {F : Type}.
Variable geodesic_km : F * F → F * F → result F.
Variable float_le : F → F → bool.
Variable title : string → string.

Definition facility_type_of (facility : SportFacility F) : string :=
  title (str_replace "_" " " (str_replace_sub ".csv" "" (dataset facility))).

(** One round of the loop of [filter_facilities_by_type_and_distance]. *)
Definition filter_step (lat0 lon0 distance_km : F)
    (facility : SportFacility F) (filtered_by_type : dict (list (SportFacility F)))
  : result (dict (list (SportFacility F))) :=
  let facility_coords := (lat facility, lon facility) in
  let polyu_coords := (lat0, lon0) in
  distance ← geodesic_km facility_coords polyu_coords;
  if float_le distance distance_km then
    let facility_type := facility_type_of facility in
    let filtered_by_type :=
      match dict_get facility_type filtered_by_type with
      | None => dict_set facility_type [] filtered_by_type
      | Some _ => filtered_by_type
      end in
    match dict_get facility_type filtered_by_type with
    | Some group =>
        Ok (dict_set facility_type (group ++ [facility]) filtered_by_type)
    | None => Raise (OtherException "KeyError")
    end
  else Ok filtered_by_type.

Fixpoint filter_loop (lat0 lon0 distance_km : F)
    (sports_data : list (SportFacility F))
    (filtered_by_type : dict (list (SportFacility F)))
  : result (dict (list (SportFacility F))) :=
  match sports_data with
  | [] => Ok filtered_by_type
  | facility :: rest =>
      filtered_by_type ← filter_step lat0 lon0 distance_km facility
                           filtered_by_type;
      filter_loop lat0 lon0 distance_km rest filtered_by_type
  end.

Definition filter_facilities_by_type_and_distance
    (sports_data : list (SportFacility F)) (lat0 lon0 distance_km : F)
  : result (dict (list (SportFacility F))) :=
  filter_loop lat0 lon0 distance_km sports_data [].

(** The facilities whose distance to the point is computed and is at most
    [distance_km]. *)
Definition within_distance (lat0 lon0 distance_km : F)
    (facility : SportFacility F) : bool :=
  match geodesic_km (lat facility, lon facility) (lat0, lon0) with
  | Ok distance => float_le distance distance_km
  | Raise _ => false
  end.

Definition distance_defined (lat0 lon0 : F) (facility : SportFacility F)
  : Prop :=
  ∃ distance,
    geodesic_km (lat facility, lon facility) (lat0, lon0) = Ok distance.
End Bonus1.

(** The elements of [xs] grouped by [key]: one item per key, the keys in
    the order of their first occurrence, each with its elements in the
    order of [xs]. *)
Definition group_by {A} (key : A → string) (xs : list A) : dict (list A) :=
  (λ t, (t, filter (λ x, key x = t) xs)) <$> first_occurrences (key <$> xs).

(** [str.title] on ASCII text: the first letter of every run of letters in
    upper case, the others in lower case. *)
Definition is_upper (c : ascii) : bool :=
  let n := nat_of_ascii c in ((65 <=? n) && (n <=? 90))%nat.
Definition is_lower (c : ascii) : bool :=
  let n := nat_of_ascii c in ((97 <=? n) && (n <=? 122))%nat.
Definition to_upper (c : ascii) : ascii :=
  if is_lower c then ascii_of_nat (nat_of_ascii c - 32) else c.
Definition to_lower (c : ascii) : ascii :=
  if is_upper c then ascii_of_nat (nat_of_ascii c + 32) else c.

Fixpoint ascii_title_from (in_word : bool) (s : string) : string :=
  match s with
  | "" => ""
  | String c s' =>
      if is_upper c || is_lower c
      then String (if in_word then to_lower c else to_upper c)
             (ascii_title_from true s')
      else String c (ascii_title_from false s')
  end.

Definition ascii_title (s : string) : string := ascii_title_from false s.

(** A stand-in for the distance, on integer coordinates. *)
Definition sample_distance (a b : Z * Z) : result Z :=
  if decide (90 < Z.abs a.1 ∨ 90 < Z.abs b.1)%Z
  then Raise (ValueError "Latitude must be in the [-90; 90] range.")
  else Ok (Z.abs (a.1 - b.1) + Z.abs (a.2 - b.2))%Z.

Definition sample_sports_data : list (SportFacility Z) :=
  [ mkSportFacility "a1" "badminton_courts.csv" "Hall A" None None
      0%Z 0%Z 22%Z 114%Z;
    mkSportFacility "b1" "swimming_pools.csv" "Pool A" None None
      0%Z 0%Z 22%Z 115%Z;
    mkSportFacility "a2" "badminton_courts.csv" "Hall B" None None
      0%Z 0%Z 23%Z 114%Z;
    mkSportFacility "c1" "country_parks.csv" "Park A" None None
      0%Z 0%Z 40%Z 114%Z ].

(** * Properties *)

(** ** Strings *)

Lemma string_length_app (s t : string) :
  String.length (s +:+ t) = String.length s + String.length t.
Proof. induction s as [|c s IH]; simpl; [done | by rewrite IH]. Qed.

Lemma string_app_nil_l (t : string) : "" +:+ t = t.
Proof. reflexivity. Qed.

Lemma string_app_cons (c : ascii) (s t : string) :
  String c s +:+ t = String c (s +:+ t).
Proof. reflexivity. Qed.

(** Two concatenations with suffixes of one length agree part by part. *)
Lemma string_app_inj_suffix (s1 s2 t1 t2 : string) :
  String.length t1 = String.length t2 →
  s1 +:+ t1 = s2 +:+ t2 → s1 = s2 ∧ t1 = t2.
Proof.
  revert s2. induction s1 as [|c1 s1 IH]; intros [|c2 s2] Hlen Heq;
    rewrite ?string_app_nil_l, ?string_app_cons in Heq.
  - done.
  - subst t1. simpl in Hlen. rewrite string_length_app in Hlen. lia.
  - subst t2. simpl in Hlen. rewrite string_length_app in Hlen. lia.
  - injection Heq as -> Heq. destruct (IH _ Hlen Heq) as [-> ->]. done.
Qed.

Lemma string_app_assoc (s t u : string) : (s +:+ t) +:+ u = s +:+ (t +:+ u).
Proof.
  induction s as [|c s IH]; [done|].
  by rewrite !string_app_cons, IH.
Qed.

(** *** Decimal numerals end in a digit *)

Lemma pretty_N_char_digit (x : N) : is_digit (pretty_N_char x) = true.
Proof.
  unfold pretty_N_char. by repeat case_match.
Qed.

Lemma pretty_N_go_suffix (x : N) (s : string) :
  pretty_N_go x s = pretty_N_go x "" +:+ s.
Proof.
  revert s. induction (N.lt_wf_0 x) as [x _ IH]; intros s.
  destruct (decide (x = 0)%N) as [->|Hx].
  - by rewrite !pretty_N_go_0.
  - assert (0 < x)%N as Hpos by lia.
    rewrite !(pretty_N_go_step x) by done.
    assert (x `div` 10 < x)%N as Hlt by (by apply N.div_lt).
    rewrite (IH _ Hlt (String _ s)), (IH _ Hlt (String _ "")).
    by rewrite string_app_assoc.
Qed.

Lemma str_of_nat_last_digit (n : nat) :
  ∃ s d, str_of_nat n = s +:+ String d "" ∧ is_digit d = true.
Proof.
  unfold str_of_nat, pretty, pretty_nat, pretty, pretty_N.
  case_decide as Hn.
  - by exists "", "0"%char.
  - assert (0 < N.of_nat n)%N as Hpos by lia.
    rewrite pretty_N_go_step by done. rewrite pretty_N_go_suffix.
    eexists _, _. split; [done | apply pretty_N_char_digit].
Qed.

Lemma str_of_nat_inj (i j : nat) : str_of_nat i = str_of_nat j → i = j.
Proof. apply pretty_nat_inj. Qed.

(** ** Artifact names *)

Lemma out_name_of_inj (i j : nat) : out_name_of i = out_name_of j → i = j.
Proof.
  unfold out_name_of. intros H.
  apply (inj (String.app _)) in H.
  apply string_app_inj_suffix in H as [H _]; [|done].
  by apply str_of_nat_inj.
Qed.

(** A per-combination output is never the layer of a category, whatever the
    category label. *)
Lemma out_name_of_not_layer (i : nat) (fac_type : string) :
  out_name_of i ≠ fac_type_path fac_type.
Proof.
  unfold out_name_of, fac_type_path. intros H.
  destruct (str_of_nat_last_digit i) as (s & d & Hs & Hd). rewrite Hs in H.
  change "_Layer.shp" with ("_Laye" +:+ (String "r" "" +:+ ".shp")) in H.
  rewrite <- !string_app_assoc in H.
  apply string_app_inj_suffix in H as [H _]; [|done].
  apply string_app_inj_suffix in H as [_ H]; [|done].
  injection H as ->. by vm_compute in Hd.
Qed.

(** C8: during the parallel phase every writer has a name of its own.  Two
    distinct task indices give distinct per-combination output names; two
    distinct entries of the configured category list give distinct sanitized
    layer names (both the name [make_fac_type_layer] writes and the path
    [process_combination] reads); and no per-combination output name is the
    path of a category layer. *)
Theorem artifact_names_distinct :
  (∀ i j : nat, i ≠ j → out_name_of i ≠ out_name_of j)
  ∧ NoDup (map replace_special_chars FacilityTypes)
  ∧ NoDup (map fac_type_path FacilityTypes)
  ∧ (∀ (i : nat) (fac_type : string),
        out_name_of i ≠ fac_type_path fac_type).
Proof.
  split_and!.
  - intros i j Hij H. by apply Hij, out_name_of_inj.
  - apply (bool_decide_unpack _). by vm_compute.
  - apply (bool_decide_unpack _). by vm_compute.
  - apply out_name_of_not_layer.
Qed.

(** ** The decorator *)


(** ** Facility records *)

Lemma check_na_or_empty_spec (s : string) :
  (check_na_or_empty s None = None ↔ s = "" ∨ s = "N.A.")
  ∧ (check_na_or_empty s None ≠ None → check_na_or_empty s None = Some s).
Proof.
  unfold check_na_or_empty.
  destruct (decide (s = "")) as [->|H1]; [by split; [split; auto|]|].
  destruct (decide (s = "N.A.")) as [->|H2]; [by split; [split; auto|]|].
  rewrite !bool_decide_eq_false_2 by done. simpl.
  split; [split; [done | by intros [?|?]] | done].
Qed.

Lemma check_na_or_empty_unique (s : string) (a : option string) :
  (a = None ↔ s = "" ∨ s = "N.A.") → (a ≠ None → a = Some s) →
  check_na_or_empty s None = a.
Proof.
  intros Ha Ha'. destruct (check_na_or_empty_spec s) as [Hn Hn'].
  destruct a as [a|].
  - rewrite Ha' by done. apply Hn'. intros Hc. apply Hn, Ha in Hc. done.
  - apply Hn, Ha. done.
Qed.

(** C10: a row yields a record exactly when it has the nine columns and the
    last four parse as floats; then identifier, category and name are the
    first three columns, the address (resp. district) is [None] exactly when
    column 3 (resp. 4) is empty or "N.A." and is that column otherwise, and
    northing, easting, latitude and longitude are the parsed columns 5 to 8
    in that order. *)
Theorem from_csv_row_spec {F : Type} (float_of_string : string → option F)
    (csv_row : list string) (r : SportFacility F) :
  from_csv_row float_of_string csv_row = Ok r ↔
  ∃ c0 c1 c2 c3 c4 c5 c6 c7 c8,
    csv_row !! 0 = Some c0 ∧ csv_row !! 1 = Some c1 ∧ csv_row !! 2 = Some c2
    ∧ csv_row !! 3 = Some c3 ∧ csv_row !! 4 = Some c4 ∧ csv_row !! 5 = Some c5
    ∧ csv_row !! 6 = Some c6 ∧ csv_row !! 7 = Some c7 ∧ csv_row !! 8 = Some c8
    ∧ gmid r = c0 ∧ dataset r = c1 ∧ fac_name r = c2
    ∧ (addr r = None ↔ c3 = "" ∨ c3 = "N.A.")
    ∧ (addr r ≠ None → addr r = Some c3)
    ∧ (district r = None ↔ c4 = "" ∨ c4 = "N.A.")
    ∧ (district r ≠ None → district r = Some c4)
    ∧ float_of_string c5 = Some (northing r)
    ∧ float_of_string c6 = Some (easting r)
    ∧ float_of_string c7 = Some (lat r)
    ∧ float_of_string c8 = Some (lon r).
Proof.
  unfold from_csv_row, getitem, float. split.
  - intros H.
    repeat (match type of H with
            | context [csv_row !! ?i] =>
                destruct (csv_row !! i) eqn:?; simpl in H; [|discriminate]
            | context [float_of_string ?s] =>
                destruct (float_of_string s) eqn:?; simpl in H; [|discriminate]
            end).
    injection H as <-. simpl.
    do 9 eexists. split_and!; try done; apply check_na_or_empty_spec.
  - intros (c0&c1&c2&c3&c4&c5&c6&c7&c8&H0&H1&H2&H3&H4&H5&H6&H7&H8
            &G0&G1&G2&Ga&Ga'&Gd&Gd'&Gn&Ge&Gla&Glo).
    rewrite H0, H1, H2, H3, H4, H5, H6, H7, H8. simpl.
    rewrite Gn, Ge, Gla, Glo. simpl. f_equal.
    destruct r as [g ds fn a d n e la lo]; simpl in *. subst.
    f_equal; by apply check_na_or_empty_unique.
Qed.

(** ** Combinations *)

Section Combinations.
Context {A : Type}.
Implicit Types (l c : list A) (k : nat).

Lemma combinations_length l k :
  length (combinations l k) = binomial (length l) k.
Proof.
  revert k. induction l as [|x l IH]; intros [|k]; simpl; try done.
  by rewrite length_app, length_fmap, !IH.
Qed.

(** Membership: exactly the subsequences of length [k]. *)
Lemma elem_of_combinations l k c :
  c ∈ combinations l k ↔ c `sublist_of` l ∧ length c = k.
Proof.
  revert k c. induction l as [|x l IH]; intros [|k] c; simpl.
  - rewrite list_elem_of_singleton, sublist_nil_r.
    split; [by intros -> | by intros [-> _]].
  - rewrite elem_of_nil, sublist_nil_r. split; [done | by intros [-> ?]].
  - rewrite list_elem_of_singleton. split.
    + intros ->. split; [apply sublist_nil_l | done].
    + intros [_ Hlen]. by destruct c.
  - rewrite elem_of_app, list_elem_of_fmap, sublist_cons_r. split.
    + intros [(c' & -> & Hc')|Hc].
      * apply IH in Hc' as [Hsub <-]. split; [right; eauto | done].
      * apply IH in Hc as [Hsub Hlen]. split; [by left | done].
    + intros [[Hsub|(c' & -> & Hsub)] Hlen].
      * right. by apply IH.
      * left. exists c'. split; [done|]. apply IH. simpl in Hlen.
        split; [done | lia].
Qed.

Lemma combinations_NoDup l k : NoDup l → NoDup (combinations l k).
Proof.
  revert k. induction l as [|x l IH]; intros [|k] Hnd; simpl.
  - apply NoDup_singleton.
  - apply NoDup_nil_2.
  - apply NoDup_singleton.
  - apply NoDup_cons in Hnd as [Hx Hnd]. apply NoDup_app. split_and!.
    + apply NoDup_fmap_2; [|by apply IH]. by intros ?? [=].
    + intros c (c' & -> & _)%list_elem_of_fmap Hc.
      apply elem_of_combinations in Hc as [Hsub _].
      apply Hx. eapply sublist_subseteq; [done|]. left.
    + by apply IH.
Qed.

(** Over a duplicate-free list a subsequence is determined by the set of
    its elements. *)
Lemma sublist_Permutation_eq l c1 c2 :
  NoDup l → c1 `sublist_of` l → c2 `sublist_of` l → c1 ≡ₚ c2 → c1 = c2.
Proof.
  revert c1 c2. induction l as [|x l IH]; intros c1 c2 Hnd H1 H2 Hp.
  - apply sublist_nil_r in H1, H2. by subst.
  - apply NoDup_cons in Hnd as [Hx Hnd].
    apply sublist_cons_r in H1 as [H1|(c1' & -> & H1)];
      apply sublist_cons_r in H2 as [H2|(c2' & -> & H2)].
    + by apply IH.
    + exfalso. apply Hx. eapply sublist_subseteq; [exact H1|].
      rewrite Hp. left.
    + exfalso. apply Hx. eapply sublist_subseteq; [exact H2|].
      rewrite <- Hp. left.
    + f_equal. apply IH; try done. by apply Permutation_cons_inv in Hp.
Qed.

(** Every duplicate-free selection of [k] elements of [l] is listed, in
    the order of [l]. *)
Lemma combinations_complete `{!EqDecision A} l k c :
  NoDup l → NoDup c → length c = k → c ⊆ l →
  ∃ c', c' ∈ combinations l k ∧ c' ≡ₚ c.
Proof.
  intros Hl Hc Hlen Hsub.
  assert (filter (λ x, x ∈ c) l ≡ₚ c) as Hp.
  { apply NoDup_Permutation; [by apply NoDup_filter | done |].
    intros x. rewrite list_elem_of_filter.
    split; [by intros [? _] | intros ?; split; [done | by apply Hsub]]. }
  exists (filter (λ x, x ∈ c) l). split; [|done].
  apply elem_of_combinations. split; [apply sublist_filter|].
  by rewrite Hp.
Qed.

Lemma combinations_fmap {B} (f : A → B) l k :
  combinations (f <$> l) k = (λ c, f <$> c) <$> combinations l k.
Proof.
  revert k. induction l as [|x l IH]; intros [|k]; simpl; try done.
  rewrite fmap_app, !IH, <- !list_fmap_compose. done.
Qed.
End Combinations.

Lemma binomial_gt (n k : nat) : n < k → binomial n k = 0.
Proof.
  revert k. induction n as [|n IH]; intros [|k] H; simpl; try lia.
  rewrite !IH by lia. done.
Qed.

Lemma binomial_0_r (n : nat) : binomial n 0 = 1.
Proof. by destruct n. Qed.

Lemma fact_S (n : nat) : fact (S n) = S n * fact n.
Proof. reflexivity. Qed.

(** [binomial] is the usual coefficient: C(n,k) * k! * (n-k)! = n!. *)
Lemma binomial_fact (n k : nat) :
  (k ≤ n)%nat → binomial n k * (fact k * fact (n - k)) = fact n.
Proof.
  revert k. induction n as [|n IH]; intros k H.
  { assert (k = 0) as -> by lia. reflexivity. }
  destruct k as [|k].
  { rewrite binomial_0_r, Nat.sub_0_r. change (fact 0) with 1. lia. }
  change (binomial (S n) (S k)) with (binomial n k + binomial n (S k)).
  change (S n - S k) with (n - k). rewrite !fact_S.
  destruct (decide (k = n)) as [->|Hkn].
  - rewrite (binomial_gt n (S n)) by lia. specialize (IH n ltac:(lia)).
    rewrite Nat.sub_diag in *. change (fact 0) with 1 in *.
    generalize dependent (binomial n n). generalize (fact n). intros; nia.
  - pose proof (IH k ltac:(lia)) as IH1.
    pose proof (IH (S k) ltac:(lia)) as IH2.
    replace (n - k) with (S (n - S k)) in * by lia.
    rewrite !fact_S in *.
    assert (S n = S k + S (n - S k)) as -> by lia.
    generalize dependent (binomial n k).
    generalize dependent (binomial n (S k)).
    generalize (fact k) (fact (n - S k)) (fact n) (S k) (S (n - S k)).
    intros; nia.
Qed.

(** ** Enumeration order *)

Lemma lex_lt_cons (x : nat) (a b : list nat) :
  lex_lt a b → lex_lt (x :: a) (x :: b).
Proof.
  unfold lex_lt. simpl. intros ->.
  by rewrite Nat.eqb_refl, orb_true_r.
Qed.

Lemma lex_lt_head (x y : nat) (a b : list nat) :
  x < y → lex_lt (x :: a) (y :: b).
Proof.
  unfold lex_lt. simpl. intros H.
  apply Nat.ltb_lt in H. by rewrite H.
Qed.

Lemma StronglySorted_lookup_lt {A} (R : relation A) (l : list A) i j a b :
  StronglySorted R l → i < j → l !! i = Some a → l !! j = Some b → R a b.
Proof.
  intros Hs. revert i j. induction Hs as [|x l Hs IH Hx]; intros i j Hij Hi Hj.
  - done.
  - destruct j as [|j]; [lia|]. destruct i as [|i]; simpl in *.
    + injection Hi as <-. rewrite Forall_forall in Hx.
      apply Hx. by eapply list_elem_of_lookup_2.
    + apply (IH i j); [lia | done | done].
Qed.

(** Over increasing positions the combinations come out in strictly
    increasing lexicographic order. *)
Lemma combinations_lex_sorted (l : list nat) (k : nat) :
  StronglySorted lt l → StronglySorted lex_lt (combinations l k).
Proof.
  intros Hs. revert k. induction Hs as [|x l Hs IH Hx]; intros [|k]; simpl.
  - repeat constructor.
  - constructor.
  - repeat constructor.
  - apply StronglySorted_app_2.
    + intros a b (a' & -> & _)%list_elem_of_fmap Hb.
      apply elem_of_combinations in Hb as [Hsub Hlen].
      destruct b as [|y b]; [done|].
      apply lex_lt_head. rewrite Forall_forall in Hx. apply Hx.
      eapply sublist_subseteq; [done|]. left.
    + specialize (IH k). clear -IH.
      induction IH as [|a cs _ IH' Ha]; simpl; constructor; [done|].
      rewrite Forall_fmap. eapply Forall_impl; [done|].
      intros b Hb. by apply lex_lt_cons.
    + apply IH.
Qed.

Lemma seq_StronglySorted (j n : nat) : StronglySorted lt (seq j n).
Proof.
  revert j. induction n as [|n IH]; intros j; simpl; constructor; [done|].
  apply Forall_seq. intros; lia.
Qed.

Lemma position_fmap (cats : list string) :
  NoDup cats → position cats <$> cats = seq 0 (length cats).
Proof.
  induction 1 as [|x cats Hx Hnd IH]; simpl; [done|].
  rewrite decide_True by done. f_equal.
  rewrite <- fmap_S_seq, <- IH, <- list_fmap_compose.
  apply list_fmap_ext. intros i y Hy. simpl.
  rewrite decide_False; [done|]. intros ->.
  apply Hx. by eapply list_elem_of_lookup_2.
Qed.

Lemma enumerate_from_lookup {A} (start : nat) (xs : list A) (i : nat) :
  enumerate_from start xs !! i = (λ x, (start + i, x)) <$> xs !! i.
Proof.
  revert start i. induction xs as [|x xs IH]; intros start [|i]; simpl;
    try done.
  - by rewrite Nat.add_0_r.
  - rewrite IH. by replace (S start + i) with (start + S i) by lia.
Qed.

Lemma enumerate_from_length {A} (start : nat) (xs : list A) :
  length (enumerate_from start xs) = length xs.
Proof. revert start. induction xs; intros; simpl; [done | by f_equal]. Qed.

Lemma enumerate_lookup {A} (xs : list A) (i : nat) (t : nat * A) :
  enumerate xs !! i = Some t ↔ t.1 = i ∧ xs !! i = Some t.2.
Proof.
  unfold enumerate. rewrite enumerate_from_lookup. destruct t as [j x].
  destruct (xs !! i) as [y|]; simpl.
  - split; [by intros [= <- <-] | by intros [<- [= <-]]].
  - split; [done | by intros [_ ?]].
Qed.

(** C1: for a category list without repetitions and any threshold [k] (in
    particular 1 <= k <= N) the scheduler's task list has exactly C(N,k)
    tasks; the index of a task is its position in the list; every task is a
    [k]-element subset of the categories, kept in the input order; no two
    tasks are the same subset; every [k]-element subset is some task; and
    the tasks come in lexicographic order of the positions of their members
    in the input ordering. *)
Theorem combination_tasks_spec (cats : list string) (k : nat) :
  NoDup cats →
  let tasks := combination_tasks cats k in
  length tasks = binomial (length cats) k
  ∧ (∀ i t, tasks !! i = Some t → t.1 = i)
  ∧ (∀ t, t ∈ tasks →
       length t.2 = k ∧ NoDup t.2 ∧ t.2 `sublist_of` cats)
  ∧ (∀ i j s t, tasks !! i = Some s → tasks !! j = Some t →
       s.2 ≡ₚ t.2 → i = j)
  ∧ (∀ c, NoDup c → length c = k → c ⊆ cats →
       ∃ t, t ∈ tasks ∧ t.2 ≡ₚ c)
  ∧ (∀ i j s t, tasks !! i = Some s → tasks !! j = Some t → i < j →
       lex_ltb (position cats <$> s.2) (position cats <$> t.2) = true).
Proof.
  intros Hnd tasks. unfold tasks, combination_tasks. split_and!.
  - unfold enumerate. by rewrite enumerate_from_length, combinations_length.
  - intros i t Ht. by apply enumerate_lookup in Ht as [? _].
  - intros t (i & Ht)%list_elem_of_lookup_1.
    apply enumerate_lookup in Ht as [_ Ht].
    apply list_elem_of_lookup_2, elem_of_combinations in Ht as [Hsub Hlen].
    split_and!; [done | by eapply sublist_NoDup | done].
  - intros i j s t Hs Ht Hp.
    apply enumerate_lookup in Hs as [_ Hs], Ht as [_ Ht].
    pose proof (list_elem_of_lookup_2 _ _ _ Hs) as Hs'.
    pose proof (list_elem_of_lookup_2 _ _ _ Ht) as Ht'.
    apply elem_of_combinations in Hs' as [Hs' _], Ht' as [Ht' _].
    pose proof (sublist_Permutation_eq _ _ _ Hnd Hs' Ht' Hp) as Heq.
    rewrite <- Heq in Ht.
    by eapply NoDup_lookup; [apply (combinations_NoDup cats k)|..].
  - intros c Hc Hlen Hsub.
    destruct (combinations_complete cats k c) as (c' & Hc' & Hp); try done.
    apply list_elem_of_lookup_1 in Hc' as [i Hi].
    exists (i, c'). split; [|done].
    eapply list_elem_of_lookup_2, enumerate_lookup. done.
  - intros i j s t Hs Ht Hij.
    apply enumerate_lookup in Hs as [_ Hs], Ht as [_ Ht].
    apply (StronglySorted_lookup_lt lex_lt
             ((λ c : list string, position cats <$> c)
                <$> combinations cats k) i j);
      [|done|by rewrite list_lookup_fmap, Hs|by rewrite list_lookup_fmap, Ht].
    rewrite <- combinations_fmap, position_fmap by done.
    apply combinations_lex_sorted, seq_StronglySorted.
Qed.

Lemma FacilityTypes_NoDup : NoDup FacilityTypes.
Proof. apply (bool_decide_unpack _). by vm_compute. Qed.

Lemma combination_tasks_spec_witness :
  NoDup FacilityTypes ∧ length (combination_tasks FacilityTypes 3) = 56.
Proof.
  split; [exact FacilityTypes_NoDup|].
  exact (proj1 (combination_tasks_spec FacilityTypes 3 FacilityTypes_NoDup)).
Defined.

(** The example of the specification: four categories, threshold three. *)
Example combination_tasks_ABCD :
  combination_tasks ["A"; "B"; "C"; "D"] 3
  = [ (0, ["A"; "B"; "C"]); (1, ["A"; "B"; "D"]);
      (2, ["A"; "C"; "D"]); (3, ["B"; "C"; "D"]) ].
Proof. reflexivity. Qed.

(** ** Stepping through computations *)

Ltac munfold :=
  cbv beta iota zeta
      delta [mbind mret M_bind M_ret bind ret raise lift modify print call
             engine gp_fail try_except in_worker] in *.

Section WorldFacts.
Context (P : provider).
Implicit Types (w : world P).

Lemma bind_Ok {A B} (m : M P A) (k : A → M P B) w b w' :
  (m ≫= k) w = (Ok b, w') ↔ ∃ a w1, m w = (Ok a, w1) ∧ k a w1 = (Ok b, w').
Proof.
  munfold. destruct (m w) as [[a|e] w1].
  - split; [by eauto | by intros (? & ? & [= <- <-] & ?)].
  - split; [done | by intros (? & ? & [=] & _)].
Qed.

Lemma bind_Raise {A B} (m : M P A) (k : A → M P B) w e w1 :
  m w = (Raise e, w1) → (m ≫= k) w = (Raise e, w1).
Proof. munfold. by intros ->. Qed.

Lemma bind_step {A B} (m : M P A) (k : A → M P B) w a w1 :
  m w = (Ok a, w1) → (m ≫= k) w = k a w1.
Proof. munfold. by intros ->. Qed.

Lemma first_missing_None w names :
  first_missing w names = None → ∃ ls, layers_of w names = Some ls.
Proof.
  induction names as [|n names IH]; simpl; [by eauto|].
  case_bool_decide as Hn; [|done]. intros [ls Hls]%IH.
  destruct Hn as [l Hl]. rewrite Hl, Hls. eauto.
Qed.

Lemma layers_of_first_missing w names ls :
  layers_of w names = Some ls → first_missing w names = None.
Proof.
  revert ls. induction names as [|n names IH]; intros ls; simpl; [done|].
  destruct (datasets w !! n) eqn:Hn; [|done].
  destruct (layers_of w names) eqn:Hls; [|done]. intros _.
  rewrite bool_decide_eq_true_2 by eauto. eauto.
Qed.

Lemma layers_of_ext w1 w2 names :
  datasets w1 = datasets w2 → layers_of w1 names = layers_of w2 names.
Proof.
  intros H. induction names as [|n names IH]; simpl; [done|].
  by rewrite H, IH.
Qed.

Lemma first_missing_ext w1 w2 names :
  datasets w1 = datasets w2 → first_missing w1 names = first_missing w2 names.
Proof.
  intros H. induction names as [|n names IH]; simpl; [done|].
  by rewrite H, IH.
Qed.

Lemma read_datasets_Some w names ls :
  layers_of w names = Some ls → read_datasets P names w = (Ok ls, w).
Proof.
  revert ls. induction names as [|n names IH]; intros ls; simpl.
  - by intros [= <-].
  - destruct (datasets w !! n) eqn:Hn; [|done].
    destruct (layers_of w names) eqn:Hls; [|done]. intros [= <-].
    munfold. unfold read_dataset at 1. rewrite Hn.
    by rewrite (IH _ eq_refl).
Qed.

Lemma read_datasets_None w names :
  layers_of w names = None →
  ∃ msg, read_datasets P names w
         = (Raise (ExecuteError msg), set_messages P msg w).
Proof.
  induction names as [|n names IH]; simpl; [done|].
  munfold. unfold read_dataset at 1.
  destruct (datasets w !! n) eqn:Hn; [|by eauto].
  destruct (layers_of w names) eqn:Hls; [done|]. intros _.
  destruct (IH eq_refl) as [msg ->]. eauto.
Qed.

Lemma collect_layers_spec comb acc w :
  collect_layers P comb acc w =
    match first_missing w (fac_type_path <$> comb) with
    | Some name => (Raise (AssertionError name), w)
    | None => (Ok (acc ++ (fac_type_path <$> comb)), w)
    end.
Proof.
  revert acc. induction comb as [|t comb IH]; intros acc; simpl.
  - by rewrite app_nil_r.
  - munfold. unfold arcpy_Exists at 1.
    case_bool_decide; [|done]. rewrite IH.
    destruct (first_missing _ _); [done|]. by rewrite <- app_assoc.
Qed.

(** A worker whose member layers all exist returns its output path, whether
    or not the engine produced the output. *)
Lemma process_combination_ok index comb w ls :
  layers_of w (fac_type_path <$> comb) = Some ls →
  in_worker P (process_combination P index comb) w =
    (Ok (out_name_of index),
     let w1 :=
       add_call P (Intersect_analysis (fac_type_path <$> comb)
                     (out_name_of index)) w in
     match gp_intersect P ls with
     | Some x =>
         if shape_dir w
         then set_datasets P (insert (out_name_of index) x) w1
         else foldl (λ w l, add_stdout P l w) w1
                (intersect_warning index
                   ("ERROR 000210: cannot create output "
                    +:+ out_name_of index))
     | None =>
         foldl (λ w l, add_stdout P l w) w1
           (intersect_warning index "ERROR 999999: Intersect failed")
     end).
Proof.
  intros Hls. unfold process_combination, in_worker.
  munfold. rewrite collect_layers_spec.
  rewrite (layers_of_first_missing _ _ _ Hls). simpl.
  unfold arcpy_Intersect_analysis. munfold.
  erewrite read_datasets_Some; [|by erewrite layers_of_ext].
  destruct (gp_intersect P ls) as [x|]; simpl.
  - unfold write_dataset. simpl. munfold.
    destruct w as [ds [] cd cf so gc gm]; simpl; done.
  - destruct w; done.
Qed.

(** A worker with a missing member layer fails its assertion and touches
    nothing. *)
Lemma process_combination_missing index comb w name :
  first_missing w (fac_type_path <$> comb) = Some name →
  in_worker P (process_combination P index comb) w
  = (Raise (AssertionError name), w).
Proof.
  intros Hm. unfold process_combination, in_worker. munfold.
  rewrite collect_layers_spec, Hm. by destruct w.
Qed.
End WorldFacts.

(** ** The pool: outcomes do not depend on the completion order *)

Section Pool.
Context (P : provider).
Implicit Types (w : world P) (t : nat * list string).

#[global] Instance world_equiv_refl : Reflexive (@world_equiv P).
Proof. by intros w; repeat split. Qed.

#[global] Instance world_equiv_trans : Transitive (@world_equiv P).
Proof.
  intros w1 w2 w3 (?&?&?&?&?&?&?) (?&?&?&?&?&?&?).
  repeat split; by etrans.
Qed.

Lemma layers_agree_layers_of w w0 comb :
  layers_agree w w0 →
  layers_of w (fac_type_path <$> comb) = layers_of w0 (fac_type_path <$> comb).
Proof.
  intros [_ H]. induction comb as [|c comb IH]; csimpl; [done|].
  by rewrite H, IH.
Qed.

Lemma layers_agree_first_missing w w0 comb :
  layers_agree w w0 →
  first_missing w (fac_type_path <$> comb)
  = first_missing w0 (fac_type_path <$> comb).
Proof.
  intros [_ H]. induction comb as [|c comb IH]; csimpl; [done|].
  by rewrite H, IH.
Qed.

Lemma first_missing_layers_of w names :
  first_missing w names = None ↔ is_Some (layers_of w names).
Proof.
  split.
  - intros [ls ->]%first_missing_None. by eexists.
  - intros [ls Hls]. by eapply layers_of_first_missing.
Qed.

Lemma add_stdout_lines_datasets w lines :
  datasets (foldl (λ w l, add_stdout P l w) w lines) = datasets w
  ∧ shape_dir (foldl (λ w l, add_stdout P l w) w lines) = shape_dir w
  ∧ csv_dir (foldl (λ w l, add_stdout P l w) w lines) = csv_dir w
  ∧ csv_files (foldl (λ w l, add_stdout P l w) w lines) = csv_files w
  ∧ gp_messages (foldl (λ w l, add_stdout P l w) w lines) = gp_messages w
  ∧ gp_calls (foldl (λ w l, add_stdout P l w) w lines) = gp_calls w
  ∧ stdout (foldl (λ w l, add_stdout P l w) w lines) = stdout w ++ lines.
Proof.
  revert w. induction lines as [|l lines IH]; intros w; simpl.
  - by rewrite app_nil_r.
  - destruct (IH (add_stdout P l w)) as (->&->&->&->&->&->&->). simpl.
    by rewrite <- app_assoc.
Qed.

(** One worker, run in any world the pool can be in. *)
Lemma worker_run w0 w t :
  layers_agree w w0 →
  in_worker P (process_combination P t.1 t.2) w
  = (worker_result w0 t, worker_step w0 t w)
  ∧ layers_agree (worker_step w0 t w) w0.
Proof.
  intros Hag. unfold worker_result, worker_step.
  rewrite <- (layers_agree_first_missing w w0), <- (layers_agree_layers_of w w0)
    by done.
  destruct Hag as [Hdir Hag].
  destruct (first_missing w (fac_type_path <$> t.2)) as [name|] eqn:Hm.
  - rewrite (process_combination_missing _ _ _ _ _ Hm).
    destruct (layers_of w _) eqn:Hls; [|done].
    apply layers_of_first_missing in Hls. congruence.
  - destruct (first_missing_None _ _ _ Hm) as [ls Hls]. rewrite Hls.
    rewrite (process_combination_ok _ _ _ _ _ Hls). rewrite Hdir. split; [done|].
    unfold layers_agree.
    destruct (gp_intersect P ls) as [x|]; [destruct (shape_dir w0) eqn:Hd0|].
    + split; [by simpl|]. intros ft. simpl.
      rewrite lookup_insert_ne; [by apply Hag | apply out_name_of_not_layer].
    + pose proof (add_stdout_lines_datasets
        (add_call P (Intersect_analysis (fac_type_path <$> t.2)
                       (out_name_of t.1)) w)
        (intersect_warning t.1 ("ERROR 000210: cannot create output "
                                +:+ out_name_of t.1))) as (Hd&Hs&_).
      split; [by rewrite Hs | intros ft; by rewrite Hd].
    + pose proof (add_stdout_lines_datasets
        (add_call P (Intersect_analysis (fac_type_path <$> t.2)
                       (out_name_of t.1)) w)
        (intersect_warning t.1 "ERROR 999999: Intersect failed")) as (Hd&Hs&_).
      split; [by rewrite Hs | intros ft; by rewrite Hd].
Qed.

Lemma run_workers_spec w0 tasks completion finished w :
  layers_agree w w0 →
  run_workers P (λ t, process_combination P t.1 t.2) tasks completion
    finished w
  = (finished_after P w0 tasks completion finished,
     world_after P w0 tasks completion w).
Proof.
  revert finished w. induction completion as [|i completion IH];
    intros finished w Hag; simpl; [done|].
  destruct (tasks !! i) as [t|] eqn:Ht; [|by apply IH].
  destruct (worker_run w0 w t Hag) as [-> Hag']. by apply IH.
Qed.
End Pool.

(** ** Computations are blind to the order of the logs *)

Section Respects.
Context (P : provider).
Implicit Types (w : world P).













Lemma respects_exception_handler {X A} (f_name : string) (f : X → M P A)
    (args : X) :
  respects (f args) → respects (exception_handler P f_name f args).
Proof.
  intros Hf w1 w2 H. destruct (Hf w1 w2 H) as [Hr Hw].
  unfold exception_handler.
  destruct (f args w1) as [[a1|e1] w1'], (f args w2) as [[a2|e2] w2'];
    simpl in *; try done.
  injection Hr as ->. destruct Hw as (?&?&?&?&Hm&Hs&?).
  destruct (is_ExecuteError e2); [|destruct (is_Exception e2)];
    (split; [done|]); repeat split; simpl; try done.
  - by rewrite Hs, Hm.
  - by rewrite Hs.
Qed.


End Respects.

(** ** The pool under a permuted completion order *)

Section PoolOrder.
Context (P : provider).
Context (w0 : world P) (tasks : list (nat * list string)).
Hypothesis tasks_indexed : ∀ i t, tasks !! i = Some t → t.1 = i.
Implicit Types (w : world P) (t : nat * list string).

Lemma worker_step_fields t w :
  ∃ (wr : option (layer P)) (lines : list string) (calls : list gp_call),
    ∀ w,
      datasets (worker_step w0 t w)
      = match wr with
        | Some x => <[out_name_of t.1 := x]> (datasets w)
        | None => datasets w
        end
      ∧ shape_dir (worker_step w0 t w) = shape_dir w
      ∧ csv_dir (worker_step w0 t w) = csv_dir w
      ∧ csv_files (worker_step w0 t w) = csv_files w
      ∧ gp_messages (worker_step w0 t w) = gp_messages w
      ∧ stdout (worker_step w0 t w) = stdout w ++ lines
      ∧ gp_calls (worker_step w0 t w) = gp_calls w ++ calls.
Proof.
  unfold worker_step.
  destruct (layers_of w0 (fac_type_path <$> t.2)) as [ls|].
  2:{ exists None, [], []. intros w'. by rewrite !app_nil_r. }
  set (c := Intersect_analysis (fac_type_path <$> t.2) (out_name_of t.1)).
  destruct (gp_intersect P ls) as [x|]; [destruct (shape_dir w0)|].
  - exists (Some x), [], [c]. intros w'. simpl. by rewrite app_nil_r.
  - eexists None, (intersect_warning t.1 _), [c]. intros w'. subst c.
    destruct (add_stdout_lines_datasets P
      (add_call P (Intersect_analysis (fac_type_path <$> t.2)
                     (out_name_of t.1)) w')
      (intersect_warning t.1 ("ERROR 000210: cannot create output "
                              +:+ out_name_of t.1)))
      as (->&->&->&->&->&->&->). done.
  - eexists None, (intersect_warning t.1 _), [c]. intros w'. subst c.
    destruct (add_stdout_lines_datasets P
      (add_call P (Intersect_analysis (fac_type_path <$> t.2)
                     (out_name_of t.1)) w')
      (intersect_warning t.1 "ERROR 999999: Intersect failed"))
      as (->&->&->&->&->&->&->). done.
Qed.





Lemma finished_after_lookup completion finished i :
  finished_after P w0 tasks completion finished !! i
  = match tasks !! i with
    | Some t =>
        if decide (i ∈ completion) then Some (worker_result w0 t)
        else finished !! i
    | None => finished !! i
    end.
Proof.
  revert finished. induction completion as [|j c IH]; intros finished.
  - simpl. by destruct (tasks !! i).
  - simpl. rewrite IH. destruct (tasks !! i) as [t|] eqn:Hi.
    + destruct (decide (i ∈ c)) as [Hin|Hnin].
      * rewrite decide_True; [done | by right].
      * destruct (decide (i = j)) as [->|Hne].
        -- rewrite Hi, lookup_insert_eq. rewrite decide_True; [done | left].
        -- rewrite decide_False by (by intros [?|?]%elem_of_cons).
           destruct (tasks !! j); [by rewrite lookup_insert_ne|done].
    + destruct (tasks !! j) eqn:Hj; [|done].
      rewrite lookup_insert_ne; [done | congruence].
Qed.

End PoolOrder.

(** ** The scheduler's result list *)

Lemma combination_tasks_indexed (cats : list string) (k i : nat)
    (t : nat * list string) :
  combination_tasks cats k !! i = Some t → t.1 = i.
Proof. intros H. by apply enumerate_lookup in H as [? _]. Qed.

Lemma combination_tasks_member (cats : list string) (k i : nat)
    (t : nat * list string) :
  combination_tasks cats k !! i = Some t → t.2 ⊆ cats.
Proof.
  intros H. apply enumerate_lookup in H as [_ H].
  apply list_elem_of_lookup_2, elem_of_combinations in H as [H _].
  by apply sublist_subseteq.
Qed.

Lemma comprehension_Ok {A B} (f : A → result B) (g : A → B) (xs : list A) :
  (∀ x, x ∈ xs → f x = Ok (g x)) → comprehension f xs = Ok (g <$> xs).
Proof.
  induction xs as [|x xs IH]; intros H; simpl; [done|].
  rewrite H by left. simpl. rewrite IH; [done|].
  intros y Hy. apply H. by right.
Qed.

Lemma comprehension_Ok_inv {A B} (f : A → result B) (xs : list A)
    (ys : list B) :
  comprehension f xs = Ok ys → Forall2 (λ x y, f x = Ok y) xs ys.
Proof.
  revert ys. induction xs as [|x xs IH]; intros ys; simpl.
  - intros [= <-]. constructor.
  - destruct (f x) as [y|e] eqn:Hx; simpl; [|done].
    destruct (comprehension f xs) as [ys'|e] eqn:Hxs; simpl; [|done].
    intros [= <-]. constructor; [done | by apply IH].
Qed.

Lemma comprehension_ext {A B} (f g : A → result B) (xs : list A) :
  (∀ x, x ∈ xs → f x = g x) → comprehension f xs = comprehension g xs.
Proof.
  induction xs as [|x xs IH]; intros H; simpl; [done|].
  rewrite H by left. rewrite IH; [done|]. intros y Hy. apply H. by right.
Qed.

Lemma first_missing_None_iff {P} (w : world P) (names : list string) :
  first_missing w names = None ↔ ∀ n, n ∈ names → is_Some (datasets w !! n).
Proof.
  induction names as [|n names IH]; simpl.
  - split; [by intros _ ? ?%elem_of_nil | done].
  - case_bool_decide as Hn.
    + rewrite IH. split.
      * intros H m [->|Hm]%elem_of_cons; [done | by apply H].
      * intros H m Hm. apply H. by right.
    + split; [done|]. intros H. destruct Hn. apply H. left.
Qed.

Section Dispatch.
Context (P : provider).
Implicit Types (w : world P).

Lemma layers_agree_refl w : layers_agree w w.
Proof. done. Qed.

Lemma dispatch_spec completion w :
  dispatch P completion w
  = (comprehension
       (async_get
          (finished_after P w (combination_tasks FacilityTypes 3)
             completion ∅))
       (seq 0 (length (combination_tasks FacilityTypes 3))),
     world_after P w (combination_tasks FacilityTypes 3) completion w).
Proof.
  unfold dispatch, pool_apply_async.
  by rewrite (run_workers_spec P w) by apply layers_agree_refl.
Qed.


(** What the parent gets for the task at position [i]. *)
Lemma dispatch_get completion w i t :
  completion ≡ₚ seq 0 (length (combination_tasks FacilityTypes 3)) →
  combination_tasks FacilityTypes 3 !! i = Some t →
  async_get
    (finished_after P w (combination_tasks FacilityTypes 3) completion ∅) i
  = worker_result w t.
Proof.
  intros Hp Ht. unfold async_get. rewrite finished_after_lookup, Ht.
  rewrite decide_True; [done|]. rewrite Hp. apply elem_of_seq.
  apply lookup_lt_Some in Ht. lia.
Qed.


(** The list the parent collects, when it collects one, holds at position
    [i] the output of the task created [i]-th. *)
Lemma dispatch_aligned completion w names :
  completion ≡ₚ seq 0 56 →
  (dispatch P completion w).1 = Ok names →
  names = out_name_of <$> seq 0 56.
Proof.
  assert (length (combination_tasks FacilityTypes 3) = 56) as Hlen by done.
  intros Hp. rewrite dispatch_spec. cbn [fst]. rewrite Hlen.
  intros H%comprehension_Ok_inv.
  apply list_eq. intros i. rewrite Forall2_lookup in H. specialize (H i).
  rewrite list_lookup_fmap.
  destruct (decide (i < 56)) as [Hi|Hi].
  - rewrite lookup_seq_lt in H |- * by done. simpl in H |- *.
    inversion H as [? y Hg|]; subst. f_equal.
    destruct (lookup_lt_is_Some_2 (combination_tasks FacilityTypes 3) i)
      as [t Ht]; [rewrite Hlen; lia|].
    rewrite (dispatch_get completion w i t) in Hg by (by rewrite ?Hlen).
    unfold worker_result in Hg. destruct (first_missing _ _); [done|].
    injection Hg as <-. by rewrite (combination_tasks_indexed _ _ _ _ Ht).
  - rewrite lookup_seq_ge in H |- * by lia. by inversion H.
Qed.

(** With the eight category layers in place the parent collects all 56
    names, whatever the engine did in the workers. *)
Lemma dispatch_returns completion w :
  completion ≡ₚ seq 0 56 →
  (∀ ft, ft ∈ FacilityTypes → is_Some (datasets w !! fac_type_path ft)) →
  (dispatch P completion w).1 = Ok (out_name_of <$> seq 0 56).
Proof.
  assert (length (combination_tasks FacilityTypes 3) = 56) as Hlen by done.
  intros Hp Hall. rewrite dispatch_spec. cbn [fst]. rewrite Hlen.
  apply comprehension_Ok. intros i [_ Hi]%elem_of_seq.
  destruct (lookup_lt_is_Some_2 (combination_tasks FacilityTypes 3) i)
    as [t Ht]; [rewrite Hlen; lia|].
  rewrite (dispatch_get completion w i t) by (by rewrite ?Hlen).
  unfold worker_result.
  rewrite (proj2 (first_missing_None_iff w (fac_type_path <$> t.2))).
  - by rewrite (combination_tasks_indexed _ _ _ _ Ht).
  - intros n (ft & -> & Hft)%list_elem_of_fmap. apply Hall.
    by eapply combination_tasks_member.
Qed.
End Dispatch.



(** ** What a successful tool call did *)

Section Tools.
Context (P : provider).
Implicit Types (w : world P).

Ltac tool_inv H :=
  munfold; unfold read_dataset, write_dataset in H; munfold; simpl in H;
  repeat (case_match; simplify_eq; simpl in * ); eauto 10.

Lemma arcpy_Merge_Ok inps out w w' :
  arcpy_Merge P inps out w = (Ok tt, w') →
  ∃ ls r, layers_of w inps = Some ls ∧ gp_merge P ls = Some r
    ∧ w' = set_datasets P (insert out r) (add_call P (Merge inps out) w).
Proof.
  unfold arcpy_Merge. intros H. munfold.
  destruct (layers_of w inps) as [ls|] eqn:Hls.
  - erewrite read_datasets_Some in H by (by erewrite layers_of_ext).
    unfold write_dataset in H. tool_inv H.
  - destruct (read_datasets_None P (add_call P (Merge inps out) w) inps)
      as [msg Hr]; [by erewrite layers_of_ext|].
    simpl in H. rewrite Hr in H. done.
Qed.

Lemma arcpy_Clip_analysis_Ok inp clip_features out w w' :
  arcpy_Clip_analysis P inp clip_features out w = (Ok tt, w') →
  ∃ r, w' = set_datasets P (insert (default (gp_auto_name P inp) out) r)
              (add_call P (Clip_analysis inp clip_features out) w).
Proof. unfold arcpy_Clip_analysis. intros H. tool_inv H. Qed.

Lemma arcpy_Dissolve_management_Ok inp out w w' :
  arcpy_Dissolve_management P inp out w = (Ok tt, w') →
  ∃ l r, datasets w !! inp = Some l ∧ gp_dissolve P l = Some r
    ∧ w' = set_datasets P (insert out r)
             (add_call P (Dissolve_management inp out) w).
Proof. unfold arcpy_Dissolve_management. intros H. tool_inv H. Qed.

Lemma arcpy_MultipartToSinglepart_management_Ok inp out w w' :
  arcpy_MultipartToSinglepart_management P inp out w = (Ok tt, w') →
  ∃ l r, datasets w !! inp = Some l ∧ gp_split P l = Some r
    ∧ w' = set_datasets P (insert out r)
             (add_call P (MultipartToSinglepart_management inp out) w).
Proof.
  unfold arcpy_MultipartToSinglepart_management. intros H. tool_inv H.
Qed.

Lemma arcpy_Delete_management_Ok name w w' :
  arcpy_Delete_management P name w = (Ok tt, w') →
  w' = set_datasets P (delete name) (add_call P (Delete_management name) w).
Proof. unfold arcpy_Delete_management. intros H. tool_inv H. Qed.

Lemma arcpy_Rename_management_Ok old new w w' :
  arcpy_Rename_management P old new w = (Ok tt, w') →
  ∃ l, datasets w !! old = Some l
    ∧ w' = set_datasets P (insert new l)
             (set_datasets P (delete old)
                (add_call P (Rename_management old new) w)).
Proof. unfold arcpy_Rename_management. intros H. tool_inv H. Qed.

Lemma shutil_rmtree_shape_Ok w w' :
  shutil_rmtree_shape P w = (Ok tt, w') →
  shape_dir w = true
  ∧ w' = set_shape_dir P false
           (set_datasets P (filter (λ kv, in_shape_dir kv.1 = false)) w).
Proof. unfold shutil_rmtree_shape. intros H. tool_inv H. Qed.
End Tools.

Section Aggregate.
Context (P : provider).
Implicit Types (w : world P).

Lemma aggregate_Ok names w w' :
  aggregate P names w = (Ok tt, w') →
  ∃ ls m c g d s,
    layers_of w names = Some ls ∧ gp_merge P ls = Some m
    ∧ shape_dir w = true
    ∧ after_cleanup w m c !! "ThreeTypeIntersect" = Some g
    ∧ gp_dissolve P g = Some d ∧ gp_split P d = Some s
    ∧ datasets w'
      = <["ThreeTypeIntersect" := s]>
          (delete "ThreeTypeIntersect_temp" (after_cleanup w m c))
    ∧ shape_dir w' = false
    ∧ csv_dir w' = csv_dir w ∧ csv_files w' = csv_files w
    ∧ gp_messages w' = gp_messages w
    ∧ stdout w' = stdout w ++ ["Successfully saved to ThreeTypeIntersect"]
    ∧ gp_calls w' = gp_calls w ++
        [ Merge names "ThreeTypeIntersect";
          Clip_analysis "ThreeTypeIntersect"
            "./Hong_Kong_18_Districts/HKDistrict18.shp" None;
          Dissolve_management "ThreeTypeIntersect" "ThreeTypeIntersect_temp";
          Delete_management "ThreeTypeIntersect";
          Rename_management "ThreeTypeIntersect_temp" "ThreeTypeIntersect";
          MultipartToSinglepart_management "ThreeTypeIntersect"
            "ThreeTypeIntersect_temp";
          Delete_management "ThreeTypeIntersect";
          Rename_management "ThreeTypeIntersect_temp" "ThreeTypeIntersect" ].
Proof.
  unfold aggregate. intros H.
  apply bind_Ok in H as ([] & w1 & H1 & H).
  apply arcpy_Merge_Ok in H1 as (ls & m & Hls & Hm & ->).
  apply bind_Ok in H as ([] & w2 & H2 & H).
  apply arcpy_Clip_analysis_Ok in H2 as (c & ->).
  apply bind_Ok in H as ([] & w3 & H3 & H).
  apply shutil_rmtree_shape_Ok in H3 as (Hdir & ->).
  apply bind_Ok in H as ([] & w4 & H4 & H).
  apply arcpy_Dissolve_management_Ok in H4 as (g & d & Hg & Hd & ->).
  apply bind_Ok in H as ([] & w5 & H5 & H).
  apply arcpy_Delete_management_Ok in H5 as ->.
  apply bind_Ok in H as ([] & w6 & H6 & H).
  apply arcpy_Rename_management_Ok in H6 as (d' & Hd' & ->).
  apply bind_Ok in H as ([] & w7 & H7 & H).
  apply arcpy_MultipartToSinglepart_management_Ok in H7
    as (d'' & s & Hd'' & Hs & ->).
  apply bind_Ok in H as ([] & w8 & H8 & H).
  apply arcpy_Delete_management_Ok in H8 as ->.
  apply bind_Ok in H as ([] & w9 & H9 & H).
  apply arcpy_Rename_management_Ok in H9 as (s' & Hs' & ->).
  unfold print, modify in H. injection H as <-.
  simpl in *.
  change ("ThreeTypeIntersect" +:+ "_temp") with "ThreeTypeIntersect_temp" in *.
  fold (after_cleanup w m c) in *.
  simplify_map_eq.
  exists ls, m, c, g, d'', s'. split_and!; try done.
  - apply map_eq. intros n.
    destruct (decide (n = "ThreeTypeIntersect")) as [->|Hn1];
      [by simplify_map_eq|].
    destruct (decide (n = "ThreeTypeIntersect_temp")) as [->|Hn2];
      by simplify_map_eq.
  - by rewrite <- !app_assoc.
Qed.

(** After a successful aggregation nothing is left below the scratch
    directory and the datasets outside it, other than the result, its
    temporary twin and the clip output, are the ones from before. *)
Lemma after_cleanup_lookup w m c n :
  after_cleanup w m c !! n
  = if in_shape_dir n then None
    else if decide (n = gp_auto_name P "ThreeTypeIntersect") then Some c
    else if decide (n = "ThreeTypeIntersect") then Some m
    else datasets w !! n.
Proof.
  unfold after_cleanup. destruct (in_shape_dir n) eqn:Hn.
  - apply map_lookup_filter_None. right. intros x _. simpl. congruence.
  - repeat case_decide; subst.
    + apply map_lookup_filter_Some. by simplify_map_eq.
    + apply map_lookup_filter_Some. by simplify_map_eq.
    + destruct (datasets w !! n) as [x|] eqn:Hx.
      * apply map_lookup_filter_Some. by simplify_map_eq.
      * apply map_lookup_filter_None. left. by simplify_map_eq.
Qed.
End Aggregate.

(** ** The cell engine keeps the contracts of dissolve and split *)

Module CellFacts.
Import Cells.













End CellFacts.

(** ** The whole run *)

Section Run.
Context (P : provider).
Implicit Types (w : world P).

Lemma exception_handler_Ok {X A} (f_name : string) (f : X → M P A)
    (args : X) w v w' :
  exception_handler P f_name f args w = (Ok v, w') ↔ f args w = (Ok v, w').
Proof.
  unfold exception_handler. destruct (f args w) as [[a|e] w1]; [done|].
  destruct (is_ExecuteError e), (is_Exception e); split; intros [=].
Qed.

Lemma run_Ok radius facilities_list completion w w' :
  three_or_above_facilities P radius facilities_list completion w
  = (Ok tt, w') →
  ∃ wb names wd,
    buffer_stage P radius facilities_list w = (Ok tt, wb)
    ∧ dispatch P completion wb = (Ok names, wd)
    ∧ aggregate P names wd = (Ok tt, w').
Proof.
  unfold three_or_above_facilities. rewrite exception_handler_Ok.
  unfold three_or_above_facilities_body. intros H.
  apply bind_Ok in H as ([] & wb & Hb & H).
  apply bind_Ok in H as (names & wd & Hd & H). eauto 10.
Qed.
End Run.


Lemma pair_eta_fst {A B} (p : A * B) (a : A) : p.1 = a → p = (a, p.2).
Proof. destruct p. by intros <-. Qed.



(** ** A failed intersection *)

(** C3 (as the code has it): a worker whose member layers exist returns
    its index-keyed output path whether the engine intersected or raised;
    when the engine raises, the exception is caught, no dataset is written,
    and exactly two lines are printed, the error text and a warning that
    names the output path (hence the task index).  The other tasks are
    untouched by it: with the eight category layers in place the parent
    collects all 56 names, whichever intersections failed. *)
Theorem worker_failure_is_swallowed (P : provider) (index : nat)
    (fac_type_comb : list string) (w : world P) (ls : list (layer P)) :
  layers_of w (fac_type_path <$> fac_type_comb) = Some ls →
  let r := in_worker P (process_combination P index fac_type_comb) w in
  r.1 = Ok (out_name_of index)
  ∧ (gp_intersect P ls = None →
       datasets r.2 = datasets w
       ∧ stdout r.2 = stdout w ++
           [ "ERROR 999999: Intersect failed";
             "Warning: " +:+ out_name_of index +:+ " is ignored" ])
  ∧ (∀ completion,
       completion ≡ₚ seq 0 56 →
       (∀ ft, ft ∈ FacilityTypes →
              is_Some (datasets w !! fac_type_path ft)) →
       (dispatch P completion w).1 = Ok (out_name_of <$> seq 0 56)).
Proof.
  intros Hls r. unfold r. rewrite (process_combination_ok P _ _ _ _ Hls).
  split_and!.
  - done.
  - intros ->. simpl. by rewrite <- app_assoc.
  - intros completion Hp Hall. by apply dispatch_returns.
Qed.

Lemma worker_failure_is_swallowed_witness :
  (in_worker Cells.flaky
     (process_combination Cells.flaky 55
        ["Parks, Zoos And Gardens"; "Sports Grounds"; "Swimming Pools"])
     (Cells.ready _)).1
  = Ok "./shape/FeatureCombination_55.shp".
Proof.
  eapply (worker_failure_is_swallowed Cells.flaky 55
            ["Parks, Zoos And Gardens"; "Sports Grounds"; "Swimming Pools"]
            (Cells.ready _)).
  vm_compute. reflexivity.
Defined.

(** There is no failure tag: the worker returns the same value
    from an engine that failed as from one that succeeded, its two printed
    lines name the output path but no category, and the run as a whole then
    stops at Merge, which is handed the name of the output that was never
    written. *)
Lemma worker_failure_not_tagged :
  let comb := ["Parks, Zoos And Gardens"; "Sports Grounds"; "Swimming Pools"] in
  let failed := in_worker Cells.flaky
                  (process_combination Cells.flaky 55 comb) (Cells.ready _) in
  let fine := in_worker Cells.sound
                (process_combination Cells.sound 55 comb) (Cells.ready _) in
  failed.1 = fine.1
  ∧ datasets failed.2 !! out_name_of 55 = None
  ∧ is_Some (datasets fine.2 !! out_name_of 55)
  ∧ stdout failed.2
    = stdout (Cells.ready Cells.parks_first) ++
        [ "ERROR 999999: Intersect failed";
          "Warning: ./shape/FeatureCombination_55.shp is ignored" ]
  ∧ (three_or_above_facilities Cells.flaky 500 "facilities_list" (seq 0 56)
       (Cells.world0 _)).1
    = Raise (ExecuteError
               "ERROR 000732: ./shape/FeatureCombination_55.shp does not exist").
Proof.
  split_and!; try (vm_compute; reflexivity).
  vm_compute. by eexists.
Qed.

(** ** Cleanup *)

(** C6 (as the code has it): when the run completes, the scratch directory
    is gone with every per-category and per-combination artifact below it,
    and the final region set is there.  The removal is the single
    [shutil.rmtree] inside the run: invoked again, with the directory
    already absent, it raises [FileNotFoundError] and leaves the world, the
    final region set included, as it was. *)
Theorem cleanup_on_completion (P : provider) (radius : Q)
    (facilities_list : string) (completion : list nat) (w w' : world P) :
  three_or_above_facilities P radius facilities_list completion w
  = (Ok tt, w') →
  shape_dir w' = false
  ∧ (∀ name, in_shape_dir name = true → datasets w' !! name = None)
  ∧ is_Some (datasets w' !! "ThreeTypeIntersect")
  ∧ shutil_rmtree_shape P w' = (Raise (FileNotFoundError "./shape/"), w').
Proof.
  intros Hrun. apply run_Ok in Hrun as (wb & names & wd & _ & _ & Hagg).
  apply aggregate_Ok in Hagg
    as (ls & m & c & g & d & s & _ & _ & _ & _ & _ & _ & Hds & Hdir & _).
  split_and!.
  - done.
  - intros name Hn. rewrite Hds.
    rewrite lookup_insert_ne by (by intros <-).
    rewrite lookup_delete_ne by (by intros <-).
    by rewrite after_cleanup_lookup, Hn.
  - rewrite Hds, lookup_insert_eq. by eexists.
  - unfold shutil_rmtree_shape. by rewrite Hdir.
Qed.

Lemma cleanup_on_completion_witness :
  let w' := (three_or_above_facilities Cells.sound 500 "facilities_list"
               (seq 0 56) (Cells.world0 _)).2 in
  shape_dir w' = false
  ∧ is_Some (datasets w' !! "ThreeTypeIntersect").
Proof.
  destruct (cleanup_on_completion Cells.sound 500 "facilities_list"
              (seq 0 56) (Cells.world0 _)
              (three_or_above_facilities Cells.sound 500 "facilities_list"
                 (seq 0 56) (Cells.world0 _)).2)
    as (H1 & _ & H3 & _).
  - apply pair_eta_fst. vm_compute. reflexivity.
  - split; [exact H1 | exact H3].
Defined.

(** Not every exit path cleans up, and cleanup is not idempotent: a run
    that ends in an error keeps the scratch directory with the category
    layers and the combination outputs, and a second removal after a
    completed run is an error. *)
Lemma cleanup_skipped_on_failure :
  let failed := three_or_above_facilities Cells.flaky 500 "facilities_list"
                  (seq 0 56) (Cells.world0 _) in
  let done := three_or_above_facilities Cells.sound 500 "facilities_list"
                (seq 0 56) (Cells.world0 _) in
  failed.1
  = Raise (ExecuteError
             "ERROR 000732: ./shape/FeatureCombination_55.shp does not exist")
  ∧ shape_dir failed.2 = true
  ∧ is_Some (datasets failed.2 !! "./shape/Swimming_Pools_Layer.shp")
  ∧ is_Some (datasets failed.2 !! "./shape/FeatureCombination_0.shp")
  ∧ done.1 = Ok tt
  ∧ (shutil_rmtree_shape Cells.sound done.2).1
    = Raise (FileNotFoundError "./shape/").
Proof.
  split_and!; try (vm_compute; reflexivity); vm_compute; by eexists.
Qed.

(** ** Engine calls are only ever added *)

Section Extends.
Context (P : provider).
Implicit Types (w : world P).














Lemma extends_exception_handler {X A} (f_name : string) (f : X → M P A)
    (args : X) :
  extends_calls (f args) → extends_calls (exception_handler P f_name f args).
Proof.
  intros Hf w. destruct (Hf w) as [rest H]. exists rest.
  unfold exception_handler. destruct (f args w) as [[a|e] w1]; [done|].
  by destruct (is_ExecuteError e), (is_Exception e).
Qed.




Lemma extends_world_after w0 tasks completion w :
  ∃ rest, gp_calls (world_after P w0 tasks completion w) = gp_calls w ++ rest.
Proof.
  revert w. induction completion as [|i c IH]; intros w; simpl.
  - exists []. by rewrite app_nil_r.
  - destruct (tasks !! i) as [t|]; [|apply IH].
    destruct (IH (worker_step w0 t w)) as [r2 H2].
    destruct (worker_step_fields P w0 t w) as (wr & lines & calls & Hf).
    destruct (Hf w) as (_&_&_&_&_&_&H1).
    exists (calls ++ r2). by rewrite H2, H1, app_assoc.
Qed.




End Extends.

(** ** Input checks *)

Section MainFacts.
Context (P : provider) {F : Type} (float_of_string : string → option F).
Implicit Types (w : world P).

Lemma read_csv_world (filename : string) w :
  (read_csv P float_of_string filename w).2 = w.
Proof.
  unfold read_csv. destruct (csv_files w !! filename) as [[|h rows]|]; done.
Qed.

Lemma read_all_csvs_loop_world folder filenames table w :
  (read_all_csvs_loop P float_of_string folder filenames table w).2 = w.
Proof.
  revert table. induction filenames as [|f fs IH]; intros table; simpl;
    [done|].
  munfold. pose proof (read_csv_world (folder +:+ f) w) as Hw.
  destruct (read_csv P float_of_string (folder +:+ f) w) as [[rows|e] w1];
    simpl in Hw; subst; [apply IH | done].
Qed.

Lemma read_all_csvs_world folder w :
  (read_all_csvs P float_of_string folder w).2 = w.
Proof. apply read_all_csvs_loop_world. Qed.
End MainFacts.



(** The guards of [main] on a world without the CSV folder, and on one
    whose eight files hold a header line only. *)
Example main_without_folder :
  (main Cells.sound (λ s, Some s) (seq 0 56)
     (World Cells.sound ∅ true false ∅ [] [] "")).1
  = Raise (FileNotFoundError "CSV folder './csv_data/' not found.").
Proof. reflexivity. Qed.

Example main_without_data :
  let files : gmap string (list (list string)) :=
    list_to_map ((λ f, ("./csv_data/" +:+ f, [["GMID"; "Dataset"]]))
                   <$> FileNames) in
  let r := main Cells.sound (λ s, Some s) (seq 0 56)
             (World Cells.sound ∅ true true files [] [] "") in
  r.1 = Raise (ValueError "No facility data loaded from CSV files.")
  ∧ gp_calls r.2 = [] ∧ datasets r.2 = ∅.
Proof. split_and!; vm_compute; reflexivity. Qed.

(** ** No category is ever excluded *)

Section Exclusion.
Context (P : provider).
Implicit Types (w : world P).

Lemma in_shape_dir_prefix (s : string) : in_shape_dir ("./shape/" +:+ s) = true.
Proof. by destruct s. Qed.

(** The per-category step either succeeds, leaving the buffered feature
    class as it was, or raises the engine's error. *)
Lemma make_fac_type_layer_cases feature_class facility_type w :
  in_shape_dir feature_class = false →
  match make_fac_type_layer P feature_class facility_type w with
  | (Ok _, w') =>
      datasets w' !! feature_class = datasets w !! feature_class
      ∧ ∃ l s, datasets w !! feature_class = Some l
          ∧ gp_select P l ("Facility_Type = '" +:+ facility_type +:+ "'")
            = Some s
  | (Raise e, _) => ∃ msg, e = ExecuteError msg
  end.
Proof.
  intros Hfc. unfold make_fac_type_layer, arcpy_SelectLayerByAttribute,
    arcpy_GetCount_management, arcpy_CopyFeatures_management.
  munfold. unfold read_dataset, write_dataset. munfold. simpl.
  destruct (datasets w !! feature_class) as [l|] eqn:Hl; [|by eauto].
  destruct (gp_select P l _) as [s|] eqn:Hs; [|by eauto]. simpl.
  destruct (_ && _); [by eauto|]. simpl.
  split; [|by eauto].
  rewrite lookup_insert_ne; [done|]. intros Heq.
  by rewrite <- Heq, in_shape_dir_prefix in Hfc.
Qed.

Lemma for_each_layers_select_fails feature_class (fts : list string) w l ft :
  in_shape_dir feature_class = false →
  datasets w !! feature_class = Some l →
  ft ∈ fts →
  gp_select P l ("Facility_Type = '" +:+ ft +:+ "'") = None →
  ∃ msg,
    (for_each P fts (make_fac_type_layer P feature_class) w).1
    = Raise (ExecuteError msg).
Proof.
  intros Hfc Hl Hft Hsel. revert w Hl.
  induction fts as [|x fts IH]; intros w Hl; [by apply elem_of_nil in Hft|].
  simpl. munfold.
  pose proof (make_fac_type_layer_cases feature_class x w Hfc) as Hx.
  destruct (make_fac_type_layer P feature_class x w) as [[[]|e] w1].
  - destruct Hx as (Hsame & l' & s & Hl' & Hs).
    apply elem_of_cons in Hft as [->|Hft]; [congruence|].
    apply IH; [done | congruence].
  - destruct Hx as [msg ->]. by eauto.
Qed.

Lemma bind_Raise_fst {A B} (m : M P A) (k : A → M P B) w e :
  (m w).1 = Raise e → ((m ≫= k) w).1 = Raise e.
Proof.
  munfold. destruct (m w) as [[a|e'] w1]; simpl; [done | by intros [= ->]].
Qed.

Lemma exception_handler_Raise {X A} (f_name : string) (f : X → M P A)
    (args : X) w e :
  (f args w).1 = Raise e → (exception_handler P f_name f args w).1 = Raise e.
Proof.
  unfold exception_handler. destruct (f args w) as [[a|e'] w1]; simpl;
    [done|]. intros [= ->]. by destruct (is_ExecuteError e), (is_Exception e).
Qed.

Lemma arcpy_Buffer_analysis_fails inp out dist w l :
  datasets w !! inp = Some l → gp_buffer P l dist = None →
  ∃ msg, (arcpy_Buffer_analysis P inp out dist w).1 = Raise (ExecuteError msg).
Proof.
  intros Hl Hb. unfold arcpy_Buffer_analysis. munfold.
  unfold read_dataset. simpl. rewrite Hl, Hb. simpl. eauto.
Qed.

Lemma arcpy_Buffer_analysis_run inp out dist w l b :
  datasets w !! inp = Some l → gp_buffer P l dist = Some b →
  in_shape_dir out = false →
  arcpy_Buffer_analysis P inp out dist w
  = (Ok tt, set_datasets P (insert out b)
              (add_call P (Buffer_analysis inp out dist) w)).
Proof.
  intros Hl Hb Hout. unfold arcpy_Buffer_analysis. munfold.
  unfold read_dataset, write_dataset. simpl. rewrite Hl, Hb. simpl.
  by rewrite Hout.
Qed.

Lemma first_missing_Some w names n :
  first_missing w names = Some n → n ∈ names ∧ datasets w !! n = None.
Proof.
  induction names as [|m names IH]; simpl; [done|].
  case_bool_decide as Hm.
  - intros [? ?]%IH. split; [by right | done].
  - intros [= <-]. split; [left|]. by apply eq_None_not_Some.
Qed.

(** A comprehension over outcomes that are values or failed assertions
    ends in the first failed assertion, if there is one. *)
Lemma comprehension_assertion {A B} (f : A → result B) (xs : list A)
    (Q : string → Prop) :
  (∀ x, x ∈ xs → (∃ y, f x = Ok y)
                 ∨ ∃ n, f x = Raise (AssertionError n) ∧ Q n) →
  (∃ x n, x ∈ xs ∧ f x = Raise (AssertionError n)) →
  ∃ n, comprehension f xs = Raise (AssertionError n) ∧ Q n.
Proof.
  induction xs as [|x xs IH]; intros Hall (x0 & n0 & Hin & Hx0).
  - by apply elem_of_nil in Hin.
  - simpl. destruct (Hall x) as [[y Hy]|(n & Hn & HQ)]; [left| |].
    + rewrite Hy. simpl.
      destruct IH as (n & -> & HQ).
      * intros z Hz. apply Hall. by right.
      * apply elem_of_cons in Hin as [->|Hin]; [congruence|]. eauto.
      * eauto.
    + rewrite Hn. eauto.
Qed.

Lemma world_after_call_recorded (w0 : world P) tasks completion i t ls w :
  tasks !! i = Some t →
  layers_of w0 (fac_type_path <$> t.2) = Some ls →
  i ∈ completion →
  Intersect_analysis (fac_type_path <$> t.2) (out_name_of t.1)
  ∈ gp_calls (world_after P w0 tasks completion w).
Proof.
  intros Ht Hls. revert w.
  induction completion as [|j c IH]; intros w Hin;
    [by apply elem_of_nil in Hin|].
  simpl. destruct (decide (j = i)) as [->|Hne].
  - rewrite Ht.
    destruct (extends_world_after P w0 tasks c (worker_step w0 t w))
      as [rest ->].
    apply elem_of_app. left. unfold worker_step. rewrite Hls.
    destruct (gp_intersect P ls); [destruct (shape_dir w0)|]; simpl;
      apply elem_of_app; right; left.
  - apply IH. apply elem_of_cons in Hin as [->|Hin]; done.
Qed.
End Exclusion.

Lemma every_category_in_some_task :
  Forall (λ ft, Exists (λ t : nat * list string, ft ∈ t.2)
                  (combination_tasks FacilityTypes 3)) FacilityTypes.
Proof. apply (bool_decide_unpack _). by vm_compute. Qed.

(** C4 (as the code has it): an engine error while buffering, or while
    selecting a category, ends the run with that error: no category is
    recorded as empty or left out.  The scheduler checks nothing before it
    dispatches: with the eight category layers present, empty or not, the
    Intersect call of every one of the 56 combinations is issued; and with a
    category layer missing the workers' assertion fails and the parent gets
    an [AssertionError] naming a missing layer. *)
Theorem no_category_exclusion (P : provider) (radius : Q)
    (facilities_list : string) (completion : list nat) (w : world P) :
  (∀ l, datasets w !! facilities_list = Some l →
        gp_buffer P l radius = None →
        ∃ msg,
          (three_or_above_facilities P radius facilities_list completion w).1
          = Raise (ExecuteError msg))
  ∧ (∀ l b ft,
        datasets w !! facilities_list = Some l →
        gp_buffer P l radius = Some b →
        ft ∈ FacilityTypes →
        gp_select P b ("Facility_Type = '" +:+ ft +:+ "'") = None →
        ∃ msg,
          (three_or_above_facilities P radius facilities_list completion w).1
          = Raise (ExecuteError msg))
  ∧ (completion ≡ₚ seq 0 56 →
     (∀ ft, ft ∈ FacilityTypes → is_Some (datasets w !! fac_type_path ft)) →
     ∀ t, t ∈ combination_tasks FacilityTypes 3 →
          Intersect_analysis (fac_type_path <$> t.2) (out_name_of t.1)
          ∈ gp_calls (dispatch P completion w).2)
  ∧ (completion ≡ₚ seq 0 56 →
     (∃ ft, ft ∈ FacilityTypes ∧ datasets w !! fac_type_path ft = None) →
     ∃ name, (dispatch P completion w).1 = Raise (AssertionError name)
             ∧ datasets w !! name = None).
Proof.
  assert (length (combination_tasks FacilityTypes 3) = 56) as Hlen by done.
  split_and!.
  - intros l Hl Hb.
    destruct (arcpy_Buffer_analysis_fails P facilities_list
                "facilities_buffer" radius w l Hl Hb) as [msg Hmsg].
    exists msg. unfold three_or_above_facilities.
    apply exception_handler_Raise.
    unfold three_or_above_facilities_body, buffer_stage.
    by do 2 apply bind_Raise_fst.
  - intros l b ft Hl Hb Hft Hsel.
    pose proof (arcpy_Buffer_analysis_run P facilities_list
                  "facilities_buffer" radius w l b Hl Hb eq_refl) as Hbuf.
    destruct (for_each_layers_select_fails P "facilities_buffer"
                FacilityTypes
                (set_datasets P (insert "facilities_buffer" b)
                   (add_call P (Buffer_analysis facilities_list
                                  "facilities_buffer" radius) w))
                b ft) as [msg Hmsg];
      [done | by simpl; rewrite lookup_insert_eq | done | done |].
    exists msg. unfold three_or_above_facilities.
    apply exception_handler_Raise.
    unfold three_or_above_facilities_body, buffer_stage.
    apply bind_Raise_fst. by rewrite (bind_step P _ _ _ _ _ Hbuf).
  - intros Hp Hall t [i Ht]%list_elem_of_lookup_1. rewrite dispatch_spec.
    simpl.
    destruct (first_missing_None P w (fac_type_path <$> t.2)) as [ls Hls].
    { apply first_missing_None_iff.
      intros n (ft & -> & Hft)%list_elem_of_fmap. apply Hall.
      by eapply combination_tasks_member. }
    eapply world_after_call_recorded; [done..|].
    rewrite Hp. apply elem_of_seq. apply lookup_lt_Some in Ht. lia.
  - intros Hp (ft & Hft & Hmiss). rewrite dispatch_spec. cbn [fst].
    rewrite Hlen.
    apply (comprehension_assertion _ _ (λ n, datasets w !! n = None)).
    + intros i [_ Hi]%elem_of_seq.
      destruct (lookup_lt_is_Some_2 (combination_tasks FacilityTypes 3) i)
        as [t Ht]; [rewrite Hlen; lia|].
      rewrite (dispatch_get P completion w i t) by (by rewrite ?Hlen).
      unfold worker_result.
      destruct (first_missing w _) as [n|] eqn:Hn; [right|left; eauto].
      exists n. split; [done|]. by apply first_missing_Some in Hn as [_ ?].
    + pose proof every_category_in_some_task as Hev.
      rewrite Forall_forall in Hev. specialize (Hev ft Hft).
      apply Exists_exists in Hev as (t & [i Ht]%list_elem_of_lookup_1 & Hin).
      destruct (first_missing w (fac_type_path <$> t.2)) as [n|] eqn:Hn.
      * exists i, n. split.
        -- apply elem_of_seq. apply lookup_lt_Some in Ht. lia.
        -- rewrite (dispatch_get P completion w i t) by (by rewrite ?Hlen).
           unfold worker_result. by rewrite Hn.
      * exfalso. rewrite first_missing_None_iff in Hn.
        destruct (Hn (fac_type_path ft)) as [x Hx];
          [by apply list_elem_of_fmap_2|]. congruence.
Qed.

(** A category without any facility is neither excluded nor skipped: its
    selection reports 0 features, the run completes, and the 21
    combinations that contain it are intersected like the others. *)
Lemma empty_category_still_dispatched :
  let r := three_or_above_facilities Cells.sound 500 "facilities_list"
             (seq 0 56) (Cells.world_no_pools _) in
  r.1 = Ok tt
  ∧ stdout r.2 !! 14
    = Some "Selected 0 features for Facility_Type = 'Swimming Pools'"
  ∧ length (filter (λ c, is_intersect c = true) (gp_calls r.2)) = 56
  ∧ length (filter (λ c, intersects_layer "./shape/Swimming_Pools_Layer.shp" c
                         = true) (gp_calls r.2)) = 21.
Proof. split_and!; vm_compute; reflexivity. Qed.

(** ** The index loop of the reference implementation *)

Section IndexLoop.
Implicit Types (n r a m i k : nat) (p c x y : list nat).

Lemma combinations_loop_index {A} fuel (pool : list A) r indices :
  combinations_loop fuel pool r indices
  = pick pool <$> index_loop fuel (length pool) r indices.
Proof.
  revert indices. induction fuel as [|fuel IH]; intros indices; simpl; [done|].
  destruct (advance _ _ _) as [indices'|]; simpl; [|done]. by rewrite IH.
Qed.

Lemma find_pivot_skip n r x k i :
  (k ≤ i)%nat →
  (∀ j, (k ≤ j < i)%nat → x !! j = Some (j + n - r)) →
  find_pivot n r x i = find_pivot n r x k.
Proof.
  induction i as [|i IH]; intros Hk Hmax.
  - by replace k with 0 by lia.
  - destruct (decide (k = S i)) as [->|Hne]; [done|].
    simpl. rewrite Hmax by lia. rewrite decide_True by done.
    apply IH; [lia|]. intros j Hj. apply Hmax. lia.
Qed.

Lemma find_pivot_here n r x k v :
  x !! k = Some v → v ≠ k + n - r → find_pivot n r x (S k) = Some k.
Proof. intros Hx Hv. simpl. rewrite Hx. by rewrite decide_False. Qed.

Lemma binomial_pos n r : (r ≤ n)%nat → (0 < binomial n r)%nat.
Proof.
  revert r. induction n as [|n IH]; intros [|r] H; simpl; try lia.
  specialize (IH r ltac:(lia)). lia.
Qed.

Lemma combinations_nil_iff {A} (l : list A) r :
  combinations l r = [] ↔ (length l < r)%nat.
Proof.
  rewrite <- length_zero_iff_nil, combinations_length. split.
  - intros H. destruct (decide (length l < r)%nat); [done|].
    pose proof (binomial_pos (length l) r ltac:(lia)). lia.
  - apply binomial_gt.
Qed.

Lemma chain_app n r l1 l2 :
  chain n r l1 → chain n r l2 →
  (∀ x y, last l1 = Some x → head l2 = Some y → advance n r x = Some y) →
  chain n r (l1 ++ l2).
Proof.
  intros H1 H2 Hj i x y Hx Hy.
  destruct (decide (S i < length l1)%nat) as [Hlt|Hge].
  - rewrite lookup_app_l in Hx, Hy by lia. by eapply H1.
  - destruct (decide (i < length l1)%nat) as [Hi|Hi].
    + rewrite lookup_app_l in Hx by lia. rewrite lookup_app_r in Hy by lia.
      apply Hj.
      * rewrite last_lookup. by replace (pred (length l1)) with i by lia.
      * rewrite head_lookup. by replace (S i - length l1) with 0 in Hy by lia.
    + rewrite lookup_app_r in Hx, Hy by lia.
      apply (H2 (i - length l1)); [done|].
      by replace (S (i - length l1)) with (S i - length l1) by lia.
Qed.

(** Stepping from the last combination that starts at [a] to the first
    that starts at [a + 1]. *)
Lemma advance_junction n p a r :
  (a + S r < n)%nat →
  advance n (length p + S r) (p ++ a :: seq (n - r) r)
  = Some (p ++ seq (S a) (S r)).
Proof.
  intros Ha. unfold advance.
  rewrite (find_pivot_skip n _ _ (S (length p))); [|lia|].
  - rewrite (find_pivot_here n _ _ (length p) a).
    + simpl. rewrite lookup_app_r by lia.
      rewrite Nat.sub_diag. simpl.
      rewrite take_app_length.
      by replace (length p + S r - length p) with (S r) by lia.
    + rewrite lookup_app_r by lia. by rewrite Nat.sub_diag.
    + lia.
  - intros j Hj. rewrite lookup_app_r by lia.
    destruct (j - length p) as [|d] eqn:Hd; [lia|]. simpl.
    rewrite lookup_seq_lt by lia. f_equal. lia.
Qed.

(** The last combination has no successor. *)
Lemma advance_last n r : (r ≤ n)%nat → advance n r (seq (n - r) r) = None.
Proof.
  intros Hr. unfold advance.
  rewrite (find_pivot_skip n r _ 0); [done | lia |].
  intros j Hj. rewrite lookup_seq_lt by lia. f_equal. lia.
Qed.


Lemma combinations_chain m : ∀ n a r p,
  a + m = n →
  chain n (length p + r) ((λ c, p ++ c) <$> combinations (seq a m) r)
  ∧ ((r ≤ m)%nat →
     head (combinations (seq a m) r) = Some (seq a r)
     ∧ last (combinations (seq a m) r) = Some (seq (n - r) r)).
Proof.
  induction m as [|m IH]; intros n a r p Hn.
  - destruct r as [|r]; simpl.
    + split; [by intros [|i] x y Hx Hy | done].
    + split; [by intros i x y Hx Hy | lia].
  - destruct r as [|r].
    { simpl. split; [by intros [|i] x y Hx Hy | done]. }
    simpl seq. cbn [combinations].
    destruct (IH n (S a) r (p ++ [a]) ltac:(lia)) as [Hc1 Hhl1].
    destruct (IH n (S a) (S r) p ltac:(lia)) as [Hc2 Hhl2].
    assert (∀ k, combinations (seq (S a) m) k = [] ↔ (m < k)%nat) as Hnil.
    { intros k. by rewrite combinations_nil_iff, length_seq. }
    split.
    + rewrite fmap_app, <- list_fmap_compose. apply chain_app.
      * rewrite length_app in Hc1. simpl in Hc1.
        replace (length p + S r) with (length p + 1 + r) by lia.
        erewrite list_fmap_ext; [exact Hc1|]. intros i c _. simpl.
        by rewrite <- app_assoc.
      * exact Hc2.
      * intros x y Hx Hy.
        rewrite fmap_last in Hx.
        rewrite head_lookup, list_lookup_fmap, <- head_lookup in Hy.
        destruct (last (combinations (seq (S a) m) r)) as [c1|] eqn:Hl1;
          [|done].
        destruct (head (combinations (seq (S a) m) (S r))) as [c2|] eqn:Hh2;
          [|done].
        simpl in Hx, Hy. injection Hx as <-. injection Hy as <-.
        assert (S r ≤ m)%nat as Hrm.
        { destruct (decide (S r ≤ m)%nat) as [|Hgt]; [done|].
          rewrite (proj2 (Hnil (S r))) in Hh2 by lia. done. }
        destruct (Hhl1 ltac:(lia)) as [_ Hlast].
        destruct (Hhl2 Hrm) as [Hhead _].
        assert (c1 = seq (n - r) r) as -> by congruence.
        assert (c2 = seq (S a) (S r)) as -> by congruence.
        apply advance_junction. lia.
    + intros Hr. destruct (Hhl1 ltac:(lia)) as [Hh1 Hl1]. split.
      * rewrite head_app, head_lookup, list_lookup_fmap, <- head_lookup, Hh1.
        done.
      * rewrite last_app. destruct (decide (S r ≤ m)%nat) as [Hrm|Hgt].
        -- destruct (Hhl2 Hrm) as [_ ->]. done.
        -- rewrite (proj2 (Hnil (S r))) by lia. simpl.
           rewrite fmap_last, Hl1. simpl. f_equal.
           replace (n - S r) with a by lia.
           by replace (n - r) with (S a) by lia.
Qed.

Lemma index_loop_drop n r (l : list (list nat)) fuel : ∀ i x,
  chain n r l →
  (∀ z, last l = Some z → advance n r z = None) →
  l !! i = Some x →
  (length l ≤ S i + fuel)%nat →
  index_loop fuel n r x = drop (S i) l.
Proof.
  induction fuel as [|fuel IH]; intros i x Hch Hlast Hx Hlen.
  - simpl. rewrite drop_ge; [done | lia].
  - simpl. destruct (l !! S i) as [y|] eqn:Hy.
    + rewrite (Hch i x y Hx Hy). rewrite (IH (S i) y); try done; [|lia].
      by rewrite (drop_S l y (S i)).
    + apply lookup_ge_None in Hy. pose proof (lookup_lt_Some _ _ _ Hx).
      rewrite Hlast.
      * rewrite drop_ge; [done | lia].
      * rewrite last_lookup. by replace (pred (length l)) with i by lia.
Qed.

(** The loop visits the combinations of positions in the order of the
    recursive enumeration. *)
Lemma index_loop_combinations n r fuel :
  (r ≤ n)%nat → (binomial n r ≤ S fuel)%nat →
  seq 0 r :: index_loop fuel n r (seq 0 r) = combinations (seq 0 n) r.
Proof.
  intros Hr Hfuel.
  destruct (combinations_chain n n 0 r [] eq_refl) as [Hch Hhl].
  destruct (Hhl Hr) as [Hhead Hlast].
  rewrite (list_fmap_ext _ id (combinations (seq 0 n) r)) in Hch
    by done.
  rewrite list_fmap_id in Hch. simpl in Hch.
  rewrite (index_loop_drop n r (combinations (seq 0 n) r) fuel 0 (seq 0 r)).
  - apply head_Some in Hhead as [l' ->]. done.
  - done.
  - intros z Hz. rewrite Hlast in Hz. injection Hz as <-.
    by apply advance_last.
  - by rewrite <- head_lookup.
  - rewrite combinations_length, length_seq. lia.
Qed.
End IndexLoop.

Lemma pick_cons {A} (pre pool : list A) (x : A) (c : list nat) :
  pick (pre ++ x :: pool) (length pre :: c)
  = x :: pick (pre ++ x :: pool) c.
Proof.
  unfold pick. simpl. rewrite lookup_app_r by lia.
  by rewrite Nat.sub_diag.
Qed.

Lemma pick_combinations {A} (pool : list A) : ∀ (pre : list A) r,
  pick (pre ++ pool) <$> combinations (seq (length pre) (length pool)) r
  = combinations pool r.
Proof.
  induction pool as [|x pool IH]; intros pre [|r]; simpl; try done.
  rewrite fmap_app, <- list_fmap_compose.
  rewrite (list_fmap_ext _ (cons x ∘ pick (pre ++ x :: pool))
             (combinations (seq (S (length pre)) (length pool)) r))
    by (intros i c _; apply pick_cons).
  rewrite list_fmap_compose.
  replace (pre ++ x :: pool) with ((pre ++ [x]) ++ pool)
    by (by rewrite <- app_assoc).
  replace (S (length pre)) with (length (pre ++ [x]))
    by (rewrite length_app; simpl; lia).
  by rewrite !IH.
Qed.

(** The documented index loop, given enough fuel to step through all
    C(n,r) combinations, returns what the recursive definition returns. *)
Lemma combinations_by_index_correct {A} (fuel : nat) (pool : list A)
    (r : nat) :
  (binomial (length pool) r ≤ S fuel)%nat →
  combinations_by_index fuel pool r = combinations pool r.
Proof.
  intros Hfuel. unfold combinations_by_index. case_decide as Hr.
  - symmetry. by apply combinations_nil_iff.
  - rewrite combinations_loop_index.
    change (pick pool (seq 0 r)
            :: (pick pool <$> index_loop fuel (length pool) r (seq 0 r)))
      with (pick pool <$> seq 0 r
                            :: index_loop fuel (length pool) r (seq 0 r)).
    rewrite index_loop_combinations by (done || lia).
    apply (pick_combinations pool []).
Qed.

(** ** Cross-checks on concrete inputs *)

(** The two definitions of the combinations run on the configured
    categories and on every pool of up to six elements. *)
Example combinations_by_index_FacilityTypes :
  combinations_by_index 100 FacilityTypes 3 = combinations FacilityTypes 3.
Proof. vm_compute. reflexivity. Qed.

Example combinations_by_index_small :
  Forall (λ n, Forall (λ r, combinations_by_index 100 (seq 0 n) r
                            = combinations (seq 0 n) r) (seq 0 8))
    (seq 0 7).
Proof. apply (bool_decide_unpack _). by vm_compute. Qed.

Example replace_special_chars_FacilityTypes :
  replace_special_chars <$> FacilityTypes
  = [ "Badminton_Courts"; "Basketball_Courts"; "Country_Parks";
      "Fitness_Rooms"; "Other_Recreation_and_Sports_Facilities";
      "Parks_Zoos_And_Gardens"; "Sports_Grounds"; "Swimming_Pools" ].
Proof. reflexivity. Qed.

Example from_csv_row_example :
  from_csv_row (λ s, Some s)
    [ "GMID1"; "Swimming Pools"; "Kowloon Park Pool"; "N.A."; "YAU TSIM MONG";
      "818000"; "835000"; "22.3"; "114.17" ]
  = Ok (mkSportFacility "GMID1" "Swimming Pools" "Kowloon Park Pool" None
          (Some "YAU TSIM MONG") "818000" "835000" "22.3" "114.17").
Proof. reflexivity. Qed.

Example from_csv_row_short :
  from_csv_row (λ s, Some s) ["GMID1"; "Swimming Pools"] = Raise IndexError.
Proof. reflexivity. Qed.

(** Module initialisation makes sure the scratch directory exists and
    touches nothing else; stale artifacts of an earlier run stay. *)
Lemma module_init_spec (P : provider) (w : world P) :
  (module_init P w).1 = Ok tt
  ∧ shape_dir (module_init P w).2 = true
  ∧ datasets (module_init P w).2 = datasets w.
Proof. unfold module_init. by destruct (shape_dir w) eqn:H. Qed.

(** The sample run: the two stretches covered by three categories. *)
Example world0_run :
  let r := three_or_above_facilities Cells.sound 500 "facilities_list"
             (seq 0 56) (Cells.world0 _) in
  r.1 = Ok tt
  ∧ datasets r.2 !! "ThreeTypeIntersect"
    = Some [("", [10; 11; 12]); ("", [50; 51; 52])].
Proof. split; vm_compute; reflexivity. Qed.

(** ** Sanitised names *)

Lemma chars_app (s t : string) : chars (s +:+ t) = chars s ++ chars t.
Proof.
  induction s as [|c s IH]; [done|].
  rewrite string_app_cons. unfold chars in *. simpl. by rewrite IH.
Qed.

Lemma str_replace_app (old : ascii) (new s t : string) :
  str_replace old new (s +:+ t)
  = str_replace old new s +:+ str_replace old new t.
Proof.
  induction s as [|c s IH]; [done|].
  rewrite string_app_cons. simpl. rewrite IH.
  case_decide; [by rewrite string_app_assoc | by rewrite string_app_cons].
Qed.

Lemma substitute_app (f : ascii → string) (s t : string) :
  substitute f (s +:+ t) = substitute f s +:+ substitute f t.
Proof.
  induction s as [|c s IH]; [done|].
  rewrite string_app_cons. simpl. by rewrite IH, string_app_assoc.
Qed.

Lemma replace_special_chars_app (s t : string) :
  replace_special_chars (s +:+ t)
  = replace_special_chars s +:+ replace_special_chars t.
Proof. unfold replace_special_chars. by rewrite !str_replace_app. Qed.

Lemma replace_special_chars_cons (c : ascii) (s : string) :
  replace_special_chars (String c s)
  = sanitize_char c +:+ replace_special_chars s.
Proof.
  change (String c s) with (String c "" +:+ s).
  rewrite replace_special_chars_app. f_equal.
  unfold replace_special_chars, sanitize_char.
  repeat (simpl; case_decide; subst; try done).
Qed.

Lemma replace_special_chars_substitute (name : string) :
  replace_special_chars name = substitute sanitize_char name.
Proof.
  induction name as [|c s IH]; [done|].
  by rewrite replace_special_chars_cons, IH.
Qed.

Lemma sanitize_char_clean (c : ascii) :
  Forall (λ d, special_char d = false) (chars (sanitize_char c)).
Proof.
  unfold sanitize_char. repeat case_decide; subst; unfold chars; simpl.
  - by repeat constructor.
  - by repeat constructor.
  - constructor.
  - constructor; [|constructor]. unfold special_char.
    apply bool_decide_eq_false_2. intros Hin.
    repeat (apply elem_of_cons in Hin as [->|Hin]; [done|]).
    by apply elem_of_nil in Hin.
Qed.

Lemma sanitize_char_plain (c : ascii) :
  special_char c = false → sanitize_char c = String c "".
Proof.
  unfold special_char, sanitize_char. intros H%bool_decide_eq_false_1.
  repeat case_decide; subst; try done; exfalso; apply H;
    repeat first [by left | right].
Qed.

Lemma replace_special_chars_clean_chars (name : string) :
  Forall (λ c, special_char c = false) (chars (replace_special_chars name)).
Proof.
  induction name as [|c s IH]; [constructor|].
  rewrite replace_special_chars_cons, chars_app.
  apply Forall_app. split; [apply sanitize_char_clean | done].
Qed.

Lemma replace_special_chars_plain (name : string) :
  Forall (λ c, special_char c = false) (chars name) →
  replace_special_chars name = name.
Proof.
  induction name as [|c s IH]; [done|].
  unfold chars. simpl. intros [Hc Hs]%Forall_cons.
  rewrite replace_special_chars_cons, sanitize_char_plain by done.
  rewrite string_app_cons, string_app_nil_l. f_equal. by apply IH.
Qed.

(** X1: a sanitised name holds no space, no ampersand and no comma,
    whatever the name was. *)
Theorem replace_special_chars_clean (name : string) (c : ascii) :
  c ∈ chars (replace_special_chars name) →
  c ≠ " "%char ∧ c ≠ "&"%char ∧ c ≠ ","%char.
Proof.
  intros Hc.
  pose proof (replace_special_chars_clean_chars name) as H.
  rewrite Forall_forall in H. specialize (H c Hc).
  unfold special_char in H. apply bool_decide_eq_false_1 in H.
  split_and!; intros ->; apply H; repeat first [by left | right].
Qed.

Lemma replace_special_chars_clean_witness :
  "_"%char ≠ " "%char ∧ "_"%char ≠ "&"%char ∧ "_"%char ≠ ","%char.
Proof.
  apply (replace_special_chars_clean "Parks, Zoos And Gardens" "_"%char).
  unfold chars. simpl. repeat first [by left | right].
Defined.

(** X2: sanitising leaves a name as it is exactly when the name has none
    of the three characters; so sanitising twice is sanitising once. *)
Theorem replace_special_chars_fixed_point (name : string) :
  (replace_special_chars name = name
   ↔ ∀ c, c ∈ chars name → special_char c = false)
  ∧ replace_special_chars (replace_special_chars name)
    = replace_special_chars name.
Proof.
  split; [split|].
  - intros Heq. apply Forall_forall. rewrite <- Heq.
    apply replace_special_chars_clean_chars.
  - intros H. apply replace_special_chars_plain. by apply Forall_forall.
  - apply replace_special_chars_plain, replace_special_chars_clean_chars.
Qed.

(** X3: the three chained replacements act as one pass that maps a space
    to an underscore, an ampersand to "and", drops a comma and keeps every
    other character; nothing a replacement puts in is replaced again.  So a
    name built from parts is sanitised part by part. *)
Theorem replace_special_chars_one_pass (name rest : string) :
  replace_special_chars name = substitute sanitize_char name
  ∧ replace_special_chars (name +:+ rest)
    = replace_special_chars name +:+ replace_special_chars rest.
Proof.
  split; [apply replace_special_chars_substitute
         | apply replace_special_chars_app].
Qed.

(** X4: sanitising loses information: a space and an underscore, an
    ampersand and the word "and", a comma and nothing give the same
    sanitised name, wherever they stand in a name. *)
Theorem replace_special_chars_collisions (s t : string) :
  replace_special_chars (s +:+ " " +:+ t)
  = replace_special_chars (s +:+ "_" +:+ t)
  ∧ replace_special_chars (s +:+ "&" +:+ t)
    = replace_special_chars (s +:+ "and" +:+ t)
  ∧ replace_special_chars (s +:+ "," +:+ t)
    = replace_special_chars (s +:+ t).
Proof.
  rewrite !replace_special_chars_app. split_and!; done.
Qed.

(** ** Rows and files *)

(** X5: only the first nine columns of a row are read: columns after the
    ninth never change the outcome. *)
Theorem from_csv_row_extra_columns {F : Type}
    (float_of_string : string → option F) (csv_row : list string) :
  from_csv_row float_of_string csv_row
  = from_csv_row float_of_string (take 9 csv_row).
Proof.
  unfold from_csv_row, getitem.
  by rewrite !lookup_take_lt by lia.
Qed.

(** X6: a row that does not convert raises [IndexError] or [ValueError]
    and nothing else: [IndexError] only for a row of fewer than nine
    columns, and always for one of at most five; [ValueError] only when one
    of the columns 5 to 8 is there and is not a number. *)
Theorem from_csv_row_errors {F : Type}
    (float_of_string : string → option F) (csv_row : list string) :
  (length csv_row ≤ 5 →
   from_csv_row float_of_string csv_row = Raise IndexError)%nat
  ∧ ∀ e, from_csv_row float_of_string csv_row = Raise e →
      (e = IndexError ∧ (length csv_row < 9)%nat)
      ∨ ∃ i s msg, (5 ≤ i ≤ 8)%nat ∧ csv_row !! i = Some s
                   ∧ float_of_string s = None ∧ e = ValueError msg.
Proof.
  unfold from_csv_row, getitem, float. split.
  - intros Hlen.
    repeat (match goal with
            | |- context [csv_row !! ?i] =>
                destruct (csv_row !! i) eqn:?; simpl; [|done]
            end).
    exfalso.
    match goal with H : csv_row !! 5 = Some _ |- _ =>
      apply lookup_lt_Some in H; lia end.
  - intros e H.
    repeat (match type of H with
            | context [csv_row !! ?i] =>
                let Hi := fresh "Hi" in
                destruct (csv_row !! i) eqn:Hi; simpl in H;
                [|injection H as <-; left; split;
                  [done | apply lookup_ge_None in Hi; lia]]
            | context [float_of_string ?s] =>
                let Hf := fresh "Hf" in
                destruct (float_of_string s) eqn:Hf; simpl in H;
                [|injection H as <-; right; do 3 eexists;
                  split_and!; [| |eassumption|eassumption|reflexivity]; lia]
            end).
    done.
Qed.

Lemma comprehension_Forall2 {A B} (f : A → result B) (xs : list A)
    (ys : list B) :
  comprehension f xs = Ok ys ↔ Forall2 (λ x y, f x = Ok y) xs ys.
Proof.
  split; [apply comprehension_Ok_inv|].
  induction 1 as [|x y xs ys Hx _ IH]; simpl; [done|].
  by rewrite Hx, IH.
Qed.

Lemma comprehension_first_failure {A B} (f : A → result B)
    (good : list A) (bad : A) (rest : list A) (ys : list B) (e : exn) :
  Forall2 (λ x y, f x = Ok y) good ys → f bad = Raise e →
  comprehension f (good ++ bad :: rest) = Raise e.
Proof.
  induction 1 as [|x y xs ys Hx _ IH]; intros Hbad; simpl.
  - by rewrite Hbad.
  - by rewrite Hx, IH.
Qed.

Lemma comprehension_Raise {A B} (f : A → result B) (xs : list A) (e : exn) :
  comprehension f xs = Raise e → ∃ x, x ∈ xs ∧ f x = Raise e.
Proof.
  induction xs as [|x xs IH]; simpl; [done|].
  destruct (f x) as [y|e'] eqn:Hx; simpl.
  - destruct (comprehension f xs) as [ys|e'] eqn:Hxs; simpl; [done|].
    intros [= ->]. destruct IH as (z & Hz & Hfz); [done|].
    exists z. split; [by right | done].
  - intros [= ->]. exists x. split; [by left | done].
Qed.

Section ReadFacts.
Context (P : provider) {F : Type} (float_of_string : string → option F).
Implicit Types (w : world P) (t table : list (SportFacility F)).

Lemma read_csv_Ok filename w w' t :
  read_csv P float_of_string filename w = (Ok t, w')
  ↔ w' = w ∧ file_holds float_of_string w filename t.
Proof.
  unfold read_csv, file_holds.
  destruct (csv_files w !! filename) as [[|header rows]|] eqn:Hf.
  - split; [done | by intros (_ & ? & ? & [=] & _)].
  - split.
    + intros [= Hc <-]. split; [done|]. exists header, rows.
      split; [done | by apply comprehension_Forall2].
    + intros (-> & h & rs & [= <- <-] & Hrows).
      by apply comprehension_Forall2 in Hrows as ->.
  - split; [done | by intros (_ & ? & ? & [=] & _)].
Qed.

Lemma read_all_csvs_loop_Ok folder filenames table w w' res :
  read_all_csvs_loop P float_of_string folder filenames table w = (Ok res, w')
  ↔ w' = w
    ∧ ∃ tables,
        Forall2 (λ filename t,
                   file_holds float_of_string w (folder +:+ filename) t)
          filenames tables
        ∧ res = table ++ concat tables.
Proof.
  revert table. induction filenames as [|f fs IH]; intros table; simpl.
  - unfold ret. split.
    + intros [= <- <-]. split; [done|]. exists []. split; [constructor|].
      by rewrite app_nil_r.
    + intros (-> & tables & Hts & ->). inversion Hts; subst.
      by rewrite app_nil_r.
  - rewrite bind_Ok. split.
    + intros (rows & w1 & Hr & Hl). apply read_csv_Ok in Hr as [-> Hr].
      apply IH in Hl as (-> & tables & Hts & ->). split; [done|].
      exists (rows :: tables). split; [by constructor|].
      simpl. by rewrite app_assoc.
    + intros (-> & tables & Hts & ->).
      inversion Hts as [|? rows ? tables' Hr Hts']; subst.
      exists rows, w. split; [by apply read_csv_Ok|].
      apply IH. split; [done|]. exists tables'. split; [done|].
      simpl. by rewrite app_assoc.
Qed.

Lemma read_csv_error filename w e :
  (read_csv P float_of_string filename w).1 = Raise e → is_read_error e.
Proof.
  unfold read_csv.
  destruct (csv_files w !! filename) as [[|header rows]|]; simpl;
    try by intros [= <-].
  intros (row & _ & Hrow)%comprehension_Raise.
  destruct (from_csv_row_errors float_of_string row) as [_ H].
  destruct (H e Hrow) as [[-> _]|(i & s & msg & _ & _ & _ & ->)]; done.
Qed.

Lemma read_all_csvs_loop_error folder filenames table w e :
  (read_all_csvs_loop P float_of_string folder filenames table w).1 = Raise e →
  is_read_error e.
Proof.
  revert table. induction filenames as [|f fs IH]; intros table; simpl;
    [done|].
  munfold. pose proof (read_csv_world P float_of_string (folder +:+ f) w) as Hw.
  pose proof (read_csv_error (folder +:+ f) w) as He.
  destruct (read_csv P float_of_string (folder +:+ f) w) as [[rows|e'] w1];
    simpl in *; subst.
  - apply IH.
  - intros [= ->]. by apply He.
Qed.

Lemma read_all_csvs_loop_failure folder pre f post tables table w :
  Forall2 (λ g t, file_holds float_of_string w (folder +:+ g) t) pre tables →
  read_all_csvs_loop P float_of_string folder (pre ++ f :: post) table w
  = match read_csv P float_of_string (folder +:+ f) w with
    | (Ok rows, _) =>
        read_all_csvs_loop P float_of_string folder post
          (table ++ concat tables ++ rows) w
    | (Raise e, _) => (Raise e, w)
    end.
Proof.
  intros Hpre. revert table.
  induction Hpre as [|g t pre tables Hg _ IH]; intros table; simpl.
  - munfold. pose proof (read_csv_world P float_of_string (folder +:+ f) w).
    destruct (read_csv P float_of_string (folder +:+ f) w) as [[rows|e] w1];
      simpl in *; subst; done.
  - munfold.
    rewrite (proj2 (read_csv_Ok (folder +:+ g) w w t)) by done.
    rewrite IH.
    destruct (read_csv P float_of_string (folder +:+ f) w) as [[rows|e] w1];
      [|done].
    simpl. by rewrite <- !app_assoc.
Qed.
End ReadFacts.

(** X7: reading the folder succeeds exactly when each of the eight files
    is there with a header line and data lines that all convert; the table
    is then the records of the files one after the other, in the order of
    [FileNames] and of the lines, the header lines left out.  Reading
    changes nothing. *)
Theorem read_all_csvs_spec (P : provider) {F : Type}
    (float_of_string : string → option F) (folder : string)
    (w w' : world P) (table : list (SportFacility F)) :
  joins_directly folder →
  read_all_csvs P float_of_string folder w = (Ok table, w')
  ↔ w' = w
    ∧ ∃ tables,
        Forall2 (λ filename t,
                   file_holds float_of_string w (folder +:+ filename) t)
          FileNames tables
        ∧ table = concat tables.
Proof. intros _. apply (read_all_csvs_loop_Ok P float_of_string). Qed.

Lemma read_all_csvs_spec_witness :
  let w := sample_csv_world Cells.sound ∅ in
  let table :=
    [ mkSportFacility "a1" "Badminton Courts" "Hall A" (Some "1 Road") None
        "818630" "836500" "22" "114";
      mkSportFacility "a2" "Badminton Courts" "Hall B" None
        (Some "Kowloon City") "818940" "836861" "22" "114" ] in
  w = w
  ∧ ∃ tables,
      Forall2 (λ filename t,
                 file_holds sample_float w ("./csv_data/" +:+ filename) t)
        FileNames tables
      ∧ table = concat tables.
Proof.
  intros w table.
  apply (proj1 (read_all_csvs_spec Cells.sound sample_float "./csv_data/"
                  w w table (or_intror (ex_intro _ "./csv_data" eq_refl)))).
  vm_compute. reflexivity.
Defined.

(** X8: the files are read in the order of [FileNames] and the first one
    that cannot be read ends the reading with its exception, whatever the
    later files hold, and no table is returned: a missing file gives
    [FileNotFoundError], a file with no line at all [StopIteration] (there
    is no header to skip), and a data line that does not convert the
    exception of the first such line. *)
Theorem read_all_csvs_first_failure (P : provider) {F : Type}
    (float_of_string : string → option F) (folder : string) (w : world P)
    (pre : list string) (f : string) (post : list string)
    (tables : list (list (SportFacility F))) :
  joins_directly folder →
  FileNames = pre ++ f :: post →
  Forall2 (λ g t, file_holds float_of_string w (folder +:+ g) t)
    pre tables →
  let r := read_all_csvs P float_of_string folder w in
  r.2 = w
  ∧ (csv_files w !! (folder +:+ f) = None →
     ∃ msg, r.1 = Raise (FileNotFoundError msg))
  ∧ (csv_files w !! (folder +:+ f) = Some [] → r.1 = Raise StopIteration)
  ∧ (∀ header good bad rest facs e,
       csv_files w !! (folder +:+ f) = Some (header :: good ++ bad :: rest) →
       Forall2 (λ row fac, from_csv_row float_of_string row = Ok fac)
         good facs →
       from_csv_row float_of_string bad = Raise e →
       r.1 = Raise e).
Proof.
  intros _ Hnames Hpre r. unfold r, read_all_csvs. rewrite Hnames.
  split; [apply read_all_csvs_loop_world|].
  rewrite (read_all_csvs_loop_failure P float_of_string folder pre f post
             tables [] w Hpre).
  unfold read_csv. split_and!.
  - intros ->. by eexists.
  - by intros ->.
  - intros header good bad rest facs e -> Hgood Hbad.
    by rewrite (comprehension_first_failure _ good bad rest facs e).
Qed.

Lemma read_all_csvs_first_failure_witness :
  let w := World Cells.sound ∅ true true
             (delete "./csv_data/country_parks.csv" sample_csv_files)
             [] [] "" in
  ∃ msg,
    (read_all_csvs Cells.sound sample_float "./csv_data/" w).1
    = Raise (FileNotFoundError msg).
Proof.
  intros w.
  destruct (read_all_csvs_first_failure Cells.sound sample_float
              "./csv_data/" w
              ["Badminton_court.csv"; "Basketball_court.csv"]
              "country_parks.csv"
              [ "fitness_center.csv";
                "other_recreation_sports_facilities.csv";
                "parks_gardens.csv"; "sports_grounds.csv";
                "swimming_pools.csv" ]
              [ [ mkSportFacility "a1" "Badminton Courts" "Hall A"
                    (Some "1 Road") None "818630" "836500" "22" "114";
                  mkSportFacility "a2" "Badminton Courts" "Hall B" None
                    (Some "Kowloon City") "818940" "836861" "22" "114" ];
                [] ]
              (or_intror (ex_intro _ "./csv_data" eq_refl)) eq_refl)
    as (_ & Hmissing & _).
  - repeat constructor.
    + eexists _, _. split; [vm_compute; reflexivity|].
      repeat constructor.
    + eexists _, _. split; [vm_compute; reflexivity|]. constructor.
  - apply Hmissing. vm_compute. reflexivity.
Defined.

(** X9: when the folder is there but reading it fails, [main] raises the
    read's exception, which is one of [FileNotFoundError], [StopIteration],
    [IndexError] and [ValueError]; the wrapper prints one line for it (for
    a file with no line, the text after the colon is empty), and no engine
    tool has been called and no dataset touched. *)
Theorem main_read_failure (P : provider) {F : Type}
    (float_of_string : string → option F) (completion : list nat)
    (w : world P) (e : exn) :
  csv_dir w = true →
  (read_all_csvs P float_of_string "./csv_data/" w).1 = Raise e →
  is_read_error e
  ∧ ∃ detail,
      main P float_of_string completion w
      = (Raise e,
         add_stdout P ("Unexpected error while running main: " +:+ detail) w)
      ∧ (e = StopIteration → detail = "")
      ∧ (e = IndexError → detail = "list index out of range").
Proof.
  intros Hdir Hread.
  assert (is_read_error e) as He
    by (by eapply (read_all_csvs_loop_error P float_of_string)).
  split; [done|]. exists (exn_str e).
  unfold main, exception_handler, main_body. rewrite Hdir. simpl. munfold.
  pose proof (read_all_csvs_world P float_of_string "./csv_data/" w) as Hw.
  destruct (read_all_csvs P float_of_string "./csv_data/" w)
    as [[data|e'] w1]; simpl in *; simplify_eq.
  split_and!; [by destruct e | by intros -> | by intros ->].
Qed.

Lemma main_read_failure_witness :
  let w := World Cells.sound ∅ true true
             (<["./csv_data/parks_gardens.csv" := []]> sample_csv_files)
             [] [] "" in
  is_read_error StopIteration
  ∧ ∃ detail,
      main Cells.sound sample_float (seq 0 56) w
      = (Raise StopIteration,
         add_stdout Cells.sound
           ("Unexpected error while running main: " +:+ detail) w)
      ∧ (StopIteration = StopIteration → detail = "")
      ∧ (StopIteration = IndexError → detail = "list index out of range").
Proof.
  intros w.
  apply (main_read_failure Cells.sound sample_float (seq 0 56) w
           StopIteration eq_refl).
  vm_compute. reflexivity.
Defined.

(** X10: [main] and the analysis it calls are both wrapped, so an engine
    error that ends the analysis is reported twice, first under the name of
    the analysis and then under the name of [main], each time with the
    engine's messages, before it leaves [main]. *)
Theorem main_logs_twice (P : provider) {F : Type}
    (float_of_string : string → option F) (completion : list nat)
    (w w' : world P) (fac : SportFacility F) (rest : list (SportFacility F))
    (msg : string) :
  csv_dir w = true →
  (read_all_csvs P float_of_string "./csv_data/" w).1 = Ok (fac :: rest) →
  three_or_above_facilities_body P 500 "facilities_list" completion w
  = (Raise (ExecuteError msg), w') →
  main P float_of_string completion w
  = (Raise (ExecuteError msg),
     add_stdout P ("Error while running main(): " +:+ gp_messages w')
       (add_stdout P
          ("Error while running three_or_above_facilities(): "
           +:+ gp_messages w') w')).
Proof.
  intros Hdir Hread Hbody.
  unfold main, exception_handler at 1, main_body. rewrite Hdir. simpl.
  munfold.
  pose proof (read_all_csvs_world P float_of_string "./csv_data/" w) as Hw.
  destruct (read_all_csvs P float_of_string "./csv_data/" w)
    as [[data|e'] w1]; simpl in *; simplify_eq.
  unfold three_or_above_facilities, exception_handler. by rewrite Hbody.
Qed.

Lemma main_logs_twice_witness :
  (main Cells.sound sample_float (seq 0 56)
     (sample_csv_world Cells.sound ∅)).1
  = Raise (ExecuteError "ERROR 000732: facilities_list does not exist").
Proof.
  rewrite (main_logs_twice Cells.sound sample_float (seq 0 56)
             (sample_csv_world Cells.sound ∅)
             (three_or_above_facilities_body Cells.sound 500
                "facilities_list" (seq 0 56)
                (sample_csv_world Cells.sound ∅)).2
             (mkSportFacility "a1" "Badminton Courts" "Hall A"
                (Some "1 Road") None "818630" "836500" "22" "114")
             [ mkSportFacility "a2" "Badminton Courts" "Hall B" None
                 (Some "Kowloon City") "818940" "836861" "22" "114" ]
             "ERROR 000732: facilities_list does not exist").
  - reflexivity.
  - reflexivity.
  - vm_compute. reflexivity.
  - apply pair_eta_fst. vm_compute. reflexivity.
Defined.

(** ** The category layers *)

Section Layers.
Context (P : provider).
Implicit Types (w : world P).

Lemma fac_type_path_eq (facility_type : string) :
  "./shape/" +:+ (replace_special_chars facility_type +:+ "_Layer") +:+ ".shp"
  = fac_type_path facility_type.
Proof. unfold fac_type_path. by rewrite !string_app_assoc. Qed.

Lemma in_shape_dir_fac_type_path (facility_type : string) :
  in_shape_dir (fac_type_path facility_type) = true.
Proof. apply in_shape_dir_prefix. Qed.

Lemma make_fac_type_layer_Ok feature_class facility_type w w' :
  make_fac_type_layer P feature_class facility_type w = (Ok tt, w')
  ↔ ∃ l s,
      datasets w !! feature_class = Some l
      ∧ gp_select P l ("Facility_Type = '" +:+ facility_type +:+ "'") = Some s
      ∧ shape_dir w = true
      ∧ w' = World P (<[fac_type_path facility_type := s]> (datasets w))
               true (csv_dir w) (csv_files w)
               (stdout w ++ layer_lines facility_type (gp_count P s))
               (gp_calls w ++ layer_calls feature_class facility_type)
               (gp_messages w).
Proof.
  unfold make_fac_type_layer, arcpy_SelectLayerByAttribute,
    arcpy_GetCount_management, arcpy_CopyFeatures_management.
  rewrite fac_type_path_eq.
  munfold. unfold read_dataset, write_dataset. munfold. simpl.
  rewrite in_shape_dir_fac_type_path. simpl.
  destruct (datasets w !! feature_class) as [l|] eqn:Hl.
  2:{ split; [done | by intros (? & ? & [=] & _)]. }
  destruct (gp_select P l _) as [s|] eqn:Hs; simpl.
  2:{ split; [done|]. intros (? & ? & [= <-] & Hs' & _). congruence. }
  destruct (shape_dir w) eqn:Hd; simpl.
  - split.
    + intros [= <-]. exists l, s. split_and!; try done.
      unfold set_datasets, add_call, add_stdout, layer_lines, layer_calls.
      simpl. by rewrite Hd, <- !app_assoc.
    + intros (? & s' & [= <-] & Hs' & _ & ->).
      assert (s' = s) as -> by congruence.
      unfold set_datasets, add_call, add_stdout, layer_lines, layer_calls.
      simpl. by rewrite Hd, <- !app_assoc.
  - split; [done | by intros (? & ? & _ & _ & [=] & _)].
Qed.

Lemma make_fac_type_layer_closed_dir feature_class facility_type w l s :
  datasets w !! feature_class = Some l →
  gp_select P l ("Facility_Type = '" +:+ facility_type +:+ "'") = Some s →
  shape_dir w = false →
  ∃ msg w',
    make_fac_type_layer P feature_class facility_type w
    = (Raise (ExecuteError msg), w')
    ∧ datasets w' = datasets w
    ∧ stdout w' = stdout w ++ layer_lines facility_type (gp_count P s).
Proof.
  intros Hl Hs Hd.
  unfold make_fac_type_layer, arcpy_SelectLayerByAttribute,
    arcpy_GetCount_management, arcpy_CopyFeatures_management.
  rewrite fac_type_path_eq.
  munfold. unfold read_dataset, write_dataset. munfold. simpl.
  rewrite in_shape_dir_fac_type_path, Hl, Hs. simpl. rewrite Hd. simpl.
  do 2 eexists. split; [done|]. simpl.
  split; [done|]. unfold layer_lines. by rewrite <- !app_assoc.
Qed.

Lemma for_each_layers_Ok (fts : list string) w w' b :
  NoDup (fac_type_path <$> fts) →
  datasets w !! "facilities_buffer" = Some b →
  for_each P fts (make_fac_type_layer P "facilities_buffer") w = (Ok tt, w') →
  (fts ≠ [] → shape_dir w = true)
  ∧ shape_dir w' = shape_dir w
  ∧ csv_dir w' = csv_dir w ∧ csv_files w' = csv_files w
  ∧ gp_messages w' = gp_messages w
  ∧ (∀ ft, ft ∈ fts →
       ∃ s, gp_select P b ("Facility_Type = '" +:+ ft +:+ "'") = Some s
            ∧ datasets w' !! fac_type_path ft = Some s)
  ∧ (∀ n, n ∉ fac_type_path <$> fts → datasets w' !! n = datasets w !! n)
  ∧ length (gp_calls w') = length (gp_calls w) + 3 * length fts
  ∧ length (stdout w') = length (stdout w) + 2 * length fts.
Proof.
  revert w. induction fts as [|x fts IH]; intros w Hnd Hb; simpl.
  - unfold ret. intros [= <-]. split_and!; try done; try lia.
    by intros ft ?%elem_of_nil.
  - rewrite bind_Ok. intros ([] & w1 & Hx & Hrest).
    apply make_fac_type_layer_Ok in Hx as (l & s & Hl & Hs & Hd & ->).
    assert (l = b) as -> by congruence.
    csimpl in Hnd. apply NoDup_cons in Hnd as [Hx Hnd].
    apply IH in Hrest as (_ & Hd' & Hcd & Hcf & Hm & Hin & Hout & Hc & Hso);
      [|done|].
    2:{ simpl. rewrite lookup_insert_ne; [done|]. intros Heq.
        pose proof (in_shape_dir_fac_type_path x) as Hp.
        by rewrite Heq in Hp. }
    simpl in *. split_and!; try done.
    + by rewrite Hd', Hd.
    + intros ft [->|Hft]%elem_of_cons.
      * exists s. split; [done|]. rewrite Hout by done. simpl.
        apply lookup_insert_eq.
      * by apply Hin.
    + intros n Hn. apply not_elem_of_cons in Hn as [Hn1 Hn2].
      rewrite Hout by done. simpl. by rewrite lookup_insert_ne.
    + rewrite Hc, length_app. simpl. lia.
    + rewrite Hso, length_app. simpl. lia.
Qed.

Lemma buffer_stage_Ok radius facilities_list w wb :
  buffer_stage P radius facilities_list w = (Ok tt, wb) →
  ∃ l b,
    datasets w !! facilities_list = Some l ∧ gp_buffer P l radius = Some b
    ∧ shape_dir w = true ∧ shape_dir wb = true
    ∧ csv_dir wb = csv_dir w ∧ csv_files wb = csv_files w
    ∧ gp_messages wb = gp_messages w
    ∧ datasets wb !! "facilities_buffer" = Some b
    ∧ (∀ ft, ft ∈ FacilityTypes →
         ∃ s, gp_select P b ("Facility_Type = '" +:+ ft +:+ "'") = Some s
              ∧ datasets wb !! fac_type_path ft = Some s)
    ∧ (∀ n, n ≠ "facilities_buffer" → n ∉ fac_type_path <$> FacilityTypes →
         datasets wb !! n = datasets w !! n)
    ∧ length (gp_calls wb) = length (gp_calls w) + 25
    ∧ length (stdout wb) = length (stdout w) + 16.
Proof.
  unfold buffer_stage. rewrite bind_Ok. intros ([] & w1 & Hb & Hl).
  unfold arcpy_Buffer_analysis in Hb. munfold.
  unfold read_dataset, write_dataset in Hb. munfold. simpl in Hb.
  destruct (datasets w !! facilities_list) as [l|] eqn:Hfl; [|done].
  destruct (gp_buffer P l radius) as [b|] eqn:Hbuf; simpl in Hb; [|done].
  injection Hb as <-.
  assert (length FacilityTypes = 8) as Hlen by reflexivity.
  apply (for_each_layers_Ok _ _ _ b) in Hl
    as (Hd & Hd' & Hcd & Hcf & Hm & Hin & Hout & Hc & Hso).
  - rewrite Hlen in Hc, Hso.
    cbn [datasets shape_dir csv_dir csv_files gp_messages
         gp_calls stdout set_datasets add_call]
      in Hd, Hd', Hcd, Hcf, Hm, Hc, Hso, Hout.
    assert (shape_dir w = true) as Hw by (by apply Hd).
    exists l, b.
    split; [reflexivity|]. split; [exact Hbuf|]. split; [exact Hw|].
    split; [by rewrite Hd'|]. split; [exact Hcd|]. split; [exact Hcf|].
    split; [exact Hm|]. split; [|split; [exact Hin|split; [|split]]].
    + rewrite Hout; [apply lookup_insert_eq|].
      intros (ft & Heq & _)%list_elem_of_fmap.
      pose proof (in_shape_dir_fac_type_path ft) as Hp.
      by rewrite <- Heq in Hp.
    + intros n Hn1 Hn2. rewrite Hout by exact Hn2.
      by apply lookup_insert_ne.
    + rewrite Hc, length_app. cbn [length]. lia.
    + rewrite Hso. lia.
  - apply (bool_decide_unpack _). by vm_compute.
  - cbn [datasets set_datasets add_call]. apply lookup_insert_eq.
Qed.
End Layers.

(** X11: a category step that succeeds has selected the category's
    features from the feature class, printed the count and the layer name,
    and copied the selection to the very path under which the workers later
    look for the category; nothing else changes.  The "Created layer" line
    is printed before the copy, so with the scratch directory missing it is
    printed although the copy then fails and no layer is written. *)
Theorem make_fac_type_layer_spec (P : provider)
    (feature_class facility_type : string) (w : world P)
    (l s : layer P) :
  datasets w !! feature_class = Some l →
  gp_select P l ("Facility_Type = '" +:+ facility_type +:+ "'") = Some s →
  (shape_dir w = true →
   make_fac_type_layer P feature_class facility_type w
   = (Ok tt,
      World P (<[fac_type_path facility_type := s]> (datasets w))
        true (csv_dir w) (csv_files w)
        (stdout w ++ layer_lines facility_type (gp_count P s))
        (gp_calls w ++ layer_calls feature_class facility_type)
        (gp_messages w)))
  ∧ (shape_dir w = false →
     ∃ msg w',
       make_fac_type_layer P feature_class facility_type w
       = (Raise (ExecuteError msg), w')
       ∧ datasets w' = datasets w
       ∧ stdout w' = stdout w ++ layer_lines facility_type (gp_count P s)).
Proof.
  intros Hl Hs. split.
  - intros Hd. apply make_fac_type_layer_Ok. by exists l, s.
  - intros Hd. by apply (make_fac_type_layer_closed_dir P _ _ _ l s).
Qed.

Lemma make_fac_type_layer_spec_witness :
  stdout
    (make_fac_type_layer Cells.sound "facilities_list" "Badminton Courts"
       (Cells.world0 (λ _, false))).2
  = [ "Selected 2 features for Facility_Type = 'Badminton Courts'";
      "Created layer Badminton_Courts_Layer" ].
Proof.
  destruct (make_fac_type_layer_spec Cells.sound "facilities_list"
              "Badminton Courts" (Cells.world0 (λ _, false))
              Cells.facilities
              [("Badminton Courts", [10]); ("Badminton Courts", [70])])
    as [H _].
  - vm_compute. reflexivity.
  - vm_compute. reflexivity.
  - rewrite H by reflexivity. vm_compute. reflexivity.
Defined.

(** X12: when the buffer stage returns, the facilities were buffered by
    the given radius into "facilities_buffer", the scratch directory is
    there, and each of the eight categories has its layer: the selection
    of that category from the buffered features, under the path the workers
    read.  No other dataset has changed; 25 engine calls were made and 16
    lines printed. *)
Theorem buffer_stage_layers (P : provider) (radius : Q)
    (facilities_list : string) (w wb : world P) :
  buffer_stage P radius facilities_list w = (Ok tt, wb) →
  ∃ l b,
    datasets w !! facilities_list = Some l ∧ gp_buffer P l radius = Some b
    ∧ shape_dir wb = true
    ∧ datasets wb !! "facilities_buffer" = Some b
    ∧ (∀ ft, ft ∈ FacilityTypes →
         ∃ s, gp_select P b ("Facility_Type = '" +:+ ft +:+ "'") = Some s
              ∧ datasets wb !! fac_type_path ft = Some s)
    ∧ (∀ n, n ≠ "facilities_buffer" → n ∉ fac_type_path <$> FacilityTypes →
         datasets wb !! n = datasets w !! n)
    ∧ length (gp_calls wb) = length (gp_calls w) + 25
    ∧ length (stdout wb) = length (stdout w) + 16.
Proof.
  intros H.
  apply buffer_stage_Ok in H
    as (l & b & H1 & H2 & _ & H4 & _ & _ & _ & H8 & H9 & H10 & H11 & H12).
  exists l, b.
  exact (conj H1 (conj H2 (conj H4 (conj H8 (conj H9
           (conj H10 (conj H11 H12))))))).
Qed.

Lemma buffer_stage_layers_witness :
  shape_dir (buffer_stage Cells.sound 500 "facilities_list"
               (Cells.world0 (λ _, false))).2 = true
  ∧ is_Some (datasets (buffer_stage Cells.sound 500 "facilities_list"
                         (Cells.world0 (λ _, false))).2
               !! fac_type_path "Swimming Pools").
Proof.
  destruct (buffer_stage_layers Cells.sound 500 "facilities_list"
              (Cells.world0 (λ _, false))
              (buffer_stage Cells.sound 500 "facilities_list"
                 (Cells.world0 (λ _, false))).2)
    as (l & b & _ & _ & Hd & _ & Hin & _).
  - apply pair_eta_fst. vm_compute. reflexivity.
  - split; [exact Hd|].
    destruct (Hin "Swimming Pools") as (s & _ & Hs).
    + apply (bool_decide_unpack _). vm_compute. reflexivity.
    + exists s. exact Hs.
Defined.

(** ** What the pool leaves behind *)

Section PoolWorld.
Context (P : provider).
Implicit Types (w : world P) (t : nat * list string).

Lemma worker_step_world w0 t w :
  datasets (worker_step w0 t w)
  = match worker_output w0 t with
    | Some x => <[out_name_of t.1 := x]> (datasets w)
    | None => datasets w
    end
  ∧ shape_dir (worker_step w0 t w) = shape_dir w
  ∧ csv_dir (worker_step w0 t w) = csv_dir w
  ∧ csv_files (worker_step w0 t w) = csv_files w
  ∧ gp_messages (worker_step w0 t w) = gp_messages w
  ∧ length (gp_calls (worker_step w0 t w))
    = length (gp_calls w)
      + match layers_of w0 (fac_type_path <$> t.2) with
        | Some _ => 1
        | None => 0
        end.
Proof.
  unfold worker_step, worker_output.
  destruct (layers_of w0 (fac_type_path <$> t.2)) as [ls|]; simpl.
  2:{ split_and!; try done; lia. }
  destruct (gp_intersect P ls) as [x|]; simpl;
    [destruct (shape_dir w0); simpl|];
    split_and!; try done; by rewrite ?length_app.
Qed.

Lemma world_after_fields w0 tasks completion w :
  shape_dir (world_after P w0 tasks completion w) = shape_dir w
  ∧ csv_dir (world_after P w0 tasks completion w) = csv_dir w
  ∧ csv_files (world_after P w0 tasks completion w) = csv_files w
  ∧ gp_messages (world_after P w0 tasks completion w) = gp_messages w.
Proof.
  revert w. induction completion as [|i c IH]; intros w; [done|].
  simpl. destruct (tasks !! i) as [t|]; [|apply IH].
  destruct (IH (worker_step w0 t w)) as (-> & -> & -> & ->).
  destruct (worker_step_world w0 t w) as (_ & -> & -> & -> & -> & _). done.
Qed.

Lemma world_after_frame w0 tasks completion w n :
  (∀ i, n ≠ out_name_of i) →
  datasets (world_after P w0 tasks completion w) !! n = datasets w !! n.
Proof.
  intros Hn. revert w. induction completion as [|i c IH]; intros w; [done|].
  simpl. destruct (tasks !! i) as [t|]; [|apply IH].
  rewrite IH. destruct (worker_step_world w0 t w) as (-> & _).
  destruct (worker_output w0 t); [|done]. by rewrite lookup_insert_ne.
Qed.

Lemma world_after_output w0 tasks completion w i t :
  (∀ j u, tasks !! j = Some u → u.1 = j) →
  tasks !! i = Some t →
  datasets (world_after P w0 tasks completion w) !! out_name_of i
  = if decide (i ∈ completion) then
      match worker_output w0 t with
      | Some x => Some x
      | None => datasets w !! out_name_of i
      end
    else datasets w !! out_name_of i.
Proof.
  intros Hidx Hi. revert w.
  induction completion as [|j c IH]; intros w; [done|].
  simpl. rewrite IH.
  assert (datasets
            (match tasks !! j with
             | Some u => worker_step w0 u w
             | None => w
             end) !! out_name_of i
          = if decide (j = i) then
              match worker_output w0 t with
              | Some x => Some x
              | None => datasets w !! out_name_of i
              end
            else datasets w !! out_name_of i) as Hstep.
  { destruct (decide (j = i)) as [->|Hne].
    - rewrite Hi. destruct (worker_step_world w0 t w) as (-> & _).
      rewrite (Hidx _ _ Hi).
      destruct (worker_output w0 t); [apply lookup_insert_eq | done].
    - destruct (tasks !! j) as [u|] eqn:Hj; [|done].
      destruct (worker_step_world w0 u w) as (-> & _).
      destruct (worker_output w0 u); [|done].
      rewrite lookup_insert_ne; [done|].
      rewrite (Hidx _ _ Hj). intros Heq. by apply Hne, out_name_of_inj. }
  rewrite Hstep.
  destruct (decide (i ∈ c)) as [Hin|Hnin],
           (decide (i ∈ j :: c)) as [Hin'|Hnin'],
           (decide (j = i)) as [->|Hne];
    try done; try (by destruct (worker_output w0 t));
    try (by destruct Hnin'; first [left | by right]);
    try (apply elem_of_cons in Hin' as [?|?]; by subst).
Qed.

Lemma world_after_calls w0 tasks completion w :
  Forall (λ i, ∃ t, tasks !! i = Some t
                    ∧ is_Some (layers_of w0 (fac_type_path <$> t.2)))
    completion →
  length (gp_calls (world_after P w0 tasks completion w))
  = length (gp_calls w) + length completion.
Proof.
  intros Hall. revert w.
  induction Hall as [|i c (t & Ht & [ls Hls]) _ IH]; intros w; simpl; [lia|].
  rewrite Ht, IH.
  destruct (worker_step_world w0 t w) as (_ & _ & _ & _ & _ & ->).
  rewrite Hls. lia.
Qed.
End PoolWorld.

(** ** Only the engine fails *)

Section Engine.
Context (P : provider).
Implicit Types (w : world P).

Lemma engine_step_ret {A} (a : A) : engine_step (ret P a).
Proof. by intros w. Qed.

Lemma engine_step_call (c : gp_call) : engine_step (call P c).
Proof. by intros w. Qed.

Lemma engine_step_print (line : string) : engine_step (print P line).
Proof. by intros w. Qed.

Lemma engine_step_set_datasets f :
  engine_step (modify P (set_datasets P f)).
Proof. by intros w. Qed.

Lemma engine_step_gp_fail {A} (msg : string) :
  engine_step (gp_fail P (A:=A) msg).
Proof. intros w. by exists msg. Qed.

Lemma engine_step_engine {A} (tool : string) (r : option A) :
  engine_step (engine P tool r).
Proof. destruct r; [apply engine_step_ret | apply engine_step_gp_fail]. Qed.

Lemma engine_step_bind {A B} (m : M P A) (k : A → M P B) :
  engine_step m → (∀ a, engine_step (k a)) → engine_step (m ≫= k).
Proof.
  intros Hm Hk w. specialize (Hm w). munfold.
  destruct (m w) as [[a|e] w1]; [|done].
  specialize (Hk a w1). destruct (k a w1) as [[b|e] w2]; [|done].
  congruence.
Qed.

Lemma engine_step_read_dataset (name : string) :
  engine_step (read_dataset P name).
Proof.
  intros w. unfold read_dataset.
  destruct (datasets w !! name); [done | by eexists].
Qed.

Lemma engine_step_read_datasets (names : list string) :
  engine_step (read_datasets P names).
Proof.
  induction names as [|n names IH]; simpl; [apply engine_step_ret|].
  apply engine_step_bind; [apply engine_step_read_dataset|]. intros l.
  apply engine_step_bind; [done|]. intros ls. apply engine_step_ret.
Qed.

Lemma engine_step_write_dataset (name : string) (l : layer P) :
  engine_step (write_dataset P name l).
Proof.
  intros w. unfold write_dataset.
  destruct (in_shape_dir name && negb (shape_dir w)); [by eexists | done].
Qed.

Lemma engine_step_for_each {A} (xs : list A) (body : A → M P unit) :
  (∀ x, engine_step (body x)) → engine_step (for_each P xs body).
Proof.
  intros Hb. induction xs as [|x xs IH]; simpl; [apply engine_step_ret|].
  apply engine_step_bind; [apply Hb | by intros _].
Qed.

Ltac engine_steps :=
  repeat first
    [ apply engine_step_bind; [|intros ?]
    | apply engine_step_call | apply engine_step_print
    | apply engine_step_ret | apply engine_step_engine
    | apply engine_step_read_dataset | apply engine_step_read_datasets
    | apply engine_step_write_dataset | apply engine_step_set_datasets ].

Lemma engine_step_make_fac_type_layer (feature_class facility_type : string) :
  engine_step (make_fac_type_layer P feature_class facility_type).
Proof.
  unfold make_fac_type_layer, arcpy_SelectLayerByAttribute,
    arcpy_GetCount_management, arcpy_CopyFeatures_management.
  engine_steps.
Qed.

Lemma engine_step_buffer_stage (radius : Q) (facilities_list : string) :
  engine_step (buffer_stage P radius facilities_list).
Proof.
  unfold buffer_stage, arcpy_Buffer_analysis.
  apply engine_step_bind; [engine_steps|]. intros _.
  apply engine_step_for_each. intros ft.
  apply engine_step_make_fac_type_layer.
Qed.

Lemma engine_step_fails {A} (m : M P A) w :
  engine_step m → fails_in_engine m w.
Proof.
  intros Hm. specialize (Hm w). unfold fails_in_engine.
  by destruct (m w) as [[a|e] w1].
Qed.

Lemma fails_in_engine_bind {A B} (m : M P A) (k : A → M P B) w :
  engine_step m →
  (∀ a w1, shape_dir w1 = shape_dir w → fails_in_engine (k a) w1) →
  fails_in_engine (m ≫= k) w.
Proof.
  intros Hm Hk. specialize (Hm w). unfold fails_in_engine in *. munfold.
  destruct (m w) as [[a|e] w1]; [|done]. by apply Hk.
Qed.

Lemma fails_in_engine_rmtree {B} (k : unit → M P B) w :
  shape_dir w = true → (∀ a, engine_step (k a)) →
  fails_in_engine (shutil_rmtree_shape P ≫= k) w.
Proof.
  intros Hd Hk. unfold fails_in_engine, shutil_rmtree_shape. munfold.
  rewrite Hd. apply (engine_step_fails (k tt)), Hk.
Qed.

Lemma aggregate_fails_in_engine (names : list string) w :
  shape_dir w = true → fails_in_engine (aggregate P names) w.
Proof.
  intros Hd. unfold aggregate, arcpy_Merge, arcpy_Clip_analysis.
  apply fails_in_engine_bind; [engine_steps|]. intros _ w1 H1.
  apply fails_in_engine_bind; [engine_steps|]. intros _ w2 H2.
  apply fails_in_engine_rmtree; [congruence|]. intros _.
  unfold arcpy_Dissolve_management, arcpy_Delete_management,
    arcpy_Rename_management, arcpy_MultipartToSinglepart_management.
  engine_steps.
Qed.

Lemma body_fails_in_engine radius facilities_list completion w :
  completion ≡ₚ seq 0 56 →
  fails_in_engine
    (three_or_above_facilities_body P radius facilities_list completion) w.
Proof.
  intros Hp. unfold three_or_above_facilities_body, fails_in_engine.
  pose proof (engine_step_buffer_stage radius facilities_list w) as Hb.
  munfold.
  destruct (buffer_stage P radius facilities_list w) as [[[]|e] wb] eqn:Hbuf;
    [|done].
  apply buffer_stage_Ok in Hbuf
    as (l & b & _ & _ & _ & Hdir & _ & _ & _ & _ & Hlayers & _).
  pose proof (dispatch_returns P completion wb Hp) as Hret.
  rewrite dispatch_spec in Hret |- *. cbn [fst] in Hret.
  rewrite Hret.
  2:{ intros ft Hft. destruct (Hlayers ft Hft) as (s & _ & ->). by eexists. }
  apply aggregate_fails_in_engine.
  by destruct (world_after_fields P wb (combination_tasks FacilityTypes 3)
                 completion wb) as (-> & _).
Qed.
End Engine.

(** X13: whatever the inputs and the engine, the analysis ends normally
    or in an engine error ([ExecuteError]); the workers' assertion cannot
    fail in it, nor can the removal of the scratch directory.  The wrapper
    then prints the engine's own message for that error, under the name of
    the analysis. *)
Theorem run_fails_only_in_engine (P : provider) (radius : Q)
    (facilities_list : string) (completion : list nat) (w w' : world P)
    (e : exn) :
  completion ≡ₚ seq 0 56 →
  three_or_above_facilities P radius facilities_list completion w
  = (Raise e, w') →
  ∃ msg w1,
    e = ExecuteError msg
    ∧ w' = add_stdout P
             ("Error while running three_or_above_facilities(): " +:+ msg) w1.
Proof.
  intros Hp. unfold three_or_above_facilities, exception_handler.
  pose proof (body_fails_in_engine P radius facilities_list completion w Hp)
    as Hb.
  unfold fails_in_engine in Hb.
  destruct (three_or_above_facilities_body P radius facilities_list
              completion w) as [[[]|e1] w1]; [done|].
  destruct Hb as (msg & -> & Hmsg). simpl. intros [= <- <-].
  exists msg, w1. by rewrite Hmsg.
Qed.

Lemma run_fails_only_in_engine_witness :
  ∃ msg w1,
    ExecuteError
      "ERROR 000732: ./shape/FeatureCombination_55.shp does not exist"
    = ExecuteError msg
    ∧ (three_or_above_facilities Cells.flaky 500 "facilities_list"
         (seq 0 56) (Cells.world0 Cells.parks_first)).2
      = add_stdout Cells.flaky
          ("Error while running three_or_above_facilities(): " +:+ msg) w1.
Proof.
  apply (run_fails_only_in_engine Cells.flaky 500 "facilities_list"
           (seq 0 56) (Cells.world0 Cells.parks_first)
           (three_or_above_facilities Cells.flaky 500 "facilities_list"
              (seq 0 56) (Cells.world0 Cells.parks_first)).2
           _ (reflexivity _)).
  apply pair_eta_fst. vm_compute. reflexivity.
Defined.

(** ** From the facilities to the regions *)

Lemma Forall_exists_Forall2 {A B} (R : A → B → Prop) (l : list A) :
  (∀ x, x ∈ l → ∃ y, R x y) → ∃ k, Forall2 R l k.
Proof.
  induction l as [|x l IH]; intros H; [by exists []|].
  destruct (H x) as [y Hy]; [left|].
  destruct IH as [k Hk]; [intros z Hz; apply H; by right|].
  exists (y :: k). by constructor.
Qed.

Lemma combinations_Forall2 {A B} (R : A → B → Prop) (l : list A)
    (k : list B) (r : nat) :
  Forall2 R l k → Forall2 (Forall2 R) (combinations l r) (combinations k r).
Proof.
  intros H. revert r. induction H as [|x y l k Hxy _ IH]; intros [|r]; simpl.
  - by repeat constructor.
  - constructor.
  - by repeat constructor.
  - apply Forall2_app; [|apply IH].
    apply Forall2_fmap, (Forall2_impl _ _ _ _ (IH r)).
    intros c d Hcd. by constructor.
Qed.

Lemma layers_of_Forall2 {P} (w : world P) (names : list string)
    (ls : list (layer P)) :
  layers_of w names = Some ls
  ↔ Forall2 (λ n l, datasets w !! n = Some l) names ls.
Proof.
  revert ls. induction names as [|n names IH]; intros ls; simpl.
  - split; [intros [= <-]; constructor | by inversion 1].
  - destruct (datasets w !! n) as [l|] eqn:Hn.
    + destruct (layers_of w names) as [ls'|] eqn:Hls.
      * split.
        -- intros [= <-]. constructor; [done | by apply IH].
        -- inversion 1 as [|? l' ? ls'' Hl Hrest]; subst.
           apply IH in Hrest. congruence.
      * split; [done|]. inversion 1 as [|? l' ? ls'' Hl Hrest]; subst.
        by apply IH in Hrest.
    + split; [done|]. inversion 1; congruence.
Qed.

Lemma out_name_of_in_shape_dir (i : nat) : in_shape_dir (out_name_of i) = true.
Proof. apply in_shape_dir_prefix. Qed.

Lemma worker_output_Some {P} (w0 : world P) (t : nat * list string)
    (x : layer P) :
  worker_output w0 t = Some x
  ↔ ∃ ls, layers_of w0 (fac_type_path <$> t.2) = Some ls
          ∧ gp_intersect P ls = Some x ∧ shape_dir w0 = true.
Proof.
  unfold worker_output.
  destruct (layers_of w0 (fac_type_path <$> t.2)) as [ls|]; simpl.
  2:{ split; [done | by intros (? & [=] & _)]. }
  destruct (gp_intersect P ls) as [y|] eqn:Hy; simpl.
  2:{ split; [done|]. intros (? & [= <-] & ? & _). congruence. }
  destruct (shape_dir w0).
  - split; [intros [= <-]; by exists ls|].
    intros (? & [= <-] & ? & _). congruence.
  - split; [done | by intros (? & _ & _ & [=])].
Qed.

Section Flow.
Context (P : provider).
Implicit Types (w : world P).

Lemma dispatch_world completion w names wd :
  dispatch P completion w = (Ok names, wd) →
  wd = world_after P w (combination_tasks FacilityTypes 3) completion w.
Proof. rewrite dispatch_spec. by intros [= _ <-]. Qed.

(** The datasets a completed run starts its aggregation from. *)
Lemma run_stages radius facilities_list completion w w' :
  three_or_above_facilities P radius facilities_list completion w
  = (Ok tt, w') →
  ∃ wb names,
    buffer_stage P radius facilities_list w = (Ok tt, wb)
    ∧ (dispatch P completion wb).1 = Ok names
    ∧ aggregate P names
        (world_after P wb (combination_tasks FacilityTypes 3) completion wb)
      = (Ok tt, w').
Proof.
  intros (wb & names & wd & Hb & Hd & Ha)%run_Ok.
  exists wb, names. split; [done|].
  rewrite (dispatch_world _ _ _ _ Hd) in Ha. by rewrite Hd.
Qed.

Lemma not_out_name (n : string) :
  in_shape_dir n = false → ∀ i, n ≠ out_name_of i.
Proof. intros Hn i ->. by rewrite out_name_of_in_shape_dir in Hn. Qed.

Lemma not_layer_path (n : string) :
  in_shape_dir n = false → n ∉ fac_type_path <$> FacilityTypes.
Proof.
  intros Hn (ft & -> & _)%list_elem_of_fmap.
  by rewrite in_shape_dir_fac_type_path in Hn.
Qed.
End Flow.

(** X14: what a completed run computes.  With no output of an earlier run
    left in the scratch directory, and an engine that does not name the
    clip output like the result, the final dataset is the split of the
    dissolve of the merge of 56 intersections: one for each combination of
    three of the eight category layers, in the order of the combinations,
    each layer being the selection of its category from the facilities
    buffered by the radius. *)
Theorem run_data_flow (P : provider) (radius : Q) (facilities_list : string)
    (completion : list nat) (w w' : world P) :
  completion ≡ₚ seq 0 56 →
  (∀ i, datasets w !! out_name_of i = None) →
  gp_auto_name P "ThreeTypeIntersect" ≠ "ThreeTypeIntersect" →
  three_or_above_facilities P radius facilities_list completion w
  = (Ok tt, w') →
  ∃ l b sel ints m d s,
    datasets w !! facilities_list = Some l
    ∧ gp_buffer P l radius = Some b
    ∧ Forall2 (λ ft x,
                 gp_select P b ("Facility_Type = '" +:+ ft +:+ "'") = Some x)
        FacilityTypes sel
    ∧ Forall2 (λ comb x, gp_intersect P comb = Some x)
        (combinations sel 3) ints
    ∧ gp_merge P ints = Some m
    ∧ gp_dissolve P m = Some d
    ∧ gp_split P d = Some s
    ∧ datasets w' !! "ThreeTypeIntersect" = Some s.
Proof.
  intros Hp Hfresh Hauto (wb & names & Hb & Hd & Ha)%run_stages.
  assert (names = out_name_of <$> seq 0 56) as ->
    by (by apply (dispatch_aligned P completion wb)).
  apply buffer_stage_Ok in Hb
    as (l & b & Hl & Hbuf & _ & Hdir & _ & _ & _ & _ & Hlayers & Hframe & _).
  destruct (Forall_exists_Forall2
              (λ ft x, gp_select P b ("Facility_Type = '" +:+ ft +:+ "'")
                       = Some x
                       ∧ datasets wb !! fac_type_path ft = Some x)
              FacilityTypes Hlayers) as [sel Hsel].
  set (tasks := combination_tasks FacilityTypes 3) in *.
  set (wd := world_after P wb tasks completion wb) in *.
  apply aggregate_Ok in Ha
    as (ints & m & c & g & d & s & Hints & Hm & _ & Hg & Hdis & Hspl & Hds & _).
  rewrite after_cleanup_lookup in Hg.
  change (in_shape_dir "ThreeTypeIntersect") with false in Hg.
  cbv iota in Hg.
  destruct (decide ("ThreeTypeIntersect"
                    = gp_auto_name P "ThreeTypeIntersect")) as [Heq|_];
    [by destruct Hauto|].
  destruct (decide ("ThreeTypeIntersect" = "ThreeTypeIntersect"));
    [|done].
  injection Hg as <-.
  exists l, b, sel, ints, m, d, s. split_and!; try done.
  - eapply Forall2_impl; [exact Hsel|]. by intros ft x [? _].
  - apply layers_of_Forall2 in Hints.
    pose proof (combinations_Forall2 _ _ _ 3 Hsel) as Hcomb.
    assert (length (combinations FacilityTypes 3) = 56) as Hlen by done.
    apply Forall2_same_length_lookup_2.
    { rewrite <- (Forall2_length _ _ _ Hcomb), Hlen.
      by rewrite <- (Forall2_length _ _ _ Hints), length_fmap, length_seq. }
    intros i comb x Hcombi Hx.
    rewrite Forall2_lookup in Hcomb. specialize (Hcomb i).
    rewrite Hcombi in Hcomb.
    inversion Hcomb as [cats ? Hcats Hci|]; subst.
    symmetry in Hci.
    assert (tasks !! i = Some (i, cats)) as Hti.
    { unfold tasks, combination_tasks. apply enumerate_lookup. by split. }
    assert (i < 56) as Hi by (rewrite <- Hlen; by eapply lookup_lt_Some).
    rewrite Forall2_lookup in Hints. specialize (Hints i).
    rewrite list_lookup_fmap, lookup_seq_lt, Hx in Hints by done.
    simpl in Hints. inversion Hints as [? ? Hout|]; subst.
    unfold wd in Hout.
    rewrite (world_after_output P wb tasks completion wb i (i, cats)) in Hout;
      [|apply combination_tasks_indexed | done].
    rewrite decide_True in Hout
      by (rewrite Hp; apply elem_of_seq; lia).
    assert (datasets wb !! out_name_of i = None) as Hnone.
    { rewrite Hframe; [apply Hfresh | |].
      - intros Heq. pose proof (out_name_of_in_shape_dir i) as Hin.
        by rewrite Heq in Hin.
      - intros (ft & Heq & _)%list_elem_of_fmap.
        by apply out_name_of_not_layer in Heq. }
    rewrite Hnone in Hout.
    destruct (worker_output wb (i, cats)) as [y|] eqn:Hy; [|done].
    injection Hout as ->.
    apply worker_output_Some in Hy as (ls & Hls & Hint & _).
    simpl in Hls. apply layers_of_Forall2 in Hls.
    assert (ls = comb) as ->; [|done].
    apply Forall2_fmap_l in Hls.
    clear -Hls Hcats. revert ls Hls.
    induction Hcats as [|ft x cats comb [_ Hft] _ IH]; intros ls Hls.
    + by inversion Hls.
    + inversion Hls as [|? y ? ls' Hy Hrest]; subst.
      f_equal; [congruence | by apply IH].
  - rewrite Hds. apply lookup_insert_eq.
Qed.

Lemma run_data_flow_witness :
  ∃ l b sel ints m d s,
    datasets (Cells.world0 (λ _, false)) !! "facilities_list" = Some l
    ∧ gp_buffer Cells.sound l 500 = Some b
    ∧ Forall2 (λ ft x,
                 gp_select Cells.sound b
                   ("Facility_Type = '" +:+ ft +:+ "'") = Some x)
        FacilityTypes sel
    ∧ Forall2 (λ comb x, gp_intersect Cells.sound comb = Some x)
        (combinations sel 3) ints
    ∧ gp_merge Cells.sound ints = Some m
    ∧ gp_dissolve Cells.sound m = Some d
    ∧ gp_split Cells.sound d = Some s
    ∧ datasets
        (three_or_above_facilities Cells.sound 500 "facilities_list"
           (seq 0 56) (Cells.world0 (λ _, false))).2
        !! "ThreeTypeIntersect" = Some s.
Proof.
  apply (run_data_flow Cells.sound 500 "facilities_list" (seq 0 56)
           (Cells.world0 (λ _, false))
           (three_or_above_facilities Cells.sound 500 "facilities_list"
              (seq 0 56) (Cells.world0 (λ _, false))).2
           (reflexivity _)).
  - intros i. unfold Cells.world0. cbn [datasets].
    rewrite !lookup_insert_ne; [apply lookup_empty| |].
    + intros Heq. pose proof (out_name_of_in_shape_dir i) as Hin.
      by rewrite <- Heq in Hin.
    + intros Heq. pose proof (out_name_of_in_shape_dir i) as Hin.
      by rewrite <- Heq in Hin.
  - vm_compute. discriminate.
  - apply pair_eta_fst. vm_compute. reflexivity.
Defined.

(** X15: what a completed run leaves alone and what it leaves behind.
    Every dataset outside the scratch directory other than the buffer, the
    result, its temporary twin and the clip output is as before, the inputs
    included; the temporary dataset is gone; the buffered facilities stay
    in the geodatabase; the CSV folder is untouched. *)
Theorem run_frame (P : provider) (radius : Q) (facilities_list : string)
    (completion : list nat) (w w' : world P) :
  three_or_above_facilities P radius facilities_list completion w
  = (Ok tt, w') →
  datasets w' !! "ThreeTypeIntersect_temp" = None
  ∧ is_Some (datasets w' !! "facilities_buffer")
  ∧ csv_dir w' = csv_dir w ∧ csv_files w' = csv_files w
  ∧ ∀ n, in_shape_dir n = false →
         n ∉ [ "facilities_buffer"; "ThreeTypeIntersect";
               "ThreeTypeIntersect_temp";
               gp_auto_name P "ThreeTypeIntersect" ] →
         datasets w' !! n = datasets w !! n.
Proof.
  intros (wb & names & Hb & _ & Ha)%run_stages.
  apply buffer_stage_Ok in Hb
    as (l & b & _ & _ & _ & _ & Hcd & Hcf & _ & Hbuf & _ & Hframe & _).
  set (tasks := combination_tasks FacilityTypes 3) in *.
  apply aggregate_Ok in Ha
    as (ints & m & c & g & d & s & _ & _ & _ & _ & _ & _ & Hds & _
        & Hcd' & Hcf' & _).
  destruct (world_after_fields P wb tasks completion wb)
    as (_ & Hcd'' & Hcf'' & _).
  split_and!.
  - rewrite Hds, lookup_insert_ne by done. apply lookup_delete_eq.
  - rewrite Hds, lookup_insert_ne, lookup_delete_ne by done.
    rewrite after_cleanup_lookup.
    change (in_shape_dir "facilities_buffer") with false. cbv iota.
    destruct (decide ("facilities_buffer"
                      = gp_auto_name P "ThreeTypeIntersect"));
      [by eexists|].
    destruct (decide ("facilities_buffer" = "ThreeTypeIntersect"));
      [done|].
    rewrite world_after_frame by (by apply not_out_name).
    rewrite Hbuf. by eexists.
  - congruence.
  - congruence.
  - intros n Hn Hnot.
    apply not_elem_of_cons in Hnot as [H1 Hnot].
    apply not_elem_of_cons in Hnot as [H2 Hnot].
    apply not_elem_of_cons in Hnot as [H3 Hnot].
    apply not_elem_of_cons in Hnot as [H4 _].
    rewrite Hds, lookup_insert_ne, lookup_delete_ne by done.
    rewrite after_cleanup_lookup, Hn.
    rewrite !decide_False by done.
    rewrite world_after_frame by (by apply not_out_name).
    apply Hframe; [done | by apply not_layer_path].
Qed.

Lemma run_frame_witness :
  datasets (three_or_above_facilities Cells.sound 500 "facilities_list"
              (seq 0 56) (Cells.world0 (λ _, false))).2
    !! "ThreeTypeIntersect_temp" = None
  ∧ is_Some
      (datasets (three_or_above_facilities Cells.sound 500 "facilities_list"
                   (seq 0 56) (Cells.world0 (λ _, false))).2
         !! "facilities_buffer").
Proof.
  destruct (run_frame Cells.sound 500 "facilities_list" (seq 0 56)
              (Cells.world0 (λ _, false))
              (three_or_above_facilities Cells.sound 500 "facilities_list"
                 (seq 0 56) (Cells.world0 (λ _, false))).2)
    as (H1 & H2 & _).
  - apply pair_eta_fst. vm_compute. reflexivity.
  - split; [exact H1 | exact H2].
Defined.

(** ** A run on an engine that does not fail *)

Section Success.
Context (P : provider).
Implicit Types (w : world P).

Lemma arcpy_Merge_run inps out w ls m :
  layers_of w inps = Some ls → gp_merge P ls = Some m →
  in_shape_dir out = false →
  arcpy_Merge P inps out w
  = (Ok tt, set_datasets P (insert out m) (add_call P (Merge inps out) w)).
Proof.
  intros Hls Hm Hout. unfold arcpy_Merge. munfold.
  erewrite read_datasets_Some by (by erewrite layers_of_ext).
  rewrite Hm. unfold write_dataset. by rewrite Hout.
Qed.

Lemma arcpy_Clip_analysis_run inp clip_features w l c r :
  datasets w !! inp = Some l → datasets w !! clip_features = Some c →
  gp_clip P l c = Some r → shape_dir w = true →
  arcpy_Clip_analysis P inp clip_features None w
  = (Ok tt, set_datasets P (insert (gp_auto_name P inp) r)
              (add_call P (Clip_analysis inp clip_features None) w)).
Proof.
  intros Hl Hc Hr Hd. unfold arcpy_Clip_analysis. munfold.
  unfold read_dataset, write_dataset. simpl. rewrite Hl. simpl.
  rewrite Hc. simpl. rewrite Hr. simpl.
  by rewrite Hd, andb_false_r.
Qed.

Lemma arcpy_Dissolve_management_run inp out w l r :
  datasets w !! inp = Some l → gp_dissolve P l = Some r →
  in_shape_dir out = false →
  arcpy_Dissolve_management P inp out w
  = (Ok tt, set_datasets P (insert out r)
              (add_call P (Dissolve_management inp out) w)).
Proof.
  intros Hl Hr Hout. unfold arcpy_Dissolve_management. munfold.
  unfold read_dataset, write_dataset. simpl. rewrite Hl. simpl.
  rewrite Hr. simpl. by rewrite Hout.
Qed.

Lemma arcpy_MultipartToSinglepart_management_run inp out w l r :
  datasets w !! inp = Some l → gp_split P l = Some r →
  in_shape_dir out = false →
  arcpy_MultipartToSinglepart_management P inp out w
  = (Ok tt, set_datasets P (insert out r)
              (add_call P (MultipartToSinglepart_management inp out) w)).
Proof.
  intros Hl Hr Hout. unfold arcpy_MultipartToSinglepart_management. munfold.
  unfold read_dataset, write_dataset. simpl. rewrite Hl. simpl.
  rewrite Hr. simpl. by rewrite Hout.
Qed.

Lemma arcpy_Delete_management_run name w l :
  datasets w !! name = Some l →
  arcpy_Delete_management P name w
  = (Ok tt, set_datasets P (delete name)
              (add_call P (Delete_management name) w)).
Proof.
  intros Hl. unfold arcpy_Delete_management. munfold.
  unfold read_dataset. simpl. by rewrite Hl.
Qed.

Lemma arcpy_Rename_management_run old new w l :
  datasets w !! old = Some l → in_shape_dir new = false →
  arcpy_Rename_management P old new w
  = (Ok tt, set_datasets P (insert new l)
              (set_datasets P (delete old)
                 (add_call P (Rename_management old new) w))).
Proof.
  intros Hl Hnew. unfold arcpy_Rename_management. munfold.
  unfold read_dataset, write_dataset. simpl. rewrite Hl. simpl.
  by rewrite Hnew.
Qed.

Lemma aggregate_run names w ls hk :
  never_fails P → ls ≠ [] → layers_of w names = Some ls →
  datasets w !! "./Hong_Kong_18_Districts/HKDistrict18.shp" = Some hk →
  shape_dir w = true →
  ∃ w', aggregate P names w = (Ok tt, w').
Proof.
  intros (_ & _ & _ & Hmerge & Hclip & Hdis & Hspl) Hne Hls Hhk Hd.
  destruct (Hmerge ls Hne) as [m Hm].
  destruct (Hclip m hk) as [c Hc].
  unfold aggregate. cbv zeta.
  change ("ThreeTypeIntersect" +:+ "_temp") with "ThreeTypeIntersect_temp".
  rewrite (bind_step P _ _ _ _ _
             (arcpy_Merge_run names "ThreeTypeIntersect" w ls m Hls Hm
                eq_refl)).
  set (w1 := set_datasets P (insert "ThreeTypeIntersect" m)
               (add_call P (Merge names "ThreeTypeIntersect") w)).
  assert (datasets w1 !! "ThreeTypeIntersect" = Some m) as Hm1
    by (unfold w1; cbn [datasets set_datasets add_call];
        apply lookup_insert_eq).
  assert (datasets w1 !! "./Hong_Kong_18_Districts/HKDistrict18.shp"
          = Some hk) as Hhk1.
  { unfold w1. cbn [datasets set_datasets add_call].
    by rewrite lookup_insert_ne. }
  rewrite (bind_step P _ _ _ _ _
             (arcpy_Clip_analysis_run "ThreeTypeIntersect"
                "./Hong_Kong_18_Districts/HKDistrict18.shp" w1 m hk c
                Hm1 Hhk1 Hc Hd)).
  set (w2 := set_datasets P (insert (gp_auto_name P "ThreeTypeIntersect") c)
               (add_call P (Clip_analysis "ThreeTypeIntersect"
                              "./Hong_Kong_18_Districts/HKDistrict18.shp"
                              None) w1)).
  assert (shutil_rmtree_shape P w2
          = (Ok tt,
             set_shape_dir P false
               (set_datasets P (filter (λ kv, in_shape_dir kv.1 = false)) w2)))
    as Hrm by (unfold shutil_rmtree_shape; simpl; by rewrite Hd).
  rewrite (bind_step P _ _ _ _ _ Hrm).
  set (w3 := set_shape_dir P false
               (set_datasets P (filter (λ kv, in_shape_dir kv.1 = false)) w2)).
  assert (datasets w3 = after_cleanup w m c) as Hw3 by done.
  assert (∃ g, datasets w3 !! "ThreeTypeIntersect" = Some g) as [g Hg].
  { rewrite Hw3, after_cleanup_lookup.
    change (in_shape_dir "ThreeTypeIntersect") with false. cbv iota.
    destruct (decide ("ThreeTypeIntersect"
                      = gp_auto_name P "ThreeTypeIntersect"));
      [by eexists|].
    destruct (decide ("ThreeTypeIntersect" = "ThreeTypeIntersect"));
      [by eexists | done]. }
  destruct (Hdis g) as [d Hdd].
  rewrite (bind_step P _ _ _ _ _
             (arcpy_Dissolve_management_run "ThreeTypeIntersect"
                "ThreeTypeIntersect_temp" w3 g d Hg Hdd eq_refl)).
  set (w4 := set_datasets P (insert "ThreeTypeIntersect_temp" d)
               (add_call P (Dissolve_management "ThreeTypeIntersect"
                              "ThreeTypeIntersect_temp") w3)).
  assert (datasets w4 !! "ThreeTypeIntersect" = Some g) as Hg4.
  { unfold w4. cbn [datasets set_datasets add_call].
    by rewrite lookup_insert_ne. }
  rewrite (bind_step P _ _ _ _ _
             (arcpy_Delete_management_run "ThreeTypeIntersect" w4 g Hg4)).
  set (w5 := set_datasets P (delete "ThreeTypeIntersect")
               (add_call P (Delete_management "ThreeTypeIntersect") w4)).
  assert (datasets w5 !! "ThreeTypeIntersect_temp" = Some d) as Hd5.
  { unfold w5, w4. cbn [datasets set_datasets add_call].
    rewrite lookup_delete_ne by done. apply lookup_insert_eq. }
  rewrite (bind_step P _ _ _ _ _
             (arcpy_Rename_management_run "ThreeTypeIntersect_temp"
                "ThreeTypeIntersect" w5 d Hd5 eq_refl)).
  set (w6 := set_datasets P (insert "ThreeTypeIntersect" d)
               (set_datasets P (delete "ThreeTypeIntersect_temp")
                  (add_call P (Rename_management "ThreeTypeIntersect_temp"
                                 "ThreeTypeIntersect") w5))).
  assert (datasets w6 !! "ThreeTypeIntersect" = Some d) as Hd6
    by (unfold w6; cbn [datasets set_datasets add_call];
        apply lookup_insert_eq).
  destruct (Hspl d) as [s Hs].
  rewrite (bind_step P _ _ _ _ _
             (arcpy_MultipartToSinglepart_management_run "ThreeTypeIntersect"
                "ThreeTypeIntersect_temp" w6 d s Hd6 Hs eq_refl)).
  set (w7 := set_datasets P (insert "ThreeTypeIntersect_temp" s)
               (add_call P (MultipartToSinglepart_management
                              "ThreeTypeIntersect" "ThreeTypeIntersect_temp")
                  w6)).
  assert (datasets w7 !! "ThreeTypeIntersect" = Some d) as Hd7.
  { unfold w7. cbn [datasets set_datasets add_call].
    by rewrite lookup_insert_ne. }
  rewrite (bind_step P _ _ _ _ _
             (arcpy_Delete_management_run "ThreeTypeIntersect" w7 d Hd7)).
  set (w8 := set_datasets P (delete "ThreeTypeIntersect")
               (add_call P (Delete_management "ThreeTypeIntersect") w7)).
  assert (datasets w8 !! "ThreeTypeIntersect_temp" = Some s) as Hs8.
  { unfold w8, w7. cbn [datasets set_datasets add_call].
    rewrite lookup_delete_ne by done. apply lookup_insert_eq. }
  rewrite (bind_step P _ _ _ _ _
             (arcpy_Rename_management_run "ThreeTypeIntersect_temp"
                "ThreeTypeIntersect" w8 s Hs8 eq_refl)).
  by eexists.
Qed.

Lemma for_each_layers_run (fts : list string) w b :
  (∀ l q, is_Some (gp_select P l q)) →
  datasets w !! "facilities_buffer" = Some b → shape_dir w = true →
  ∃ w', for_each P fts (make_fac_type_layer P "facilities_buffer") w
        = (Ok tt, w').
Proof.
  intros Hsel. revert w. induction fts as [|x fts IH]; intros w Hb Hd.
  - by eexists.
  - destruct (Hsel b ("Facility_Type = '" +:+ x +:+ "'")) as [s Hs].
    simpl.
    rewrite (bind_step P _ _ _ _ _
               (proj2 (make_fac_type_layer_Ok P "facilities_buffer" x w _)
                  (ex_intro _ b (ex_intro _ s
                     (conj Hb (conj Hs (conj Hd eq_refl))))))).
    apply IH; [|done]. cbn [datasets].
    rewrite lookup_insert_ne; [done|]. intros Heq.
    pose proof (in_shape_dir_fac_type_path x) as Hp. by rewrite Heq in Hp.
Qed.

Lemma buffer_stage_run radius facilities_list w l :
  never_fails P → datasets w !! facilities_list = Some l →
  shape_dir w = true →
  ∃ wb, buffer_stage P radius facilities_list w = (Ok tt, wb).
Proof.
  intros (Hbuf & Hsel & _) Hl Hd.
  destruct (Hbuf l radius) as [b Hb].
  unfold buffer_stage. cbv zeta.
  rewrite (bind_step P _ _ _ _ _
             (arcpy_Buffer_analysis_run P facilities_list "facilities_buffer"
                radius w l b Hl Hb eq_refl)).
  apply (for_each_layers_run _ _ b); [done | | done].
  cbn [datasets set_datasets add_call]. apply lookup_insert_eq.
Qed.

Lemma exists_layers_of w (names : list string) :
  (∀ n, n ∈ names → is_Some (datasets w !! n)) →
  ∃ ls, layers_of w names = Some ls.
Proof.
  intros H. by apply (first_missing_None P), first_missing_None_iff.
Qed.
End Success.

(** X16: on an engine none of whose tools fails, with the facilities and
    the boundary in place and the scratch directory there, the analysis
    completes whatever the radius: it makes 89 engine calls (1 buffer, 3
    per category, 56 intersections, 8 for the aggregation) and its last
    printed line reports the result. *)
Theorem run_succeeds (P : provider) (radius : Q) (facilities_list : string)
    (completion : list nat) (w : world P) :
  never_fails P →
  is_Some (datasets w !! facilities_list) →
  is_Some (datasets w !! "./Hong_Kong_18_Districts/HKDistrict18.shp") →
  shape_dir w = true →
  completion ≡ₚ seq 0 56 →
  ∃ w',
    three_or_above_facilities P radius facilities_list completion w
    = (Ok tt, w')
    ∧ last (stdout w') = Some "Successfully saved to ThreeTypeIntersect"
    ∧ length (gp_calls w') = length (gp_calls w) + 89.
Proof.
  intros Hnf [l Hl] [hk Hhk] Hd Hp.
  assert (length (combination_tasks FacilityTypes 3) = 56) as Hlen by done.
  destruct (buffer_stage_run P radius facilities_list w l Hnf Hl Hd)
    as [wb Hb].
  pose proof Hb as Hb'.
  apply buffer_stage_Ok in Hb'
    as (l' & b & _ & _ & _ & Hdb & _ & _ & _ & _ & Hlayers & Hframe
        & Hcalls & _).
  set (tasks := combination_tasks FacilityTypes 3) in *.
  set (wd := world_after P wb tasks completion wb).
  assert (∀ ft, ft ∈ FacilityTypes →
            is_Some (datasets wb !! fac_type_path ft)) as Hall.
  { intros ft Hft. destruct (Hlayers ft Hft) as (s & _ & ->). by eexists. }
  assert (dispatch P completion wb = (Ok (out_name_of <$> seq 0 56), wd))
    as Hdisp.
  { pose proof (dispatch_returns P completion wb Hp Hall) as Hret.
    rewrite dispatch_spec in Hret |- *. cbn [fst] in Hret.
    by rewrite Hret. }
  assert (∀ i t, tasks !! i = Some t →
            ∃ ls, ls ≠ []
                  ∧ layers_of wb (fac_type_path <$> t.2) = Some ls) as Htask.
  { intros i t Ht.
    destruct (exists_layers_of P wb (fac_type_path <$> t.2)) as [ls Hls].
    - intros n (ft & -> & Hft)%list_elem_of_fmap. apply Hall.
      by eapply (combination_tasks_member FacilityTypes 3 i t).
    - exists ls. split; [|done]. intros ->.
      apply layers_of_Forall2, Forall2_length in Hls.
      rewrite length_fmap in Hls.
      apply enumerate_lookup in Ht as [_ Ht].
      apply list_elem_of_lookup_2, elem_of_combinations in Ht as [_ Ht].
      simpl in Hls. lia. }
  pose proof Hnf as (_ & _ & Hint & _).
  assert (∀ n, n ∈ out_name_of <$> seq 0 56 → is_Some (datasets wd !! n))
    as Houts.
  { intros n (i & -> & [_ Hi]%elem_of_seq)%list_elem_of_fmap.
    destruct (lookup_lt_is_Some_2 tasks i) as [t Ht]; [lia|].
    destruct (Htask i t Ht) as (ls & Hne & Hls).
    destruct (Hint ls Hne) as [x Hx].
    unfold wd.
    rewrite (world_after_output P wb tasks completion wb i t);
      [|apply combination_tasks_indexed | done].
    rewrite decide_True by (rewrite Hp; apply elem_of_seq; lia).
    rewrite (proj2 (worker_output_Some wb t x)); [by eexists|].
    by exists ls. }
  destruct (exists_layers_of P wd _ Houts) as [ints Hints].
  destruct (aggregate_run P (out_name_of <$> seq 0 56) wd ints hk)
    as [w' Hagg].
  - exact Hnf.
  - intros ->. apply layers_of_Forall2, Forall2_length in Hints.
    by rewrite length_fmap, length_seq in Hints.
  - exact Hints.
  - unfold wd. rewrite world_after_frame by (by apply not_out_name).
    rewrite Hframe; [done | done | by apply not_layer_path].
  - unfold wd.
    by destruct (world_after_fields P wb tasks completion wb) as (-> & _).
  - exists w'. split.
    + unfold three_or_above_facilities. apply exception_handler_Ok.
      unfold three_or_above_facilities_body.
      rewrite (bind_step P _ _ _ _ _ Hb).
      by rewrite (bind_step P _ _ _ _ _ Hdisp).
    + apply aggregate_Ok in Hagg
        as (? & ? & ? & ? & ? & ? & _ & _ & _ & _ & _ & _ & _ & _ & _ & _ & _
            & Hso & Hc).
      split; [by rewrite Hso, last_snoc|].
      rewrite Hc, length_app. unfold wd.
      rewrite (world_after_calls P wb tasks completion wb).
      * rewrite Hcalls, Hp, length_seq. simpl. lia.
      * apply Forall_forall. intros i Hi. rewrite Hp in Hi.
        apply elem_of_seq in Hi as [_ Hi].
        destruct (lookup_lt_is_Some_2 tasks i) as [t Ht]; [lia|].
        destruct (Htask i t Ht) as (ls & _ & Hls).
        exists t. split; [done | by eexists].
Qed.

Lemma Cells_sound_never_fails : never_fails Cells.sound.
Proof.
  unfold never_fails. simpl. split_and!; try (intros; by eexists).
  intros [|l ls] Hne; [done | by eexists].
Qed.

Lemma run_succeeds_witness :
  ∃ w',
    three_or_above_facilities Cells.sound 500 "facilities_list" (seq 0 56)
      (Cells.world0 (λ _, false))
    = (Ok tt, w')
    ∧ last (stdout w') = Some "Successfully saved to ThreeTypeIntersect"
    ∧ length (gp_calls w')
      = length (gp_calls (Cells.world0 (λ _, false))) + 89.
Proof.
  apply (run_succeeds Cells.sound 500 "facilities_list" (seq 0 56)
           (Cells.world0 (λ _, false)) Cells_sound_never_fails).
  - exists Cells.facilities. vm_compute. reflexivity.
  - exists Cells.hk_boundary. vm_compute. reflexivity.
  - reflexivity.
  - reflexivity.
Defined.

(** ** One worker *)

(** X17: a worker whose three layers exist and whose intersection the
    engine computes, with the scratch directory there, records one
    Intersect call on the layers in the order of the combination, writes
    the intersection under the output name of its index, prints nothing and
    returns that name.  A worker with a missing layer raises an
    [AssertionError] that names the first missing layer in the order of the
    combination, before any engine call. *)
Theorem process_combination_spec (P : provider) (index : nat)
    (fac_type_comb : list string) (w : world P) :
  (∀ ls x,
     layers_of w (fac_type_path <$> fac_type_comb) = Some ls →
     gp_intersect P ls = Some x →
     shape_dir w = true →
     process_combination P index fac_type_comb w
     = (Ok (out_name_of index),
        set_datasets P (insert (out_name_of index) x)
          (add_call P (Intersect_analysis (fac_type_path <$> fac_type_comb)
                         (out_name_of index)) w)))
  ∧ (∀ name,
       first_missing w (fac_type_path <$> fac_type_comb) = Some name →
       process_combination P index fac_type_comb w
       = (Raise (AssertionError name), w)).
Proof.
  split.
  - intros ls x Hls Hx Hd. unfold process_combination. munfold.
    rewrite collect_layers_spec.
    rewrite (layers_of_first_missing _ _ _ _ Hls). simpl.
    unfold arcpy_Intersect_analysis. munfold.
    erewrite read_datasets_Some by (by erewrite layers_of_ext).
    rewrite Hx. unfold write_dataset. simpl. rewrite Hd.
    by rewrite ?andb_false_r.
  - intros name Hm. unfold process_combination. munfold.
    by rewrite collect_layers_spec, Hm.
Qed.

(** ** Counting and sorting *)

Lemma foldl_foldr_reverse {A B} (f : A → B → A) (a : A) (l : list B) :
  foldl f a l = foldr (λ x acc, f acc x) a (reverse l).
Proof.
  revert a. induction l as [|x l IH]; intros a; simpl; [done|].
  by rewrite IH, reverse_cons, foldr_app.
Qed.

Lemma filter_none {A} (Q : A → Prop) `{!∀ x, Decision (Q x)} (l : list A) :
  Forall (λ x, ¬ Q x) l → filter Q l = [].
Proof.
  induction 1 as [|x l Hx _ IH]; [done|].
  rewrite filter_cons. by destruct (decide (Q x)).
Qed.

Section CounterFacts.
Context {K : Type} `{!EqDecision K}.
Implicit Types (x y : K) (c : list (K * nat)) (xs : list K).

Lemma counter_add_keys x c :
  (counter_add x c).*1 = if decide (x ∈ c.*1) then c.*1 else c.*1 ++ [x].
Proof.
  induction c as [|[y n] c IH]; csimpl.
  - destruct (decide (x ∈ [])) as [H|_]; [by apply elem_of_nil in H | done].
  - destruct (decide (x = y)) as [->|Hne]; csimpl.
    + destruct (decide (y ∈ y :: c.*1)) as [_|H]; [done | destruct H; left].
    + rewrite IH.
      destruct (decide (x ∈ c.*1)), (decide (x ∈ y :: c.*1)) as [H'|H'];
        try done.
      * destruct H'. by right.
      * by apply elem_of_cons in H' as [?|?].
Qed.

Lemma counter_add_count_in x c y :
  count_in (counter_add x c) y
  = count_in c y + (if decide (x = y) then 1 else 0).
Proof.
  unfold count_in. induction c as [|[z n] c IH]; cbn [counter_add].
  - rewrite filter_cons, filter_nil. cbn [fst].
    destruct (decide (x = y)); csimpl; lia.
  - destruct (decide (x = z)) as [->|Hne]; rewrite !filter_cons; cbn [fst].
    + destruct (decide (z = y)); csimpl; lia.
    + destruct (decide (z = y)); csimpl; rewrite IH; lia.
Qed.

Lemma counter_add_sum x c :
  sum_list (counter_add x c).*2 = S (sum_list c.*2).
Proof.
  induction c as [|[z n] c IH]; cbn [counter_add]; [done|].
  destruct (decide (x = z)); csimpl; [done|]. rewrite IH. lia.
Qed.

Lemma count_in_NoDup c y n :
  NoDup c.*1 → (y, n) ∈ c → count_in c y = n.
Proof.
  unfold count_in. induction c as [|[z k] c IH]; csimpl.
  - by intros _ ?%elem_of_nil.
  - intros [Hz Hnd]%NoDup_cons Hin. rewrite filter_cons. cbn [fst].
    apply elem_of_cons in Hin as [[= -> ->]|Hin].
    + destruct (decide (z = z)); [|done]. csimpl.
      assert (filter (λ p : K * nat, p.1 = z) c = []) as ->; [|simpl; lia].
      apply filter_none, Forall_forall. intros [u m] Hu Heq.
      simpl in Heq. subst.
      apply Hz. by apply (list_elem_of_fmap_2 fst) in Hu.
    + destruct (decide (z = y)) as [->|_]; [|by apply IH].
      destruct Hz. by apply (list_elem_of_fmap_2 fst) in Hin.
Qed.

Lemma Counter_count_in xs y : count_in (Counter xs) y = occurrences y xs.
Proof.
  unfold Counter, occurrences.
  assert (∀ c, count_in (foldl (λ c x, counter_add x c) c xs) y
               = count_in c y + length (filter (λ z, z = y) xs)) as H.
  { induction xs as [|x xs IH]; intros c; simpl; [lia|].
    rewrite IH, counter_add_count_in, filter_cons.
    destruct (decide (x = y)); simpl; lia. }
  by rewrite H.
Qed.

Lemma Counter_keys xs : (Counter xs).*1 = first_occurrences xs.
Proof.
  unfold Counter, first_occurrences. rewrite foldl_foldr_reverse.
  induction (reverse xs) as [|y ys IH]; simpl; [done|].
  rewrite counter_add_keys, IH.
  destruct (decide_rel elem_of y ys) as [Hin|Hnin],
           (decide (y ∈ reverse (remove_dups ys))) as [Hin'|Hnin'].
  - done.
  - destruct Hnin'. by rewrite elem_of_reverse, elem_of_remove_dups.
  - destruct Hnin. by rewrite elem_of_reverse, elem_of_remove_dups in Hin'.
  - by rewrite reverse_cons.
Qed.

Lemma Counter_NoDup xs : NoDup (Counter xs).*1.
Proof.
  rewrite Counter_keys. unfold first_occurrences.
  rewrite reverse_Permutation. apply NoDup_remove_dups.
Qed.

Lemma elem_of_first_occurrences xs y : y ∈ first_occurrences xs ↔ y ∈ xs.
Proof.
  unfold first_occurrences.
  by rewrite elem_of_reverse, elem_of_remove_dups, elem_of_reverse.
Qed.

Lemma occurrences_pos xs y : y ∈ xs → (0 < occurrences y xs)%nat.
Proof.
  unfold occurrences. intros Hin.
  assert (y ∈ filter (λ z, z = y) xs) as Hf by (by apply list_elem_of_filter).
  destruct (filter (λ z, z = y) xs); [by apply elem_of_nil in Hf|simpl; lia].
Qed.

Lemma Counter_entry xs y n :
  (y, n) ∈ Counter xs → n = occurrences y xs ∧ (0 < n)%nat.
Proof.
  intros Hin.
  assert (n = occurrences y xs) as ->.
  { rewrite <- Counter_count_in. symmetry.
    apply count_in_NoDup; [apply Counter_NoDup | done]. }
  split; [done|]. apply occurrences_pos, elem_of_first_occurrences.
  rewrite <- Counter_keys. by apply (list_elem_of_fmap_2 fst) in Hin.
Qed.

Lemma Counter_sum xs : sum_list (Counter xs).*2 = length xs.
Proof.
  unfold Counter.
  assert (∀ c, sum_list (foldl (λ c x, counter_add x c) c xs).*2
               = sum_list c.*2 + length xs) as H.
  { induction xs as [|x xs IH]; intros c; simpl; [lia|].
    rewrite IH, counter_add_sum. lia. }
  by rewrite H.
Qed.

Lemma insert_by_count_perm (p : K * nat) c : insert_by_count p c ≡ₚ p :: c.
Proof.
  induction c as [|q c IH]; simpl; [done|].
  case_decide; [|done]. rewrite IH. apply Permutation_swap.
Qed.

Lemma sort_by_count_perm c : sort_by_count c ≡ₚ c.
Proof.
  induction c as [|p c IH]; simpl; [done|].
  by rewrite insert_by_count_perm, IH.
Qed.

Lemma insert_by_count_sorted (p : K * nat) c :
  StronglySorted (λ a b, (b.2 ≤ a.2)%nat) c →
  StronglySorted (λ a b, (b.2 ≤ a.2)%nat) (insert_by_count p c).
Proof.
  induction 1 as [|q c Hc IH Hq]; simpl.
  - by repeat constructor.
  - case_decide as Hlt.
    + constructor; [done|]. rewrite insert_by_count_perm.
      constructor; [lia | done].
    + constructor; [by constructor|]. constructor; [lia|].
      eapply Forall_impl; [exact Hq|]. simpl. intros; lia.
Qed.

Lemma sort_by_count_sorted c :
  StronglySorted (λ a b, (b.2 ≤ a.2)%nat) (sort_by_count c).
Proof.
  induction c as [|p c IH]; simpl; [constructor|].
  by apply insert_by_count_sorted.
Qed.

Lemma insert_by_count_filter (p : K * nat) c n :
  StronglySorted (λ a b, (b.2 ≤ a.2)%nat) c →
  filter (λ q, q.2 = n) (insert_by_count p c)
  = filter (λ q, q.2 = n) (p :: c).
Proof.
  induction 1 as [|q c Hc IH Hq]; simpl; [done|].
  case_decide as Hlt; [|done].
  rewrite !filter_cons, IH, !filter_cons.
  destruct (decide (q.2 = n)), (decide (p.2 = n)); try done. lia.
Qed.

Lemma sort_by_count_stable c n :
  filter (λ q, q.2 = n) (sort_by_count c) = filter (λ q, q.2 = n) c.
Proof.
  induction c as [|p c IH]; simpl; [done|].
  rewrite insert_by_count_filter by apply sort_by_count_sorted.
  by rewrite !filter_cons, IH.
Qed.

Lemma filter_keys_by_count c (g : K → nat) n :
  (∀ p, p ∈ c → p.2 = g p.1) →
  (filter (λ q, q.2 = n) c).*1 = filter (λ v, g v = n) c.*1.
Proof.
  induction c as [|p c IH]; intros H; [done|].
  assert ((filter (λ q, q.2 = n) c).*1 = filter (λ v, g v = n) c.*1) as IH'
    by (apply IH; intros q Hq; apply H; by right).
  rewrite fmap_cons, !filter_cons. rewrite (H p) by left.
  destruct (decide (g p.1 = n)); [rewrite fmap_cons|]; by rewrite IH'.
Qed.
End CounterFacts.

Section Reports.
Context (P : provider) {F : Type}.
Implicit Types (w : world P) (self : FacilityFeature F).

Lemma for_each_print {A} (f : A → string) (xs : list A) w :
  for_each P xs (λ x, print P (f x)) w
  = (Ok tt, foldl (λ w l, add_stdout P l w) w (f <$> xs)).
Proof.
  revert w. induction xs as [|x xs IH]; intros w; simpl; [done|].
  munfold. by rewrite IH.
Qed.

Lemma count_facility_by_x_run self attr w :
  count_facility_by_x P self attr w
  = (Ok tt,
     foldl (λ w l, add_stdout P l w) w
       ([ "Here are the facilities count by " +:+ field_name attr +:+ ":" ]
        ++ (count_line <$>
              sort_by_count
                (Counter ((λ fac, getattr fac attr) <$> fac_list self)))
        ++ [""])).
Proof.
  unfold count_facility_by_x. cbv zeta.
  rewrite (bind_step P (print P _) _ w tt _ eq_refl).
  rewrite (bind_step P _ _ _ tt _ (for_each_print count_line _ _)).
  unfold print, modify. simpl. by rewrite foldl_app.
Qed.
End Reports.

(** X18: the report of [count_facility_by_x] is a header line, one line per
    distinct value of the attribute among the facilities ([None] included),
    and an empty line; each value is listed once, with the number of
    facilities that have it, which is positive, and the counts add up to
    the number of facilities.  Nothing but the output is touched. *)
Theorem count_facility_by_x_report (P : provider) {F : Type}
    (self : FacilityFeature F) (attr : text_field) (w : world P) :
  ∃ counts w',
    count_facility_by_x P self attr w = (Ok tt, w')
    ∧ stdout w'
      = stdout w
        ++ [ "Here are the facilities count by " +:+ field_name attr +:+ ":" ]
        ++ (count_line <$> counts) ++ [""]
    ∧ datasets w' = datasets w ∧ gp_calls w' = gp_calls w
    ∧ NoDup counts.*1
    ∧ counts.*1
      ≡ₚ first_occurrences ((λ fac, getattr fac attr) <$> fac_list self)
    ∧ (∀ v n, (v, n) ∈ counts →
         n = occurrences v ((λ fac, getattr fac attr) <$> fac_list self)
         ∧ (0 < n)%nat)
    ∧ sum_list counts.*2 = length (fac_list self).
Proof.
  set (values := (λ fac, getattr fac attr) <$> fac_list self).
  exists (sort_by_count (Counter values)). eexists.
  split; [apply count_facility_by_x_run|].
  destruct (add_stdout_lines_datasets P w
              ([ "Here are the facilities count by " +:+ field_name attr
                 +:+ ":" ]
               ++ (count_line <$> sort_by_count (Counter values)) ++ [""]))
    as (Hd & _ & _ & _ & _ & Hc & Hs).
  fold values. split_and!.
  - exact Hs.
  - exact Hd.
  - exact Hc.
  - rewrite (sort_by_count_perm (Counter values)). apply Counter_NoDup.
  - by rewrite (sort_by_count_perm (Counter values)), Counter_keys.
  - intros v n Hin. apply Counter_entry.
    by rewrite <- (sort_by_count_perm (Counter values)).
  - rewrite (sort_by_count_perm (Counter values)), Counter_sum.
    unfold values. by rewrite length_fmap.
Qed.

(** X19: the lines of the report come in the order of the counts, larger
    counts first, and values with the same count come in the order in which
    they first occur in the facility list. *)
Theorem count_facility_by_x_order (P : provider) {F : Type}
    (self : FacilityFeature F) (attr : text_field) (w : world P) :
  let values := (λ fac, getattr fac attr) <$> fac_list self in
  let counts := sort_by_count (Counter values) in
  stdout (count_facility_by_x P self attr w).2
  = stdout w
    ++ [ "Here are the facilities count by " +:+ field_name attr +:+ ":" ]
    ++ (count_line <$> counts) ++ [""]
  ∧ StronglySorted (λ a b, (b.2 ≤ a.2)%nat) counts
  ∧ ∀ n, (filter (λ q, q.2 = n) counts).*1
         = filter (λ v, occurrences v values = n) (first_occurrences values).
Proof.
  intros values counts. subst counts values. split_and!.
  - rewrite count_facility_by_x_run. cbn [snd].
    by destruct (add_stdout_lines_datasets P w
                   ([ "Here are the facilities count by " +:+ field_name attr
                      +:+ ":" ]
                    ++ (count_line <$>
                          sort_by_count
                            (Counter ((λ fac, getattr fac attr)
                                      <$> fac_list self)))
                    ++ [""]))
      as (_ & _ & _ & _ & _ & _ & ->).
  - apply sort_by_count_sorted.
  - intros n. rewrite sort_by_count_stable.
    rewrite <- Counter_keys.
    apply (filter_keys_by_count _
             (λ v, occurrences v ((λ fac, getattr fac attr)
                                  <$> fac_list self))).
    intros [v m] Hin. simpl. by apply Counter_entry in Hin as [-> _].
Qed.

Example count_facility_by_district_sample :
  stdout
    (count_facility_by_district Cells.sound
       (mkFacilityFeature WORKSPACE sample_facilities "sport_facilities")
       (Cells.world0 (λ _, false))).2
  = [ "Here are the facilities count by district:";
      "Kowloon City: 2"; "Sha Tin: 1"; "None: 1"; "" ].
Proof. vm_compute. reflexivity. Qed.

(** ** The point list *)

Lemma fill_points_enumerate {F} (xs : list (SportFacility F)) :
  ∀ (k : nat) (pre : list (option (PointGeometry F))),
    length pre = k →
    fill_points (enumerate_from k xs) (pre ++ replicate (length xs) None)
    = Ok (pre ++ ((λ t, Some (mkPointGeometry (easting t.2) (northing t.2)
                                t.1))
                  <$> enumerate_from k xs)).
Proof.
  induction xs as [|x xs IH]; intros k pre Hk; simpl; [done|].
  unfold setitem. rewrite decide_True by (rewrite length_app; simpl; lia).
  simpl. subst k.
  rewrite insert_app_r_alt by lia. rewrite Nat.sub_diag. simpl.
  rewrite (cons_middle _ pre), app_assoc.
  rewrite IH by (rewrite length_app; simpl; lia).
  by rewrite <- app_assoc.
Qed.

(** X20: the list allocated with one [None] per facility is filled
    completely: the loop never indexes out of range, and slot [i] ends up
    holding the point of the facility at position [i], with its easting
    as X, its northing as Y and [i] as ID. *)
Theorem point_geometries_filled {F : Type} (self : FacilityFeature F) :
  point_geometries self
  = Ok ((λ t, Some (mkPointGeometry (easting t.2) (northing t.2) t.1))
        <$> enumerate (fac_list self)).
Proof.
  unfold point_geometries, enumerate.
  apply (fill_points_enumerate (fac_list self) 0 []). done.
Qed.

(** ** bonus1.py *)

Lemma first_occurrences_snoc {K} `{!EqDecision K} (xs : list K) (x : K) :
  first_occurrences (xs ++ [x])
  = if decide (x ∈ xs) then first_occurrences xs
    else first_occurrences xs ++ [x].
Proof.
  unfold first_occurrences. rewrite reverse_app. simpl.
  destruct (decide (x ∈ xs)) as [Hin|Hin]; case_decide as Hr;
    rewrite elem_of_reverse in Hr; try done.
  by rewrite reverse_cons.
Qed.

Lemma first_occurrences_NoDup {K} `{!EqDecision K} (xs : list K) :
  NoDup (first_occurrences xs).
Proof.
  unfold first_occurrences. rewrite reverse_Permutation.
  apply NoDup_remove_dups.
Qed.

Section DictFacts.
Context {V : Type}.
Implicit Types (d : dict V) (k : string) (v : V).

Lemma dict_get_None k d : dict_get k d = None ↔ k ∉ d.*1.
Proof.
  induction d as [|[k' v'] d IH]; simpl.
  - split; [intros _; apply not_elem_of_nil|done].
  - destruct (decide (k = k')) as [->|Hne].
    + split; [done|]. intros H. destruct H. by left.
    + rewrite IH, not_elem_of_cons. tauto.
Qed.

Lemma dict_set_fresh k v d : k ∉ d.*1 → dict_set k v d = d ++ [(k, v)].
Proof.
  induction d as [|[k' v'] d IH]; simpl; [done|].
  rewrite not_elem_of_cons. intros [Hne Hd].
  rewrite decide_False by done. by rewrite IH.
Qed.

Lemma dict_get_snoc k v d : k ∉ d.*1 → dict_get k (d ++ [(k, v)]) = Some v.
Proof.
  induction d as [|[k' v'] d IH]; simpl.
  - intros _. by rewrite decide_True.
  - rewrite not_elem_of_cons. intros [Hne Hd].
    rewrite decide_False by done. by apply IH.
Qed.

Lemma dict_set_snoc k v v' d :
  k ∉ d.*1 → dict_set k v' (d ++ [(k, v)]) = d ++ [(k, v')].
Proof.
  induction d as [|[k0 v0] d IH]; simpl.
  - intros _. by rewrite decide_True.
  - rewrite not_elem_of_cons. intros [Hne Hd].
    rewrite decide_False by done. by rewrite IH.
Qed.

Lemma dict_get_fmap (g : string → V) k (l : list string) :
  k ∈ l → dict_get k ((λ t, (t, g t)) <$> l) = Some (g k).
Proof.
  induction l as [|t l IH]; [by intros ?%elem_of_nil|].
  rewrite elem_of_cons. intros Hin. csimpl.
  destruct (decide (k = t)) as [->|Hne]; [done|].
  apply IH. by destruct Hin.
Qed.

Lemma dict_set_fmap (g : string → V) k v (l : list string) :
  NoDup l → k ∈ l →
  dict_set k v ((λ t, (t, g t)) <$> l)
  = (λ t, (t, if decide (t = k) then v else g t)) <$> l.
Proof.
  induction l as [|t l IH]; [by intros _ ?%elem_of_nil|].
  rewrite NoDup_cons, elem_of_cons. intros [Ht Hnd] Hin. csimpl.
  destruct (decide (k = t)) as [->|Hne].
  - rewrite decide_True by done. f_equal.
    apply list_fmap_ext. intros i t' Hi%list_elem_of_lookup_2.
    rewrite decide_False; [done|]. by intros ->.
  - rewrite decide_False by done. f_equal.
    apply IH; [done|]. by destruct Hin.
Qed.
End DictFacts.

Lemma group_by_keys {A} (key : A → string) (xs : list A) :
  (group_by key xs).*1 = first_occurrences (key <$> xs).
Proof.
  unfold group_by. rewrite <- list_fmap_compose.
  rewrite <- (list_fmap_id (first_occurrences _)) at 2.
  by apply list_fmap_ext.
Qed.

Lemma filter_key_fresh {A} (key : A → string) (xs : list A) (t : string) :
  t ∉ key <$> xs → filter (λ x, key x = t) xs = [].
Proof.
  intros Hn. induction xs as [|x xs IH]; [done|].
  rewrite fmap_cons, not_elem_of_cons in Hn. destruct Hn as [Hne Hn].
  rewrite filter_cons, decide_False by done. by apply IH.
Qed.

Section Bonus1Facts.
Context {F : Type}.
Variable geodesic_km : F * F → F * F → result F.
Variable float_le : F → F → bool.
Variable title : string → string.
Variables lat0 lon0 distance_km : F.

Local Notation "'type_of'" := (facility_type_of title).
Local Notation "'near'" := (within_distance geodesic_km float_le lat0 lon0 distance_km).
Local Notation "'step'" := (filter_step geodesic_km float_le title lat0 lon0 distance_km).
Local Notation "'loop'" := (filter_loop geodesic_km float_le title lat0 lon0 distance_km).

(** Adding one facility to the groups built so far. *)
Lemma group_by_snoc (xs : list (SportFacility F)) (f : SportFacility F) :
  let d := group_by type_of xs in
  let d1 := match dict_get (type_of f) d with
            | None => dict_set (type_of f) [] d
            | Some _ => d
            end in
  ∃ group, dict_get (type_of f) d1 = Some group
           ∧ dict_set (type_of f) (group ++ [f]) d1
             = group_by type_of (xs ++ [f]).
Proof.
  intros d d1. subst d1 d.
  destruct (decide (type_of f ∈ type_of <$> xs)) as [Hin|Hin].
  - assert (Hin' : type_of f ∈ first_occurrences (type_of <$> xs))
      by (by apply elem_of_first_occurrences).
    assert (Hget : dict_get (type_of f) (group_by type_of xs)
                   = Some (filter (λ x, type_of x = type_of f) xs))
      by apply (dict_get_fmap (λ t, filter (λ x, type_of x = t) xs)
                  _ _ Hin').
    rewrite Hget. eexists. split; [exact Hget|].
    unfold group_by.
    rewrite (dict_set_fmap (λ t, filter (λ x, type_of x = t) xs))
      by (done || apply first_occurrences_NoDup).
    rewrite fmap_app. change (type_of <$> [f]) with [type_of f].
    rewrite first_occurrences_snoc, decide_True by done.
    apply list_fmap_ext. intros i t _. f_equal.
    rewrite filter_app, filter_cons, filter_nil.
    destruct (decide (t = type_of f)) as [->|Hne].
    + by rewrite decide_True.
    + rewrite decide_False by done. by rewrite app_nil_r.
  - assert (Hk : type_of f ∉ (group_by type_of xs).*1).
    { rewrite group_by_keys. by rewrite elem_of_first_occurrences. }
    rewrite (proj2 (dict_get_None _ _) Hk).
    rewrite dict_set_fresh by done.
    exists []. split; [by apply dict_get_snoc|].
    rewrite dict_set_snoc by done.
    unfold group_by. rewrite fmap_app.
    change (type_of <$> [f]) with [type_of f].
    rewrite first_occurrences_snoc, decide_False by done.
    rewrite fmap_app. csimpl.
    f_equal.
    + apply list_fmap_ext. intros i t Ht%list_elem_of_lookup_2. f_equal.
      rewrite filter_app, filter_cons, filter_nil.
      rewrite decide_False; [by rewrite app_nil_r|].
      intros Heq. apply Hin. rewrite Heq.
      by apply elem_of_first_occurrences.
    + rewrite filter_app, filter_cons, filter_nil.
      rewrite decide_True by done.
      by rewrite (filter_key_fresh _ _ _ Hin).
Qed.

Lemma filter_step_spec (xs : list (SportFacility F)) (f : SportFacility F) :
  distance_defined geodesic_km lat0 lon0 f →
  step f (group_by type_of xs)
  = Ok (group_by type_of (xs ++ filter (λ x, near x = true) [f])).
Proof.
  intros [dist Hd]. unfold filter_step, within_distance.
  rewrite filter_cons, filter_nil. unfold within_distance.
  cbn zeta. rewrite Hd. simpl.
  destruct (float_le dist distance_km).
  - rewrite decide_True by done.
    destruct (group_by_snoc xs f) as (g & -> & ->). done.
  - rewrite decide_False by done. by rewrite app_nil_r.
Qed.

Lemma filter_loop_spec (rest : list (SportFacility F)) :
  ∀ xs : list (SportFacility F),
    Forall (distance_defined geodesic_km lat0 lon0) rest →
    loop rest (group_by type_of xs)
    = Ok (group_by type_of (xs ++ filter (λ x, near x = true) rest)).
Proof.
  induction rest as [|f rest IH]; intros xs Hall.
  - simpl. by rewrite filter_nil, app_nil_r.
  - apply Forall_cons in Hall as [Hf Hall]. simpl.
    rewrite (filter_step_spec xs f Hf). simpl.
    rewrite IH by done. f_equal. f_equal.
    rewrite <- app_assoc. f_equal.
    by rewrite <- filter_app.
Qed.

Lemma filter_loop_raises (rest : list (SportFacility F)) :
  ∀ (xs pre : list (SportFacility F)) (f : SportFacility F) post e,
    rest = pre ++ f :: post →
    Forall (distance_defined geodesic_km lat0 lon0) pre →
    geodesic_km (lat f, lon f) (lat0, lon0) = Raise e →
    loop rest (group_by type_of xs) = Raise e.
Proof.
  intros xs pre. revert rest xs.
  induction pre as [|p pre IH]; intros rest xs f post e -> Hall He.
  - simpl. unfold filter_step. cbn zeta. by rewrite He.
  - apply Forall_cons in Hall as [Hp Hall]. simpl.
    rewrite (filter_step_spec xs p Hp). simpl.
    by eapply IH.
Qed.
End Bonus1Facts.

(** X21: when the distance of every facility can be computed,
    [filter_facilities_by_type_and_distance] returns the facilities within
    the distance grouped by their type: one item per type, the types in the
    order of their first facility, every group holding exactly the
    facilities of that type that are within the distance, in the order of
    the input.  No group is empty, and the dictionary is empty exactly when
    no facility is within the distance. *)
Theorem filter_facilities_by_type_and_distance_groups {F : Type}
    (geodesic_km : F * F → F * F → result F) (float_le : F → F → bool)
    (title : string → string)
    (sports_data : list (SportFacility F)) (lat0 lon0 distance_km : F) :
  Forall (distance_defined geodesic_km lat0 lon0) sports_data →
  let nearby :=
    filter (λ x, within_distance geodesic_km float_le lat0 lon0 distance_km x
                 = true) sports_data in
  ∃ filtered_by_type,
    filter_facilities_by_type_and_distance geodesic_km float_le title
      sports_data lat0 lon0 distance_km = Ok filtered_by_type
    ∧ filtered_by_type = group_by (facility_type_of title) nearby
    ∧ NoDup filtered_by_type.*1
    ∧ (∀ t group, (t, group) ∈ filtered_by_type →
         group ≠ []
         ∧ group = filter (λ x, facility_type_of title x = t) nearby)
    ∧ (filtered_by_type = [] ↔ nearby = []).
Proof.
  intros Hall nearby. eexists. split.
  { unfold filter_facilities_by_type_and_distance.
    apply (filter_loop_spec geodesic_km float_le title lat0 lon0 distance_km
             sports_data [] Hall). }
  rewrite app_nil_l. fold nearby. split_and!.
  - done.
  - rewrite group_by_keys. apply first_occurrences_NoDup.
  - intros t group Hin. unfold group_by in Hin.
    apply list_elem_of_fmap in Hin as (t' & [= -> ->] & Ht).
    split; [|done].
    apply elem_of_first_occurrences, list_elem_of_fmap in Ht
      as (x & -> & Hx).
    intros Hnil.
    assert (Hx' : x ∈ filter (λ y, facility_type_of title y
                                  = facility_type_of title x) nearby)
      by (by apply list_elem_of_filter).
    rewrite Hnil in Hx'. by apply elem_of_nil in Hx'.
  - split.
    + intros Hnil. destruct nearby as [|x xs] eqn:Hn; [done|].
      assert (Hin : facility_type_of title x
                    ∈ (group_by (facility_type_of title) (x :: xs)).*1).
      { rewrite group_by_keys. apply elem_of_first_occurrences.
        rewrite fmap_cons. by left. }
      rewrite Hnil in Hin. by apply elem_of_nil in Hin.
    + by intros ->.
Qed.

Lemma filter_facilities_by_type_and_distance_groups_witness :
  ∃ filtered_by_type,
    filter_facilities_by_type_and_distance sample_distance Z.leb ascii_title
      sample_sports_data 22%Z 114%Z 1%Z = Ok filtered_by_type
    ∧ filtered_by_type.*1 = ["Badminton Courts"; "Swimming Pools"].
Proof.
  destruct (filter_facilities_by_type_and_distance_groups
              sample_distance Z.leb ascii_title sample_sports_data
              22%Z 114%Z 1%Z) as (d & Hrun & -> & _).
  - repeat constructor; eexists; vm_compute; reflexivity.
  - eexists. split; [exact Hrun|]. vm_compute. reflexivity.
Defined.

(** X22: a facility whose distance cannot be computed makes
    [filter_facilities_by_type_and_distance] raise that error, whatever
    comes after it, also when the facilities before it are all within the
    distance: no partial dictionary is returned. *)
Theorem filter_facilities_by_type_and_distance_raises {F : Type}
    (geodesic_km : F * F → F * F → result F) (float_le : F → F → bool)
    (title : string → string)
    (pre post : list (SportFacility F)) (facility : SportFacility F)
    (lat0 lon0 distance_km : F) (e : exn) :
  Forall (distance_defined geodesic_km lat0 lon0) pre →
  geodesic_km (lat facility, lon facility) (lat0, lon0) = Raise e →
  filter_facilities_by_type_and_distance geodesic_km float_le title
    (pre ++ facility :: post) lat0 lon0 distance_km = Raise e.
Proof.
  intros Hall He. unfold filter_facilities_by_type_and_distance.
  by apply (filter_loop_raises geodesic_km float_le title lat0 lon0
              distance_km _ [] pre facility post e).
Qed.

Lemma filter_facilities_by_type_and_distance_raises_witness :
  filter_facilities_by_type_and_distance sample_distance Z.leb ascii_title
    (sample_sports_data
     ++ mkSportFacility "x1" "parks.csv" "Park X" None None
          0%Z 0%Z 91%Z 114%Z
     :: sample_sports_data) 22%Z 114%Z 1%Z
  = Raise (ValueError "Latitude must be in the [-90; 90] range.").
Proof.
  apply filter_facilities_by_type_and_distance_raises.
  - repeat constructor; eexists; vm_compute; reflexivity.
  - vm_compute. reflexivity.
Defined.

(** ** The feature class names *)

Lemma re_sub_runs_alphabet (s : string) :
  ∀ r, Forall (λ c, is_alnum c = true ∨ c = "_"%char)
         (chars (re_sub_runs r s)).
Proof.
  induction s as [|c s IH]; intros r; simpl; [constructor|].
  destruct (is_alnum c) eqn:Hc.
  - constructor; [by left|apply IH].
  - destruct r; [apply IH|]. constructor; [by right|apply IH].
Qed.

(** After a run has been replaced, the text goes on with a character of the
    class, if it goes on. *)
Lemma re_sub_runs_in_run (s : string) :
  match re_sub_runs true s with
  | "" => True
  | String c _ => is_alnum c = true
  end.
Proof.
  induction s as [|c s IH]; simpl; [done|].
  by destruct (is_alnum c) eqn:Hc.
Qed.

Lemma re_sub_runs_isolated (s : string) :
  ∀ r l1 l2, chars (re_sub_runs r s) ≠ l1 ++ ["_"%char; "_"%char] ++ l2.
Proof.
  induction s as [|c s IH]; intros r l1 l2; simpl.
  - by destruct l1.
  - destruct (is_alnum c) eqn:Hc.
    + destruct l1 as [|a l1]; simpl.
      * intros [= -> _]. done.
      * intros [= _ H]. by apply IH in H.
    + destruct r; [apply IH|].
      destruct l1 as [|a l1]; simpl.
      * intros [= H]. pose proof (re_sub_runs_in_run s) as Hr.
        destruct (re_sub_runs true s) as [|c' s']; [done|].
        simpl in H. injection H as -> _. done.
      * intros [= _ H]. by apply IH in H.
Qed.

(** A text that [re.sub] has cleaned is left as it is; [r] tells that the
    text follows an underscore. *)
Lemma re_sub_runs_fixed (s : string) :
  ∀ r, re_sub_runs false (re_sub_runs r s) = re_sub_runs r s.
Proof.
  induction s as [|c s IH]; intros r; simpl; [done|].
  destruct (is_alnum c) eqn:Hc.
  - simpl. by rewrite Hc, IH.
  - destruct r; [apply IH|].
    simpl. pose proof (re_sub_runs_in_run s) as Hr.
    pose proof (IH true) as IHt.
    destruct (re_sub_runs true s) as [|c' s'] eqn:Hs; [done|].
    simpl in IHt |- *. rewrite Hr in IHt |- *. by rewrite IHt.
Qed.

Lemma re_sub_runs_app_special (a b : string) (c1 c2 : ascii) :
  is_alnum c1 = false → is_alnum c2 = false →
  ∀ r, re_sub_runs r (a +:+ String c1 b) = re_sub_runs r (a +:+ String c2 b).
Proof.
  intros H1 H2. induction a as [|c a IH]; intros r; simpl.
  - by rewrite H1, H2.
  - destruct (is_alnum c); [by rewrite IH|]. destruct r; by rewrite IH.
Qed.

(** X23: the cleaned name that [main] builds for a feature class holds
    only letters, digits and underscores, never two underscores in a row,
    and cleaning a cleaned name changes nothing. *)
Theorem fc_name_clean_shape (facility_type : string) :
  Forall (λ c, is_alnum c = true ∨ c = "_"%char)
    (chars (fc_name_clean facility_type))
  ∧ (∀ l1 l2, chars (fc_name_clean facility_type)
              ≠ l1 ++ ["_"%char; "_"%char] ++ l2)
  ∧ fc_name_clean (fc_name_clean facility_type) = fc_name_clean facility_type.
Proof.
  unfold fc_name_clean. split_and!.
  - apply re_sub_runs_alphabet.
  - apply re_sub_runs_isolated.
  - apply re_sub_runs_fixed.
Qed.

(** X24: the name of the feature class does not depend on which special
    character stands at a place: two facility types that differ in one
    character outside letters and digits get the same feature class
    name. *)
Theorem output_fc_name_collisions (a b : string) (c1 c2 : ascii) :
  is_alnum c1 = false → is_alnum c2 = false →
  output_fc_name (a +:+ String c1 b) = output_fc_name (a +:+ String c2 b).
Proof.
  intros H1 H2. unfold output_fc_name, fc_name_clean.
  by rewrite (re_sub_runs_app_special a b c1 c2 H1 H2).
Qed.

Lemma output_fc_name_collisions_witness :
  output_fc_name "Tennis Court" = output_fc_name "Tennis-Court"
  ∧ output_fc_name "Tennis Court" = "Tennis_Court_Near_PolyU".
Proof.
  split; [|vm_compute; reflexivity].
  apply (output_fc_name_collisions "Tennis" "Court" " " "-");
    vm_compute; reflexivity.
Defined.
